(** * FTL: session layer, query-log API, housekeeping and log parser

    A shallow embedding of the parts of the FTL engine that the
    specification makes claims about, and of the code around them:

    - [GC]      : src/src/gc.c        (rate-limit windows, [runGC])
    - [Auth]    : src/src/api/auth.c  ([check_client_auth], [api_auth])
    - [Queries] : src/src/api/queries.c ([api_queries])
    - [Parser]  : src/parser.c        ([process_pihole_log])
    - [Config]  : src/src/config/config.c ([gen_config_path],
                  [check_paths_equal], [config_path_depth])
    - [Webserver] : src/src/webserver/webserver.c
                  ([redirect_root_handler])

    C integers are integers of [Z]; a cast to an unsigned type is written
    out as a reduction modulo a power of two.  C strings are [string]s
    without the terminating NUL.  Arrays are lists read with [!!] and
    written with [<[ _ := _ ]>]. *)

From Stdlib Require Import ZArith Lia Ascii String.
From stdpp Require Import base list strings.

Local Open Scope Z_scope.

(** ** Machine integers *)

(** [(unsigned int) z] on a platform with 32-bit [unsigned int]. *)
Definition to_uint (z : Z) : Z := z mod 2 ^ 32.

(** [(unsigned long) z] on a platform with 64-bit [unsigned long]. *)
Definition to_ulong (z : Z) : Z := z mod 2 ^ 64.

(** Array access with a C [int] index: out of the array there is no
    element. *)
Definition lookupZ {A : Type} (l : list A) (i : Z) : option A :=
  if i <? 0 then None else l !! Z.to_nat i.

(** A pointer test, [if(p != NULL)]; [None] is the NULL pointer. *)
Definition non_null {A : Type} (p : option A) : bool :=
  match p with Some _ => true | None => false end.

(** [a[i] += d] on an array of integers. *)
Definition bump (i : nat) (d : Z) (l : list Z) : list Z :=
  alter (fun x => x + d) i l.

(** Sum of an array of counters. *)
Definition sumZ (l : list Z) : Z := foldr Z.add 0 l.

(* ===================================================================== *)
(** * gc.c *)
(* ===================================================================== *)

Module GC.

(** ** Data, as far as gc.c touches it *)

(** The query status enumeration, with the members gc.c names. *)
Inductive query_status :=
| QUERY_UNKNOWN | QUERY_GRAVITY | QUERY_FORWARDED | QUERY_CACHE | QUERY_REGEX
| QUERY_DENYLIST | QUERY_EXTERNAL_BLOCKED_IP | QUERY_EXTERNAL_BLOCKED_NULL
| QUERY_EXTERNAL_BLOCKED_NXRA | QUERY_GRAVITY_CNAME | QUERY_REGEX_CNAME
| QUERY_DENYLIST_CNAME | QUERY_RETRIED | QUERY_RETRIED_DNSSEC
| QUERY_IN_PROGRESS | QUERY_DBBUSY | QUERY_SPECIAL_DOMAIN | QUERY_CACHE_STALE
| QUERY_STATUS_MAX.

#[global] Instance query_status_eq_dec : EqDecision query_status.
Proof. solve_decision. Defined.

(** Modelled from the spec: the integer codes of the status enumeration
    (its declaration is not part of the sources at hand) follow the order
    in which the specification lists the states, UNKNOWN first. *)
Definition status_code (s : query_status) : nat :=
  match s with
  | QUERY_UNKNOWN => 0 | QUERY_GRAVITY => 1 | QUERY_FORWARDED => 2
  | QUERY_CACHE => 3 | QUERY_REGEX => 4 | QUERY_DENYLIST => 5
  | QUERY_EXTERNAL_BLOCKED_IP => 6 | QUERY_EXTERNAL_BLOCKED_NULL => 7
  | QUERY_EXTERNAL_BLOCKED_NXRA => 8 | QUERY_GRAVITY_CNAME => 9
  | QUERY_REGEX_CNAME => 10 | QUERY_DENYLIST_CNAME => 11
  | QUERY_RETRIED => 12 | QUERY_RETRIED_DNSSEC => 13
  | QUERY_IN_PROGRESS => 14 | QUERY_DBBUSY => 15
  | QUERY_SPECIAL_DOMAIN => 16 | QUERY_CACHE_STALE => 17
  | QUERY_STATUS_MAX => 18
  end%nat.

(** The statuses for which [runGC] takes the "blocked" branch of its
    switch. *)
Definition gc_blocked_case (s : query_status) : bool :=
  match s with
  | QUERY_GRAVITY | QUERY_DENYLIST | QUERY_REGEX
  | QUERY_EXTERNAL_BLOCKED_IP | QUERY_EXTERNAL_BLOCKED_NXRA
  | QUERY_EXTERNAL_BLOCKED_NULL | QUERY_GRAVITY_CNAME | QUERY_REGEX_CNAME
  | QUERY_DENYLIST_CNAME | QUERY_DBBUSY | QUERY_SPECIAL_DOMAIN => true
  | _ => false
  end.

Record queriesData := mkQuery {
  q_magic : bool;            (* the slot carries the magic byte *)
  q_timestamp : Z;
  q_clientID : Z;
  q_domainID : Z;
  q_status : query_status;
  q_reply : nat;             (* enum reply_type *)
  q_type : nat               (* enum query_type *)
}.

(** A slot after [memset(slot, 0, sizeof(queriesData))]. *)
Definition zero_query : queriesData :=
  mkQuery false 0 0 0 QUERY_UNKNOWN 0 0.

Record clientsData := mkClient {
  c_magic : bool;
  c_ippos : Z;
  c_count : Z;
  c_blockedcount : Z;
  c_overTime : list Z;
  c_rate_limit : Z;          (* unsigned int rate_limit *)
  c_rate_limited : bool      (* flags.rate_limited *)
}.

Record domainsData := mkDomain {
  d_magic : bool;
  d_count : Z;
  d_blockedcount : Z
}.

Record overTimeData := mkOverTime {
  ot_timestamp : Z;
  ot_total : Z;
  ot_blocked : Z
}.

(** The shared memory gc.c works on.  [queries_MAX] of the counters
    structure is the allocated length of [queries]. *)
Record shm := mkShm {
  n_queries : Z;                       (* counters->queries *)
  n_clients : Z;                       (* counters->clients *)
  cnt_status : list Z;                 (* counters->status[] *)
  cnt_reply : list Z;                  (* counters->reply[] *)
  cnt_querytype : list Z;              (* counters->querytype[] *)
  queries : list queriesData;
  clients : list clientsData;
  domains : list domainsData;
  overTime : list overTimeData;
  doGC : bool;
  DBdeleteoldqueries : bool;
  lastRateLimitCleaner : Z
}.

Definition queries_MAX (m : shm) : Z := Z.of_nat (length (queries m)).

(** The configuration items and build constants gc.c reads.  [GCinterval]
    and [GCdelay] are macros of a header that is not among the sources;
    they are taken as parameters. *)
Record gc_config := mkGcConfig {
  rateLimit_count : Z;                 (* config.dns.rateLimit.count.v.ui *)
  rateLimit_interval : Z;              (* config.dns.rateLimit.interval.v.ui *)
  maxHistory : Z;                      (* config.webserver.api.maxHistory.v.ui *)
  GCinterval : Z;
  GCdelay : Z
}.

(** Pointer getters: range check against the array and magic-byte check;
    [None] is the NULL pointer. *)
Definition getQuery (m : shm) (i : Z) : option queriesData :=
  match lookupZ (queries m) i with
  | Some q => if q_magic q then Some q else None
  | None => None
  end.

Definition getClient (cs : list clientsData) (i : Z) : option clientsData :=
  match lookupZ cs i with
  | Some c => if c_magic c then Some c else None
  | None => None
  end.

Definition getDomain (ds : list domainsData) (i : Z) : option domainsData :=
  match lookupZ ds i with
  | Some d => if d_magic d then Some d else None
  | None => None
  end.

(** ** Log lines of [reset_rate_limiting] *)

Inductive rate_log :=
| Still_rate_limiting (ippos : Z) (additional : Z)
| Ending_rate_limitation (ippos : Z).

(** ** [reset_rate_limiting] *)

Definition set_rate_limited (b : bool) (c : clientsData) : clientsData :=
  mkClient (c_magic c) (c_ippos c) (c_count c) (c_blockedcount c)
           (c_overTime c) (c_rate_limit c) b.

Definition set_rate_limit (n : Z) (c : clientsData) : clientsData :=
  mkClient (c_magic c) (c_ippos c) (c_count c) (c_blockedcount c)
           (c_overTime c) n (c_rate_limited c).

(** The loop body for one client the getter returned. *)
Definition reset_client (count : Z) (client : clientsData)
  : clientsData * list rate_log :=
  let '(client1, lg) :=
    if c_rate_limited client then
      if c_rate_limit client >? count
      then (client, [Still_rate_limiting (c_ippos client) (c_rate_limit client)])
      else (set_rate_limited false client,
            [Ending_rate_limitation (c_ippos client)])
    else (client, [])
  in (set_rate_limit 0 client1, lg).

(** [for(clientID = 0; clientID < counters->clients; clientID++)], the
    list [ids] holding the values [clientID] still has to take. *)
Fixpoint reset_loop (count : Z) (ids : list nat) (cs : list clientsData)
  : list clientsData * list rate_log :=
  match ids with
  | [] => (cs, [])
  | clientID :: rest =>
    match getClient cs (Z.of_nat clientID) with
    | None => reset_loop count rest cs                      (* continue *)
    | Some client =>
      let '(client', lg) := reset_client count client in
      let '(cs', lg') := reset_loop count rest (<[clientID := client']> cs) in
      (cs', lg ++ lg')
    end
  end.

Definition reset_rate_limiting (cfg : gc_config) (nclients : Z)
  (cs : list clientsData) : list clientsData * list rate_log :=
  reset_loop (rateLimit_count cfg) (seq 0 (Z.to_nat nclients)) cs.

(** ** [get_rate_limit_turnaround] *)

(** [now] is the value of [time(NULL)].  The division is the unsigned
    division of C; by zero the process traps, which is [None]. *)
Definition get_rate_limit_turnaround (cfg : gc_config)
  (lastCleaner now : Z) (rate_limit_count : Z) : option Z :=
  if rateLimit_count cfg =? 0 then None
  else
    let how_often := rate_limit_count / rateLimit_count cfg in
    Some (rateLimit_interval cfg * how_often - (now - lastCleaner)).

(** ** [runGC] *)

(** The functions [runGC] calls that live in other translation units
    (datastructure.c, overTime.c), taken as parameters.  Each is given the
    part of the shared memory it works on:
    - [getOverTimeID ot timestamp] is the overTime slot of a timestamp;
    - [change_clientcount cs clientID total blocked overTimeIdx overTimeMod]
      adjusts the counters of a client (and of what is tied to it);
    - [query_set_status status ot query new] is the bookkeeping that comes
      with a change of status, on the status counters and overTime; that
      the query has status [new] afterwards is written out in [gc_evict];
    - [moveOverTimeMemory mintime ot cs] shifts the overTime slots. *)
Record helpers := mkHelpers {
  getOverTimeID : list overTimeData -> Z -> nat;
  change_clientcount :
    list clientsData -> Z -> Z -> Z -> Z -> Z -> list clientsData;
  query_set_status :
    list Z -> list overTimeData -> queriesData -> query_status ->
    list Z * list overTimeData;
  moveOverTimeMemory :
    Z -> list overTimeData -> list clientsData ->
    list overTimeData * list clientsData
}.

Definition ot_add_total (d : Z) (o : overTimeData) : overTimeData :=
  mkOverTime (ot_timestamp o) (ot_total o + d) (ot_blocked o).

Definition ot_add_blocked (d : Z) (o : overTimeData) : overTimeData :=
  mkOverTime (ot_timestamp o) (ot_total o) (ot_blocked o + d).

Definition d_add_count (d : Z) (x : domainsData) : domainsData :=
  mkDomain (d_magic x) (d_count x + d) (d_blockedcount x).

Definition d_add_blockedcount (d : Z) (x : domainsData) : domainsData :=
  mkDomain (d_magic x) (d_count x) (d_blockedcount x + d).

Definition q_set_status (s : query_status) (q : queriesData) : queriesData :=
  mkQuery (q_magic q) (q_timestamp q) (q_clientID q) (q_domainID q) s
          (q_reply q) (q_type q).

(** Minimum timestamp to keep.  The sum of the [int] constant [GCdelay]
    and the [unsigned int] item [maxHistory] is a sum of [unsigned int]
    (taken modulo 2^32), which is then subtracted from the [time_t].
    [%] of C truncates toward zero: [Z.rem]. *)
Definition gc_mintime (cfg : gc_config) (now : Z) (flush : bool) : Z :=
  if flush then now
  else
    let mintime := now - to_uint (GCdelay cfg + maxHistory cfg) in
    mintime - Z.rem mintime (GCinterval cfg).

(** The body of the loop over the queries, for a query that is not too
    new: everything from "Adjust client counter" down to [removed++]. *)
Definition gc_evict (h : helpers) (m : shm) (i : nat) (query : queriesData)
  : shm :=
  let client := getClient (clients m) (q_clientID query) in
  let timeidx := getOverTimeID h (overTime m) (q_timestamp query) in
  let ot1 := alter (ot_add_total (-1)) timeidx (overTime m) in
  let cs1 :=
    if non_null client
    then change_clientcount h (clients m) (q_clientID query)
           (-1) 0 (Z.of_nat timeidx) (-1)
    else clients m in
  let domain := getDomain (domains m) (q_domainID query) in
  let ds1 :=
    if non_null domain
    then alter (d_add_count (-1)) (Z.to_nat (q_domainID query)) (domains m)
    else domains m in
  let blocked_case := gc_blocked_case (q_status query) in
  let ot2 :=
    if blocked_case then alter (ot_add_blocked (-1)) timeidx ot1 else ot1 in
  let ds2 :=
    if blocked_case && non_null domain
    then alter (d_add_blockedcount (-1)) (Z.to_nat (q_domainID query)) ds1
    else ds1 in
  let cs2 :=
    if blocked_case && non_null client
    then change_clientcount h cs1 (q_clientID query) 0 (-1) (-1) 0
    else cs1 in
  let reply1 := bump (q_reply query) (-1) (cnt_reply m) in
  let type1 := bump (q_type query) (-1) (cnt_querytype m) in
  let status1 :=
    if decide (q_status query = QUERY_UNKNOWN) then cnt_status m
    else bump (status_code QUERY_UNKNOWN) (-1) (cnt_status m) in
  let set := query_set_status h status1 ot2 query QUERY_UNKNOWN in
  mkShm (n_queries m) (n_clients m) set.1 reply1 type1
        (<[i := q_set_status QUERY_UNKNOWN query]> (queries m))
        cs2 ds2 set.2 (doGC m) (DBdeleteoldqueries m)
        (lastRateLimitCleaner m).

(** [for(long int i=0; i < counters->queries; i++)], with [ids] the values
    [i] still has to take; the result is the memory and [removed]. *)
Fixpoint gc_loop (h : helpers) (mintime : Z) (ids : list nat) (m : shm)
  (removed : Z) : shm * Z :=
  match ids with
  | [] => (m, removed)
  | i :: rest =>
    match getQuery m (Z.of_nat i) with
    | None => gc_loop h mintime rest m removed                  (* continue *)
    | Some query =>
      if q_timestamp query >? mintime then (m, removed)         (* break *)
      else gc_loop h mintime rest (gc_evict h m i query) (removed + 1)
    end
  end.

(** [memmove(&a[0], &a[src], n*sizeof(queriesData))]. *)
Definition memmove_front (src n : nat) (a : list queriesData)
  : list queriesData :=
  imap (fun k x => if (k <? n)%nat then default x (a !! (src + k)%nat) else x) a.

(** [memset(&a[from], 0, n*sizeof(queriesData))]. *)
Definition memset_zero (from n : nat) (a : list queriesData)
  : list queriesData :=
  imap (fun k x =>
          if ((from <=? k) && (k <? from + n))%nat then zero_query else x) a.

Definition set_queries (n : Z) (qs : list queriesData) (m : shm) : shm :=
  mkShm n (n_clients m) (cnt_status m) (cnt_reply m) (cnt_querytype m)
        qs (clients m) (domains m) (overTime m) (doGC m)
        (DBdeleteoldqueries m) (lastRateLimitCleaner m).

(** "Only perform memory operations when we actually removed queries". *)
Definition gc_compact (m : shm) (removed : Z) : shm :=
  if removed >? 0 then
    let dest := getQuery m 0 in
    let src := getQuery m (removed - 1) in
    let qs1 :=
      match dest, src with
      | Some _, Some _ =>
        memmove_front (Z.to_nat (removed - 1))
                      (Z.to_nat (n_queries m - removed)) (queries m)
      | _, _ => queries m
      end in
    let m1 := set_queries (n_queries m - removed) qs1 m in
    match getQuery m1 (n_queries m1) with
    | Some _ =>
      set_queries (n_queries m1)
        (memset_zero (Z.to_nat (n_queries m1))
                     (Z.to_nat (queries_MAX m1 - n_queries m1)) qs1) m1
    | None => m1
    end
  else m.

(** [runGC(now, lastGCrun, flush)]; [lastGCrun] is [None] for a NULL
    pointer.  The lock, the timer and the debug output have no part in
    the result; the rows deleted from the database by
    [delete_old_queries_from_db] are not part of the shared memory. *)
Definition runGC (h : helpers) (cfg : gc_config) (now : Z)
  (lastGCrun : option Z) (flush : bool) (m : shm) : option Z * shm :=
  let lastGCrun' :=
    match lastGCrun with
    | Some _ =>
      Some (now - GCdelay cfg - Z.rem (now - GCdelay cfg) (GCinterval cfg))
    | None => None
    end in
  let mintime := gc_mintime cfg now flush in
  let '(m1, removed) :=
    gc_loop h mintime (seq 0 (Z.to_nat (n_queries m))) m 0 in
  let m2 := gc_compact m1 removed in
  let moved := moveOverTimeMemory h mintime (overTime m2) (clients m2) in
  (lastGCrun',
   mkShm (n_queries m2) (n_clients m2) (cnt_status m2) (cnt_reply m2)
         (cnt_querytype m2) (queries m2) moved.2 (domains m2) moved.1
         false true (lastRateLimitCleaner m2)).

(** ** One pass of the loop of [GC_thread] *)

(** The rate-limit step of a pass ("if(config.dns.rateLimit.interval.v.ui
    > 0 && ..."). *)
Definition GC_thread_rate_limit (cfg : gc_config) (now : Z) (m : shm)
  : shm * list rate_log :=
  if (rateLimit_interval cfg >? 0) &&
     (to_uint (now - lastRateLimitCleaner m) >=? rateLimit_interval cfg)
  then
    let '(cs, lg) := reset_rate_limiting cfg (n_clients m) (clients m) in
    (mkShm (n_queries m) (n_clients m) (cnt_status m) (cnt_reply m)
           (cnt_querytype m) (queries m) cs (domains m) (overTime m)
           (doGC m) (DBdeleteoldqueries m) now, lg)
  else (m, []).

(** The steps of a pass that work on the shared memory: the rate-limit
    step and the garbage collection.  Load, disk and configuration checks
    in between leave it alone. *)
Definition GC_thread_pass (h : helpers) (cfg : gc_config) (now : Z)
  (lastGCrun : Z) (m : shm) : Z * shm * list rate_log :=
  let '(m1, lg) := GC_thread_rate_limit cfg now m in
  if (now - GCdelay cfg - lastGCrun >=? GCinterval cfg) || doGC m1 then
    match runGC h cfg now (Some lastGCrun) false m1 with
    | (Some l, m2) => (l, m2, lg)
    | (None, m2) => (lastGCrun, m2, lg)
    end
  else (lastGCrun, m1, lg).

End GC.

(* ===================================================================== *)
(** * api/auth.c *)
(* ===================================================================== *)

Module Auth.

(** ** Constants of api/auth.h, which is not among the sources *)

(** Modelled from the spec: "sid[44]", "43 printable chars plus a
    terminator". *)
Definition SID_SIZE : nat := 44.

(** Modelled from the spec: [check_client_auth] "returns -1 if not
    authenticated or expired" (the comment on the function), and the
    verdicts for localhost and for the empty password are "special
    verdicts (not slots)", below every slot number. *)
Definition API_AUTH_UNAUTHORIZED : Z := -1.
Definition API_AUTH_LOCALHOST : Z := -2.
Definition API_AUTH_EMPTYPASS : Z := -3.

Definition LOCALHOSTv4 : string := "127.0.0.1".
Definition LOCALHOSTv6 : string := "::1".

(** ** Sessions *)

Record session := mkSession {
  used : bool;
  app : bool;
  tls_login : bool;
  tls_mixed : bool;
  login_at : Z;
  valid_until : Z;
  sid : string;
  csrf : string;
  remote_addr : string;
  user_agent : string
}.

(** A slot after [memset(&auth_data[i], 0, sizeof(auth_data[i]))]. *)
Definition zero_session : session :=
  mkSession false false false false 0 0 "" "" "" "".

(** ** Configuration *)

Record auth_config := mkAuthConfig {
  localAPIauth : bool;           (* config.webserver.api.localAPIauth.v.b *)
  pwhash : string;               (* config.webserver.api.pwhash.v.s *)
  totp_secret : string;          (* config.webserver.api.totp_secret.v.s *)
  session_timeout : Z;           (* config.webserver.session.timeout.v.ui *)
  session_timeout_default : Z;   (* config.webserver.session.timeout.d.ui *)
  debug_api : bool               (* config.debug.api.v.b *)
}.

(** ** Requests *)

Inductive http_method := HTTP_GET | HTTP_POST | HTTP_DELETE | HTTP_OTHER.

#[global] Instance http_method_eq_dec : EqDecision http_method.
Proof. solve_decision. Defined.

(** A JSON item, as far as auth.c looks at it: a string, or a value with
    an integer reading ([valueint]). *)
Inductive json_value :=
| JString (valuestring : string)
| JNumber (valueint : Z)
| JOther.

Definition valueint_of (v : json_value) : Z :=
  match v with JNumber n => n | _ => 0 end.

(** The items auth.c asks the parsed JSON payload for. *)
Record json_payload := mkJson {
  j_sid : option json_value;
  j_password : option json_value;
  j_totp : option json_value
}.

(** A connection: what the web server library answers when auth.c asks
    for a header, a cookie or a variable of the payload. *)
Record ftl_conn := mkConn {
  req_remote_addr : string;
  is_ssl : bool;
  method : http_method;
  item : option string;                  (* api->item *)
  payload_avail : bool;
  payload_form_sid : option string;      (* variable "sid" of payload.raw *)
  payload_json : option json_payload;    (* None: payload.json == NULL *)
  payload_json_error : option string;
  hdr_sid : option string;
  hdr_x_ftl_sid : option string;
  hdr_x_csrf_token : option string;
  hdr_authorization : option string;
  hdr_user_agent : option string;
  cookie_sid : option string             (* http_get_cookie_str(api, "sid") *)
}.

(** ** Log and response headers *)

Inductive log_level := LOG_DEBUG | LOG_INFO | LOG_WARN | LOG_ERR.

Inductive log_arg :=
| A_str (s : string)
| A_null                       (* a NULL pointer given to "%s" *)
| A_int (n : Z).

(** A call of a logging function: level, format string, arguments. *)
Record log_entry := mkLog {
  log_lvl : log_level;
  log_fmt : string;
  log_args : list log_arg
}.

Definition arg_of (p : option string) : log_arg :=
  match p with Some s => A_str s | None => A_null end.

(** The double quote, as it occurs in format strings. *)
Definition dquote : string := String (Ascii.ascii_of_nat 34) EmptyString.

Inductive extra_headers :=
| No_extra_headers
| Set_cookie (sid : string) (max_age : Z)      (* FTL_SET_COOKIE *)
| Delete_cookie.                               (* FTL_DELETE_COOKIE *)

(** ** State *)

Record state := mkState {
  auth_data : list session;          (* API_MAX_CLIENTS slots *)
  pi_hole_extra_headers : extra_headers;
  log : list log_entry;
  user_id : Z;                       (* api->user_id *)
  csrf_token : string;               (* api->request->csrf_token *)
  is_authenticated : bool            (* api->request->is_authenticated *)
}.

Definition set_auth_data (a : list session) (st : state) : state :=
  mkState a (pi_hole_extra_headers st) (log st) (user_id st)
          (csrf_token st) (is_authenticated st).

Definition set_headers (h : extra_headers) (st : state) : state :=
  mkState (auth_data st) h (log st) (user_id st)
          (csrf_token st) (is_authenticated st).

Definition set_user_id (u : Z) (st : state) : state :=
  mkState (auth_data st) (pi_hole_extra_headers st) (log st) u
          (csrf_token st) (is_authenticated st).

Definition add_log (e : log_entry) (st : state) : state :=
  mkState (auth_data st) (pi_hole_extra_headers st) (log st ++ [e])
          (user_id st) (csrf_token st) (is_authenticated st).

(** [log_debug(DEBUG_API, fmt, args)] prints when the flag is set. *)
Definition log_debug (cfg : auth_config) (fmt : string)
  (args : list log_arg) (st : state) : state :=
  if debug_api cfg then add_log (mkLog LOG_DEBUG fmt args) st else st.

Definition log_info (fmt : string) (args : list log_arg) (st : state)
  : state := add_log (mkLog LOG_INFO fmt args) st.

Definition log_warn (fmt : string) (args : list log_arg) (st : state)
  : state := add_log (mkLog LOG_WARN fmt args) st.

Definition log_err (fmt : string) (args : list log_arg) (st : state)
  : state := add_log (mkLog LOG_ERR fmt args) st.

(** ** String helpers *)

(** [strncpy(dst, src, n); dst[n] = 0]: the first [n] characters. *)
Definition strncpy (n : nat) (src : string) : string :=
  String.substring 0 n src.

(** "+" may have been replaced by " ", undo this. *)
Fixpoint plus_for_space (s : string) : string :=
  match s with
  | EmptyString => EmptyString
  | String c rest =>
    String (if bool_decide (c = " "%char) then "+"%char else c)
           (plus_for_space rest)
  end.

(** [GET_VAR(name, dst, src) > 0]: the variable exists, is not empty and
    fits the destination of [dst_size] bytes with its terminator. *)
Definition GET_VAR (v : option string) (dst_size : nat) : option string :=
  match v with
  | Some s =>
    if ((0 <? String.length s) && (String.length s <? dst_size))%nat
    then Some s else None
  | None => None
  end.

(** ** [add_request_info], [is_local_api_user] *)

Definition add_request_info (csrf : option string) (st : state) : state :=
  mkState (auth_data st) (pi_hole_extra_headers st) (log st) (user_id st)
          (match csrf with
           | Some c => c            (* both buffers hold SID_SIZE bytes *)
           | None => csrf_token st
           end)
          true.

Definition is_local_api_user (remote : string) : bool :=
  bool_decide (remote = LOCALHOSTv4) || bool_decide (remote = LOCALHOSTv6).

(** ** [check_client_auth] *)

Inductive sid_source :=
| From_form_data | From_json | From_header | From_cookie.

#[global] Instance sid_source_eq_dec : EqDecision sid_source.
Proof. solve_decision. Defined.

Definition sid_source_str (s : sid_source) : string :=
  match s with
  | From_form_data => "payload (form-data)"
  | From_json => "payload (JSON)"
  | From_header => "header"
  | From_cookie => "cookie"
  end.

(** "Does the client provide a session ID?": payload first (form data,
    else JSON), then the headers, then the cookie. *)
Definition sid_from_payload (api : ftl_conn) : option (string * sid_source) :=
  if payload_avail api then
    match GET_VAR (payload_form_sid api) SID_SIZE with
    | Some s => Some (strncpy (SID_SIZE - 1) (plus_for_space s), From_form_data)
    | None =>
      match payload_json api with
      | Some j =>
        match j_sid j with
        | Some (JString s) => Some (strncpy (SID_SIZE - 1) s, From_json)
        | _ => None
        end
      | None => None
      end
    end
  else None.

Definition sid_from_header (api : ftl_conn) : option (string * sid_source) :=
  match hdr_sid api with
  | Some h => Some (strncpy (SID_SIZE - 1) h, From_header)
  | None =>
    match hdr_x_ftl_sid api with
    | Some h => Some (strncpy (SID_SIZE - 1) h, From_header)
    | None => None
    end
  end.

Definition sid_from_cookie (api : ftl_conn) : option (string * sid_source) :=
  match cookie_sid api with
  | Some c => Some (c, From_cookie)
  | None => None
  end.

Definition request_sid (api : ftl_conn) : option (string * sid_source) :=
  match sid_from_payload api with
  | Some r => Some r
  | None =>
    match sid_from_header api with
    | Some r => Some r
    | None => sid_from_cookie api
    end
  end.

(** The condition under which the loop over the slots takes slot [s]. *)
Definition slot_matches (now : Z) (remote sid_req : string) (s : session)
  : bool :=
  used s && (valid_until s >=? now) &&
  bool_decide (remote_addr s = remote) && bool_decide (sid s = sid_req).

Inductive slot_search :=
| Slot_found (i : nat)
| Slot_csrf_mismatch (i : nat)
| Slot_none.

(** [for(unsigned int i = 0; i < API_MAX_CLIENTS; i++)] from slot [i] on;
    [csrf] is the token of the header when one is needed. *)
Fixpoint search_slots (now : Z) (remote sid_req : string)
  (csrf_req : option string) (i : nat) (slots : list session) : slot_search :=
  match slots with
  | [] => Slot_none
  | s :: rest =>
    if slot_matches now remote sid_req s then
      match csrf_req with
      | Some tok =>
        if bool_decide (csrf s = tok) then Slot_found i
        else Slot_csrf_mismatch i
      | None => Slot_found i
      end
    else search_slots now remote sid_req csrf_req (S i) rest
  end.

(** "Authentication successful": what is done to the slot. *)
Definition touch_session (cfg : auth_config) (now : Z) (ssl : bool)
  (s : session) : session :=
  mkSession (used s) (app s) (tls_login s)
            (tls_mixed s || negb (eqb ssl (tls_login s)))
            (login_at s) (now + session_timeout cfg)
            (sid s) (csrf s) (remote_addr s) (user_agent s).

(** [check_client_auth(api, is_api)] at time [now].  [snprintf] on the
    cookie format does not fail, so the branch that answers with an
    internal error is left out. *)
Definition check_client_auth (cfg : auth_config) (now : Z) (api : ftl_conn)
  (is_api : bool) (st : state) : Z * state :=
  if negb (localAPIauth cfg) && is_local_api_user (req_remote_addr api) then
    (API_AUTH_LOCALHOST, add_request_info None st)
  else if bool_decide (pwhash cfg = "") then
    (API_AUTH_EMPTYPASS, add_request_info None st)
  else
    match request_sid api with
    | None =>
      (API_AUTH_UNAUTHORIZED,
       log_debug cfg "API Authentication: FAIL (no SID provided)" [] st)
    | Some (sid_req, source) =>
      let st1 :=
        log_debug cfg ("Read sid=" +:+ dquote +:+ "%s" +:+ dquote +:+ " from %s")
                  [A_str sid_req; A_str (sid_source_str source)] st in
      let cookie_auth := bool_decide (source = From_cookie) in
      let need_csrf := cookie_auth && is_api in
      let csrf_hdr :=
        if need_csrf
        then match hdr_x_csrf_token api with
             | Some h => Some (Some (strncpy (SID_SIZE - 1) h))
             | None => None
             end
        else Some None in
      match csrf_hdr with
      | None =>
        (API_AUTH_UNAUTHORIZED,
         log_debug cfg
           "API Authentication: FAIL (Cookie authentication without CSRF token)"
           [] st1)
      | Some csrf_req =>
        match search_slots now (req_remote_addr api) sid_req csrf_req 0
                           (auth_data st1) with
        | Slot_csrf_mismatch i =>
          (API_AUTH_UNAUTHORIZED,
           log_debug cfg
             ("API Authentication: FAIL (CSRF token mismatch, received "
              +:+ dquote +:+ "%s" +:+ dquote +:+ ", expected "
              +:+ dquote +:+ "%s" +:+ dquote +:+ ")")
             [arg_of csrf_req; arg_of (csrf <$> auth_data st1 !! i)] st1)
        | Slot_none =>
          (API_AUTH_UNAUTHORIZED,
           log_debug cfg "API Authentication: FAIL (SID invalid/expired)" [] st1)
        | Slot_found i =>
          let slots := alter (touch_session cfg now (is_ssl api)) i
                             (auth_data st1) in
          let st2 := set_auth_data slots st1 in
          let st3 :=
            set_headers
              (Set_cookie (default "" (sid <$> slots !! i))
                          (session_timeout cfg)) st2 in
          let st4 := add_request_info (csrf <$> slots !! i) st3 in
          let st5 :=
            log_debug cfg
              "Recognized known user: user_id %i, valid_until: %s, remote_addr %s"
              [A_int (Z.of_nat i);
               A_int (default 0 (valid_until <$> slots !! i));
               arg_of (remote_addr <$> slots !! i)] st4 in
          (Z.of_nat i, set_user_id (Z.of_nat i) st5)
        end
      end
    end.

(** ** Session objects and the status answer *)

(** The body of an answer: none, an error object, or a session object. *)
Inductive body :=
| No_body
| Error_body (key message : string) (hint : option string)
| Session_body (valid totp : bool) (b_sid b_csrf : option string)
               (validity : Z).

Definition has_totp (cfg : auth_config) : bool :=
  (0 <? String.length (totp_secret cfg))%nat.

Definition get_session_object (cfg : auth_config) (st : state) (uid : Z)
  (now : Z) : body :=
  if bool_decide (uid = API_AUTH_LOCALHOST) ||
     bool_decide (uid = API_AUTH_EMPTYPASS)
  then Session_body true (has_totp cfg) None None (-1)
  else
    match (if uid >? API_AUTH_UNAUTHORIZED then lookupZ (auth_data st) uid
           else None) with
    | Some s =>
      if used s
      then Session_body true (has_totp cfg) (Some (sid s)) (Some (csrf s))
                        (valid_until s - now)
      else Session_body false (has_totp cfg) None None (-1)
    | None => Session_body false (has_totp cfg) None None (-1)
    end.

(** [delete_session(user_id)]; [API_MAX_CLIENTS] is the number of slots. *)
Definition delete_session (uid : Z) (st : state) : state :=
  if (uid <? 0) || (uid >=? Z.of_nat (length (auth_data st))) then st
  else set_auth_data (<[Z.to_nat uid := zero_session]> (auth_data st)) st.

(** [send_json_error(api, code, key, message, hint)] answers with the
    error object and yields the code. *)
Definition send_json_error (code : Z) (key message : string)
  (hint : option string) (st : state) : Z * body * state :=
  (code, Error_body key message hint, st).

(** [send_api_auth_status(api, user_id, now)]: the macros that send the
    object return the HTTP code, 200 when none is given. *)
Definition send_api_auth_status (cfg : auth_config) (api : ftl_conn)
  (uid : Z) (now : Z) (st : state) : Z * body * state :=
  if bool_decide (uid = API_AUTH_LOCALHOST) then
    let st1 :=
      log_debug cfg "API Auth status: OK (localhost does not need auth)" [] st in
    (200, get_session_object cfg st1 uid now, st1)
  else if bool_decide (uid = API_AUTH_EMPTYPASS) then
    let st1 := log_debug cfg "API Auth status: OK (empty password)" [] st in
    (200, get_session_object cfg st1 uid now, st1)
  else if (uid >? API_AUTH_UNAUTHORIZED) &&
          (bool_decide (method api = HTTP_GET) ||
           bool_decide (method api = HTTP_POST)) then
    let st1 := log_debug cfg "API Auth status: OK" [] st in
    let st2 :=
      set_headers
        (Set_cookie (default "" (sid <$> lookupZ (auth_data st1) uid))
                    (session_timeout_default cfg)) st1 in
    (200, get_session_object cfg st2 uid now, st2)
  else if (uid >? API_AUTH_UNAUTHORIZED) &&
          bool_decide (method api = HTTP_DELETE) then
    let st1 :=
      log_debug cfg "API Auth status: Logout, asking to delete cookie" [] st in
    let st2 := set_headers Delete_cookie (delete_session uid st1) in
    (410, get_session_object cfg st2 uid now, st2)
  else
    let st1 :=
      log_debug cfg "API Auth status: Invalid, asking to delete cookie" [] st in
    let st2 := set_headers Delete_cookie st1 in
    (401, get_session_object cfg st2 uid now, st2).

(** ** Login *)

Inductive password_result :=
| PASSWORD_INCORRECT
| PASSWORD_CORRECT
| APPPASSWORD_CORRECT
| PASSWORD_RATE_LIMITED.

#[global] Instance password_result_eq_dec : EqDecision password_result.
Proof. solve_decision. Defined.

(** What auth.c calls in other translation units: the password check
    (given the pointer [password], [None] for NULL), the TOTP check and
    the base64 decoder (its result read as a C string). *)
Record auth_env := mkAuthEnv {
  verify_login : option string -> password_result;
  verifyTOTP : Z -> bool;
  base64_decode : string -> option string
}.

(** [password == NULL || strlen(password) == 0]. *)
Definition no_password (p : option string) : bool :=
  match p with
  | None => true
  | Some s => (String.length s =? 0)%nat
  end.

Definition basic_auth (env : auth_env) (api : ftl_conn) : option string :=
  match hdr_authorization api with
  | None => None
  | Some auth_header =>
    if negb (String.prefix "Basic " auth_header) then None
    else
      match base64_decode env
              (String.substring 6 (String.length auth_header - 6) auth_header)
      with
      | None => None
      | Some decoded =>
        match String.index 0 ":" decoded with
        | None => None
        | Some k =>
          let username := String.substring 0 k decoded in
          let password :=
            String.substring (S k) (String.length decoded - S k) decoded in
          if bool_decide (username = "pi-hole") then Some password else None
        end
      end
  end.

(** [generateSID(dst)]: [fresh] is the base64 text of the random bytes,
    [None] when [getrandom] fails and the destination keeps its content. *)
Definition generateSID (fresh : option string) (old : string)
  : string * list log_entry :=
  match fresh with
  | Some s => (strncpy (SID_SIZE - 1) s, [])
  | None => (old, [mkLog LOG_ERR "getrandom() failed in generateSID()" []])
  end.

(** The slot a login fills in, from the (unused) slot [s]. *)
Definition new_session (cfg : auth_config) (now : Z) (api : ftl_conn)
  (result : password_result) (fresh_sid fresh_csrf : option string)
  (s : session) : session * list log_entry :=
  let '(sid', l1) := generateSID fresh_sid (sid s) in
  let '(csrf', l2) := generateSID fresh_csrf (csrf s) in
  (mkSession true
             (bool_decide (result = APPPASSWORD_CORRECT))
             (is_ssl api) false
             now (now + session_timeout cfg)
             sid' csrf'
             (strncpy 47 (req_remote_addr api))
             (match hdr_user_agent api with
              | Some ua => strncpy 127 ua
              | None => ""
              end),
   l1 ++ l2).

(** "Find unused authentication slot", from slot [i] on: the number of
    the slot taken, the slots and the log lines, or the slots as the loop
    leaves them when none is free. *)
Fixpoint login_loop (cfg : auth_config) (now : Z) (api : ftl_conn)
  (result : password_result) (fresh_sid fresh_csrf : option string)
  (i : nat) (slots : list session)
  : option nat * list session * list log_entry :=
  match slots with
  | [] => (None, [], [])
  | s :: rest =>
    let expired := used s && (valid_until s <? now) in
    let lg :=
      if expired && debug_api cfg
      then [mkLog LOG_DEBUG
                  "API: Session of client %u (%s) expired, freeing..."
                  [A_int (Z.of_nat i); A_str (remote_addr s)]]
      else [] in
    let s1 := if expired then zero_session else s in
    if negb (used s1) then
      let '(s2, lg2) := new_session cfg now api result fresh_sid fresh_csrf s1 in
      (Some i, s2 :: rest, lg ++ lg2)
    else
      let '(r, rest', lg') :=
        login_loop cfg now api result fresh_sid fresh_csrf (S i) rest in
      (r, s1 :: rest', lg ++ lg')
  end.

Definition add_logs (l : list log_entry) (st : state) : state :=
  mkState (auth_data st) (pi_hole_extra_headers st) (log st ++ l)
          (user_id st) (csrf_token st) (is_authenticated st).

(** "else: Login attempt": [api_auth] from the declaration of [result]
    on, with the password and the verdict of [check_client_auth]. *)
Definition api_auth_login (env : auth_env) (cfg : auth_config) (now : Z)
  (fresh_sid fresh_csrf : option string) (api : ftl_conn)
  (uid : Z) (password : option string) (st : state) : Z * body * state :=
  let empty_password := bool_decide (pwhash cfg = "") in
  let st1 :=
    log_info ("Password: " +:+ dquote +:+ "%s" +:+ dquote)
             [arg_of password] st in
  let result :=
    if empty_password && no_password password then PASSWORD_CORRECT
    else verify_login env password in
  if bool_decide (result = PASSWORD_CORRECT) ||
     bool_decide (result = APPPASSWORD_CORRECT) then
    let totp_needed :=
      has_totp cfg && negb (bool_decide (result = APPPASSWORD_CORRECT)) in
    let json_totp :=
      match payload_json api with Some j => j_totp j | None => None end in
    if totp_needed && negb (non_null json_totp) then
      let message := "No 2FA token found in JSON payload" in
      send_json_error 400 "bad_request" message None
        (log_debug cfg "API auth error: %s" [A_str message] st1)
    else if totp_needed &&
            negb (verifyTOTP env (default 0 (valueint_of <$> json_totp))) then
      send_json_error 401 "unauthorized" "Invalid 2FA token" None st1
    else
      let '(found, slots, lg) :=
        login_loop cfg now api result fresh_sid fresh_csrf 0 (auth_data st1) in
      let uid' :=
        match found with Some i => Z.of_nat i | None => uid end in
      let st2 := add_logs lg (set_auth_data slots st1) in
      let st3 :=
        if uid' >? API_AUTH_UNAUTHORIZED then
          log_debug cfg
            "API: Registered new user: user_id %i valid_until: %s remote_addr %s (accepted due to %s)"
            [A_int uid';
             A_int (default 0 (valid_until <$> lookupZ slots uid'));
             arg_of (remote_addr <$> lookupZ slots uid');
             A_str (if empty_password then "empty password"
                    else "correct response")] st2
        else st2 in
      let st4 :=
        if bool_decide (uid' = API_AUTH_UNAUTHORIZED)
        then log_warn
               "No free API seats available, not authenticating client" [] st3
        else st3 in
      send_api_auth_status cfg api uid' now st4
  else if bool_decide (result = PASSWORD_RATE_LIMITED) then
    send_json_error 429 "too_many_requests" "Too many requests"
                    (Some "login rate limiting") st1
  else
    send_api_auth_status cfg api uid now
      (log_debug cfg "API: Password incorrect: '%s'" [arg_of password] st1).

(** [api_auth(api)] down to "else: Login attempt": either the answer is
    sent earlier ([inl]), or the function goes on to the login attempt
    with the verdict of [check_client_auth] and the password ([inr]). *)
Definition api_auth_before_login (env : auth_env) (cfg : auth_config)
  (now : Z) (api : ftl_conn) (st : state)
  : (Z * body * state) + (Z * option string * state) :=
  let empty_password := bool_decide (pwhash cfg = "") in
  if match item api with
     | Some it => (0 <? String.length it)%nat
     | None => false
     end
  then inl (0, No_body, st)                   (* sub-paths are not allowed *)
  else
    let '(uid, st1) := check_client_auth cfg now api false st in
    let after_post (password0 : option string) :=
      let password :=
        if no_password password0 then basic_auth env api else password0 in
      if negb (bool_decide (uid = API_AUTH_UNAUTHORIZED)) &&
         no_password password
      then inl (send_api_auth_status cfg api uid now st1)
      else if bool_decide (method api = HTTP_DELETE) then
        inl (send_api_auth_status cfg api uid now
               (log_debug cfg "API Auth: User with ID %i wants to log out"
                          [A_int uid] st1))
      else if negb (non_null password) && negb empty_password then
        inl (send_api_auth_status cfg api uid now st1)
      else inr (uid, password, st1)
    in
    if bool_decide (method api = HTTP_POST) then
      match payload_json api with
      | None =>
        match payload_json_error api with
        | None =>
          inl (send_json_error 400 "bad_request" "No request body data"
                               None st1)
        | Some e =>
          inl (send_json_error 400 "bad_request"
                 "Invalid request body data (no valid JSON), error before hint"
                 (Some e) st1)
        end
      | Some j =>
        match j_password j with
        | None =>
          let message := "No password found in JSON payload" in
          inl (send_json_error 400 "bad_request" message None
                 (log_debug cfg "API auth error: %s" [A_str message] st1))
        | Some (JString valuestring) => after_post (Some valuestring)
        | Some _ =>
          let message := "Field password has to be of type 'string'" in
          inl (send_json_error 400 "bad_request" message None
                 (log_debug cfg "API auth error: %s" [A_str message] st1))
        end
      end
    else after_post None.

(** [api_auth(api)] at time [now]; [fresh_sid] and [fresh_csrf] are what
    the random source yields should a session be issued. *)
Definition api_auth (env : auth_env) (cfg : auth_config) (now : Z)
  (fresh_sid fresh_csrf : option string) (api : ftl_conn) (st : state)
  : Z * body * state :=
  match api_auth_before_login env cfg now api st with
  | inl answer => answer
  | inr (uid, password, st1) =>
    api_auth_login env cfg now fresh_sid fresh_csrf api uid password st1
  end.

(** ** The session list, and deleting sessions *)

(** An object of the array "sessions" that [get_all_sessions] builds. *)
Record session_json := mkSessionJson {
  sj_id : Z;
  sj_current_session : bool;
  sj_valid : bool;
  sj_tls_login : bool;
  sj_tls_mixed : bool;
  sj_login_at : Z;
  sj_last_active : Z;
  sj_valid_until : Z;
  sj_remote_addr : string;
  sj_user_agent : string;
  sj_app : bool
}.

(** [for(int i = 0; i < API_MAX_CLIENTS; i++)] of [get_all_sessions],
    from slot [i] on. *)
Fixpoint get_all_sessions_loop (cfg : auth_config) (now : Z) (uid : Z)
  (i : nat) (slots : list session) : list session_json :=
  match slots with
  | [] => []
  | s :: rest =>
    if negb (used s) then
      get_all_sessions_loop cfg now uid (S i) rest            (* continue *)
    else
      mkSessionJson (Z.of_nat i)
                    (bool_decide (Z.of_nat i = uid))
                    (valid_until s >=? now)
                    (tls_login s) (tls_mixed s)
                    (login_at s)
                    (valid_until s - session_timeout cfg)
                    (valid_until s)
                    (remote_addr s) (user_agent s) (app s)
      :: get_all_sessions_loop cfg now uid (S i) rest
  end.

(** [get_all_sessions(api, json)] at time [now]. *)
Definition get_all_sessions (cfg : auth_config) (now : Z) (st : state)
  : list session_json :=
  get_all_sessions_loop cfg now (user_id st) 0 (auth_data st).

(** [api_auth_sessions(api)]: the object is sent with code 200. *)
Definition api_auth_sessions (cfg : auth_config) (now : Z) (st : state)
  : Z * list session_json :=
  (200, get_all_sessions cfg now st).

(** [delete_all_sessions()]: "Zero out all sessions without looping". *)
Definition delete_all_sessions (st : state) : state :=
  set_auth_data (replicate (length (auth_data st)) zero_session) st.

(** [api_auth_session_delete(api)]; [scanned] is the number
    [sscanf(api->item, "%i", &uid)] reads, [None] when it reads none. *)
Definition api_auth_session_delete (scanned : option Z) (st : state)
  : Z * body * state :=
  match scanned with
  | None =>
    send_json_error 400 "bad_request" "Missing or invalid session ID" None st
  | Some uid =>
    if (uid <=? API_AUTH_UNAUTHORIZED) ||
       (uid >=? Z.of_nat (length (auth_data st)))
    then send_json_error 400 "bad_request" "Session ID out of bounds" None st
    else if negb (default false (used <$> lookupZ (auth_data st) uid))
    then send_json_error 400 "bad_request" "Session ID not in use" None st
    else (204, No_body, delete_session uid st)
  end.

End Auth.

(* ===================================================================== *)
(** * api/queries.c *)
(* ===================================================================== *)

Module Queries.

(** ** The database, as [api_queries] sees it *)

(** A row of the queries table: its id (column 0, [sqlite3_int64]) and
    the other columns of QUERYSTR as text, NULL columns as [None]. *)
Record row := mkRow {
  r_id : Z;
  r_columns : list (option string)
}.

(** A filter clause added to the query string. *)
Inductive clause :=
| Where_from (v : string)            (* timestamp>= *)
| Where_until (v : string)           (* timestamp< *)
| Where_domain | Where_upstream | Where_client
| Where_type | Where_status | Where_reply | Where_dnssec.

#[global] Instance clause_eq_dec : EqDecision clause.
Proof. solve_decision. Defined.

(** The prepared statement: the table and the clauses, in the order in
    which they were added (the first with WHERE, the others with AND),
    ordered by id, descending. *)
Record statement := mkStatement {
  from_disk : bool;
  clauses : list clause
}.

(** A value bound to a named parameter of the statement. *)
Inductive binding :=
| Bind_text (name : string) (v : string)
| Bind_int (name : string) (v : Z).

(** What the database answers: the counts of [db_counts], whether the
    disk database can be attached and detached, whether the statement can
    be prepared and a parameter bound, and the rows [sqlite3_step] yields
    for a statement and its bindings until it returns something else than
    SQLITE_ROW. *)
Record database := mkDatabase {
  largest_db_index : Z;                (* unsigned long *)
  mem_dbnum : Z;
  disk_dbnum : Z;
  attach_ok : bool;
  detach_ok : bool;
  prepare_ok : bool;
  bind_ok : string -> bool;
  db_errstr : string;                  (* the message of a failure *)
  rows_of : statement -> list binding -> list row
}.

(** The names of the members of the four enumerations, in the order of
    their codes ([get_query_type_str] and the like, which are defined in
    another translation unit). *)
Record enum_names := mkEnumNames {
  type_names : list string;
  status_names : list string;
  reply_names : list string;
  dnssec_names : list string
}.

(** ** The request *)

(** The outcome of [get_ulong_var_msg] for "cursor": no such parameter, a
    number, or a parameter that is no number, with the message saying
    why. *)
Inductive cursor_param :=
| Cursor_absent
| Cursor_value (unum : Z)
| Cursor_invalid (msg : string).

(** The parameters of the query string, as the getters of the web server
    find them: [None] when the getter leaves its destination alone. *)
Record params := mkParams {
  p_disk : option bool;
  p_from : option string;
  p_until : option string;
  p_domain : option string;
  p_upstream : option string;
  p_client : option string;
  p_draw : option Z;                   (* int *)
  p_length : option Z;                 (* int *)
  p_start : option Z;                  (* unsigned int *)
  p_cursor : cursor_param;
  p_type : option string;
  p_status : option string;
  p_reply : option string;
  p_dnssec : option string
}.

(** ** The answer *)

Inductive response :=
| Json_error (code : Z) (key message : string) (hint : option string)
| Json_unauthorized
| Json_minimal                         (* {"queries":[], "cursor": null} *)
| Json_queries (queries : list row) (cursor : Z)
               (recordsTotal recordsFiltered draw : Z).

(** ** Strings *)

Definition to_lower (c : ascii) : ascii :=
  let n := nat_of_ascii c in
  if ((65 <=? n) && (n <=? 90))%nat then ascii_of_nat (n + 32) else c.

Fixpoint lower (s : string) : string :=
  match s with
  | EmptyString => EmptyString
  | String c rest => String (to_lower c) (lower rest)
  end.

(** [strcasecmp(a, b) == 0]. *)
Definition strcasecmp_eq (a b : string) : bool :=
  bool_decide (lower a = lower b).

(** The loop that looks a name up in an enumeration: the first code whose
    name is the given one, or none (the loop variable reaches the
    maximum). *)
Fixpoint find_enum (names : list string) (name : string) (code : nat)
  : option nat :=
  match names with
  | [] => None
  | n :: rest =>
    if strcasecmp_eq name n then Some code
    else find_enum rest name (S code)
  end.

Definition is_space (c : ascii) : bool :=
  let n := nat_of_ascii c in
  ((n =? 32) || ((9 <=? n) && (n <=? 13)))%nat.

Fixpoint skip_spaces (s : string) : string :=
  match s with
  | String c rest => if is_space c then skip_spaces rest else s
  | EmptyString => EmptyString
  end.

Fixpoint take_word (n : nat) (s : string) : string :=
  match n, s with
  | S n', String c rest =>
    if is_space c then EmptyString else String c (take_word n' rest)
  | _, _ => EmptyString
  end.

(** [sscanf(buffer, "%<n>s", dst)] into a zeroed destination. *)
Definition sscanf_word (n : nat) (buffer : string) : string :=
  take_word n (skip_spaces buffer).

(** ** The cursor *)

(** Lines 311 to 336: the cursor to use and whether it was set by the
    request, or the message of the answer that rejects the request. *)
Definition check_cursor (largest : Z) (c : cursor_param)
  : (Z * bool) + string :=
  match c with
  | Cursor_absent => inl (largest, false)
  | Cursor_value unum =>
    if unum <=? largest then inl (unum, true)
    else inr "Cursor larger than largest database index"
  | Cursor_invalid msg => inr msg
  end.

(** ** The loop over the rows *)

Record loop_state := mkLoop {
  added : Z;                           (* unsigned int *)
  records : Z;                         (* unsigned int *)
  firstID : Z;                         (* sqlite3_int64 *)
  out : list row                       (* the array "queries" *)
}.

Definition loop_init : loop_state := mkLoop 0 0 (-1) [].

(** One [SQLITE_ROW]. *)
Definition loop_step (cursor start length : Z) (ls : loop_state) (r : row)
  : loop_state :=
  let id := r_id r in
  let firstID' := if firstID ls =? -1 then id else firstID ls in
  let records' := to_uint (records ls + 1) in
  if to_ulong id >? cursor then
    mkLoop (added ls) records' firstID' (out ls)
  else if (start >? 0) && (start >=? records') then
    mkLoop (added ls) records' firstID' (out ls)
  else if (length >? 0) && (added ls >=? to_uint length) then
    mkLoop (added ls) records' firstID' (out ls)
  else
    mkLoop (to_uint (added ls + 1)) records' firstID' (out ls ++ [r]).

Definition run_loop (cursor start length : Z) (rows : list row)
  : loop_state :=
  fold_left (loop_step cursor start length) rows loop_init.

(** ** [api_queries] *)

Definition add_clause (c : clause) (present : bool) (l : list clause)
  : list clause :=
  if present then l ++ [c] else l.

Definition add_from (v : option string) (l : list clause) : list clause :=
  match v with Some x => l ++ [Where_from x] | None => l end.

Definition add_until (v : option string) (l : list clause) : list clause :=
  match v with Some x => l ++ [Where_until x] | None => l end.

(** The clauses, in the order in which [api_queries] adds them. *)
Definition build_clauses (p : params) : list clause :=
  add_clause Where_dnssec (non_null (p_dnssec p))
  (add_clause Where_reply (non_null (p_reply p))
  (add_clause Where_status (non_null (p_status p))
  (add_clause Where_type (non_null (p_type p))
  (add_clause Where_client (non_null (p_client p))
  (add_clause Where_upstream (non_null (p_upstream p))
  (add_clause Where_domain (non_null (p_domain p))
  (add_until (p_until p) (add_from (p_from p) [])))))))).

(** Binding a text parameter, when the statement has it. *)
Definition bind_text (db : database) (name : string) (v : option string)
  (bs : list binding) : (list binding) + response :=
  match v with
  | None => inl bs
  | Some x =>
    if bind_ok db name then inl (bs ++ [Bind_text name (sscanf_word 255 x)])
    else inr (Json_error 500 "internal_error"
                ("Internal server error, failed to bind " +:+ name
                 +:+ " to SQL query") (Some (db_errstr db)))
  end.

(** Binding the code of an enumeration member, when the statement has the
    parameter: an unknown name is a bad request. *)
Definition bind_enum (db : database) (name : string) (names : list string)
  (v : option string) (bs : list binding) : (list binding) + response :=
  match v with
  | None => inl bs
  | Some x =>
    let word := sscanf_word 31 x in
    match find_enum names word 0 with
    | Some code =>
      if bind_ok db name
      then inl (bs ++ [Bind_int name (Z.of_nat code)])
      else inr (Json_error 500 "internal_error"
                  ("Internal server error, failed to bind " +:+ name
                   +:+ " to SQL query") (Some (db_errstr db)))
    | None =>
      inr (Json_error 400 "bad_request"
             ("Requested " +:+ name +:+ " is invalid") (Some word))
    end
  end.

Definition bind_all (db : database) (en : enum_names) (p : params)
  : (list binding) + response :=
  match bind_text db "domain" (p_domain p) [] with
  | inr e => inr e
  | inl b1 =>
  match bind_text db "client" (p_client p) b1 with
  | inr e => inr e
  | inl b2 =>
  match bind_text db "upstream" (p_upstream p) b2 with
  | inr e => inr e
  | inl b3 =>
  match bind_enum db "type" (type_names en) (p_type p) b3 with
  | inr e => inr e
  | inl b4 =>
  match bind_enum db "status" (status_names en) (p_status p) b4 with
  | inr e => inr e
  | inl b5 =>
  match bind_enum db "reply" (reply_names en) (p_reply p) b5 with
  | inr e => inr e
  | inl b6 => bind_enum db "dnssec" (dnssec_names en) (p_dnssec p) b6
  end end end end end end.

(** [api_queries(api)].  [privacy_maximum] is
    [config.misc.privacylevel >= PRIVACY_MAXIMUM], [authorized] is
    [check_client_auth(api) != API_AUTH_UNAUTHORIZED], [query_string] is
    [None] for a request without query string. *)
Definition api_queries (db : database) (en : enum_names)
  (privacy_maximum authorized : bool) (query_string : option params)
  : response :=
  if privacy_maximum then Json_minimal
  else if negb authorized then Json_unauthorized
  else
    let disk :=
      match query_string with
      | Some p => default false (p_disk p)
      | None => false
      end in
    let draw := default 0 (query_string ≫= p_draw) in
    let length := default 100 (query_string ≫= p_length) in
    let start := default 0 (query_string ≫= p_start) in
    match check_cursor (largest_db_index db)
            (match query_string with
             | Some p => p_cursor p
             | None => Cursor_absent
             end) with
    | inr msg =>
      Json_error 400 "bad_request" "Requested cursor is invalid" (Some msg)
    | inl (cursor, cursor_set) =>
      let stmt :=
        mkStatement disk
          (match query_string with
           | Some p => build_clauses p
           | None => []
           end) in
      if disk && negb (attach_ok db) then
        Json_error 500 "internal_error"
          "Internal server error, cannot attach disk database"
          (Some (db_errstr db))
      else if negb (prepare_ok db) then
        Json_error 500 "internal_error"
          "Internal server error, failed to prepare SQL query"
          (Some (db_errstr db))
      else
        match (match query_string with
               | Some p => bind_all db en p
               | None => inl []
               end) with
        | inr e => e
        | inl bindings =>
          let ls := run_loop cursor start length (rows_of db stmt bindings) in
          if disk && negb (detach_ok db) then
            Json_error 500 "internal_error"
              "Internal server error, cannot detach disk database"
              (Some (db_errstr db))
          else
            Json_queries (out ls)
                         (if cursor_set then cursor else firstID ls)
                         (if disk then disk_dbnum db else mem_dbnum db)
                         (records ls) draw
        end
    end.

(** ** Suggestions *)

(** The in-memory database, as [add_strings_to_array] sees it: whether
    there is one, the message of a statement that cannot be prepared, the
    text of column 0 of the rows [sqlite3_step] yields for a statement,
    and the message of the code that ends them when it is not
    SQLITE_DONE. *)
Record memdb := mkMemdb {
  memdb_ok : bool;                              (* get_memdb() != NULL *)
  prepare_err : string -> option string;
  step_rows : string -> list string;
  step_err : string -> option string
}.

(** The [while] loop of [add_strings_to_array]: the array, and whether the
    loop ended on a row ([rc == SQLITE_ROW], the limit was reached). *)
Fixpoint add_strings_loop (max_count counter : Z) (rows : list string)
  (array : list string) : list string * bool :=
  match rows with
  | [] => (array, false)
  | r :: rest =>
    if max_count <? 0 then
      add_strings_loop max_count counter rest (array ++ [r])
    else if counter + 1 <? max_count then
      add_strings_loop max_count (counter + 1) rest (array ++ [r])
    else (array, true)
  end.

(** [add_strings_to_array(api, array, querystr, max_count)]: the array
    with the strings added, or the answer that reports the failure. *)
Definition add_strings_to_array (db : memdb) (array : list string)
  (querystr : string) (max_count : Z) : (list string) + response :=
  if negb (memdb_ok db) then
    inr (Json_error 500 "database_error"
           "Could not read from in-memory database" None)
  else
    match prepare_err db querystr with
    | Some e =>
      inr (Json_error 500 "database_error"
             "Could not prepare in-memory database" (Some e))
    | None =>
      let r := add_strings_loop max_count 0 (step_rows db querystr) array in
      if r.2 then inl r.1
      else
        match step_err db querystr with
        | Some e =>
          inr (Json_error 500 "database_error"
                 "Could not step in-memory database" (Some e))
        | None => inl r.1
        end
    end.

(** The object "suggestions". *)
Record suggestions := mkSuggestions {
  s_domain : list string;
  s_client : list string;
  s_upstream : list string;
  s_type : list string;
  s_status : list string;
  s_reply : list string;
  s_dnssec : list string
}.

(** [api_queries_suggestions(api)]; [count_var] is the parameter "count"
    of the query string, [None] when [get_int_var] leaves its destination
    alone.  The division is the division of [int], which truncates.
    Messages written to the log are left out. *)
Definition api_queries_suggestions (db : memdb) (en : enum_names)
  (authorized : bool) (count_var : option Z) : suggestions + response :=
  if negb authorized then inr Json_unauthorized
  else
    let count := default 10 count_var in
    match add_strings_to_array db [] "SELECT domain FROM domain_by_id" count
    with
    | inr e => inr e
    | inl domain =>
    match add_strings_to_array db []
            "SELECT DISTINCT(ip) FROM client_by_id" (Z.quot count 2) with
    | inr e => inr e
    | inl client1 =>
    match add_strings_to_array db client1
            "SELECT DISTINCT(name) FROM client_by_id" (Z.quot count 2) with
    | inr e => inr e
    | inl client =>
    match add_strings_to_array db [] "SELECT forward FROM forward_by_id" count
    with
    | inr e => inr e
    | inl upstream =>
      inl (mkSuggestions domain client upstream (type_names en)
                         (status_names en) (reply_names en) (dnssec_names en))
    end end end end.

End Queries.

(* ===================================================================== *)
(** * parser.c *)
(* ===================================================================== *)

Module Parser.

(** ** Data *)

(** The counters parser.c works with. *)
Record countersStruct := mkCounters {
  c_queries : Z;
  c_unknown : Z;
  c_blocked : Z;
  c_cached : Z;
  c_wildcardblocked : Z;
  c_IPv4 : Z;
  c_IPv6 : Z;
  c_PTR : Z;
  c_SRV : Z;
  c_domains : Z;
  c_clients : Z;
  c_forwarded : Z;
  c_overtime : Z
}.

Record queriesDataStruct := mkQueryData {
  q_timestamp : Z;
  q_type : Z;                          (* unsigned char *)
  q_status : Z;                        (* unsigned char *)
  q_domainID : Z;
  q_clientID : Z
}.

Record domainsDataStruct := mkDomainData {
  d_domain : string;
  d_count : Z;
  d_blockedcount : Z
}.

Record clientsDataStruct := mkClientData {
  cl_ip : string;
  cl_name : string;
  cl_count : Z
}.

Record forwardedDataStruct := mkForwardData {
  f_ip : string;
  f_name : string;
  f_count : Z
}.

Record overTimeDataStruct := mkOverTimeData {
  ot_total : Z;
  ot_blocked : Z
}.

(** The global data of the engine.  The arrays grow on demand
    ([memory_check]), so they are lists that a write one past the end
    extends. *)
Record ftl := mkFtl {
  counters : countersStruct;
  queries : list queriesDataStruct;
  domains : list domainsDataStruct;
  clients : list clientsDataStruct;
  forwarded : list forwardedDataStruct;
  overTime : list overTimeDataStruct   (* 600 slots *)
}.

(** [a[n] = x] after [memory_check] has made room for slot [n]. *)
Definition store {A : Type} (dflt : A) (n : nat) (x : A) (a : list A)
  : list A :=
  if (n <? length a)%nat then <[n := x]> a
  else a ++ replicate (n - length a) dflt ++ [x].

(** What the C library answers: the hour and the minute [strptime] reads
    from the 15 characters of a time stamp, the seconds [mktime] makes of
    it, and the host name of an address ([gethostbyaddr]), if any. *)
Record libc := mkLibc {
  strptime_hour_min : string -> Z * Z;
  mktime : string -> Z;
  gethostbyaddr : string -> option string
}.

(** ** Strings *)

(** [strstr(haystack, needle) != NULL]. *)
Definition contains (haystack needle : string) : bool :=
  non_null (String.index 0 needle haystack).

Definition newline : string := String (ascii_of_nat 10) EmptyString.

(** ** A query line *)

(** "Try to find either a matching ... in the following up to 200 lines":
    the status the first matching line gives, 0 when there is none.  The
    file is taken not to grow while it is read, so that reading again
    after the end of the file finds what the first reading found. *)
Fixpoint find_status (domain : string) (following : list string) : Z :=
  match following with
  | [] => 0
  | readbuffer2 :: rest =>
    if contains readbuffer2 domain then
      if contains readbuffer2 "gravity.list " then 1
      else if contains readbuffer2 "forwarded " then 2
      else if contains readbuffer2 "cached " ||
              contains readbuffer2 "local.list" ||
              contains readbuffer2 "hostname.list" ||
              contains readbuffer2 "/etc/hosts" then 3
      else if contains readbuffer2 "config " then 4
      else find_status domain rest
    else find_status domain rest
  end.

(** "Go through already known domains": the index of the first of the
    [n] known entries with the given name. *)
Fixpoint find_index {A : Type} (name_of : A -> string) (name : string)
  (n : nat) (i : nat) (a : list A) : option nat :=
  match n, a with
  | S n', x :: rest =>
    if bool_decide (name_of x = name) then Some i
    else find_index name_of name n' (S i) rest
  | _, _ => None
  end.

Definition set_counters (c : countersStruct) (m : ftl) : ftl :=
  mkFtl c (queries m) (domains m) (clients m) (forwarded m) (overTime m).

Definition bump_domain_count (d : domainsDataStruct) : domainsDataStruct :=
  mkDomainData (d_domain d) (d_count d + 1) (d_blockedcount d).

Definition bump_domain_blocked (d : domainsDataStruct) : domainsDataStruct :=
  mkDomainData (d_domain d) (d_count d) (d_blockedcount d + 1).

Definition bump_client_count (c : clientsDataStruct) : clientsDataStruct :=
  mkClientData (cl_ip c) (cl_name c) (cl_count c + 1).

Definition bump_forward_count (f : forwardedDataStruct)
  : forwardedDataStruct :=
  mkForwardData (f_ip f) (f_name f) (f_count f + 1).

Definition bump_total (o : overTimeDataStruct) : overTimeDataStruct :=
  mkOverTimeData (ot_total o + 1) (ot_blocked o).

Definition bump_blocked (o : overTimeDataStruct) : overTimeDataStruct :=
  mkOverTimeData (ot_total o) (ot_blocked o + 1).

(** The parts of a query line: domain and client, or nothing for a
    malformed line, which is skipped. *)
Definition split_query_line (readbuffer : string) : option (string * string) :=
  match String.index 0 "] " readbuffer with
  | None => None                               (* domain start missing *)
  | Some domainstart =>
    match String.index (domainstart + 2) " from" readbuffer with
    | None => None                             (* domain end missing *)
    | Some domainend =>
      match String.index (domainend + 6) newline readbuffer with
      | None => None                           (* client end missing *)
      | Some clientend =>
        Some (String.substring (domainstart + 2)
                               (domainend - (domainstart + 2)) readbuffer,
              String.substring (domainend + 6)
                               (clientend - domainend - 6) readbuffer)
      end
    end
  end.

(** The branch of [process_pihole_log] for a line with "]: query[A";
    [following] are the lines after it. *)
Definition process_query_line (lc : libc) (readbuffer : string)
  (following : list string) (m : ftl) : ftl :=
  let timestamp := String.substring 0 15 readbuffer in
  let '(tm_hour, tm_min) := strptime_hour_min lc timestamp in
  let timeidx := Z.quot (tm_min - Z.rem tm_min 10) 10 + 6 * tm_hour in
  let c0 := counters m in
  let overtime' := if timeidx >? c_overtime c0 then timeidx else c_overtime c0 in
  let m0 :=
    set_counters
      (mkCounters (c_queries c0) (c_unknown c0) (c_blocked c0) (c_cached c0)
                  (c_wildcardblocked c0) (c_IPv4 c0) (c_IPv6 c0) (c_PTR c0)
                  (c_SRV c0) (c_domains c0) (c_clients c0) (c_forwarded c0)
                  overtime') m in
  match split_query_line readbuffer with
  | None => m0                                 (* skip this line *)
  | Some (domain, client) =>
    (* type *)
    let type :=
      if contains readbuffer "query[A]" then 1
      else if contains readbuffer "query[AAAA]" then 2 else 0 in
    let IPv4' := if type =? 1 then c_IPv4 c0 + 1 else c_IPv4 c0 in
    let IPv6' := if type =? 2 then c_IPv6 c0 + 1 else c_IPv6 c0 in
    (* status *)
    let status := find_status domain (take 200 following) in
    (* domain *)
    let '(domainID, domains1, ndomains) :=
      match find_index d_domain domain (Z.to_nat (c_domains c0)) 0
                       (domains m) with
      | Some i => (i, alter bump_domain_count i (domains m), c_domains c0)
      | None =>
        (Z.to_nat (c_domains c0),
         store (mkDomainData "" 0 0) (Z.to_nat (c_domains c0))
               (mkDomainData domain 1 0) (domains m),
         c_domains c0 + 1)
      end in
    (* client *)
    let '(clientID, clients1, nclients) :=
      match find_index cl_ip client (Z.to_nat (c_clients c0)) 0
                       (clients m) with
      | Some i => (i, alter bump_client_count i (clients m), c_clients c0)
      | None =>
        (Z.to_nat (c_clients c0),
         store (mkClientData "" "" 0) (Z.to_nat (c_clients c0))
               (mkClientData client (default "" (gethostbyaddr lc client)) 1)
               (clients m),
         c_clients c0 + 1)
      end in
    (* save everything *)
    let queries1 :=
      store (mkQueryData 0 0 0 0 0) (Z.to_nat (c_queries c0))
            (mkQueryData (mktime lc timestamp) type status
                         (Z.of_nat domainID) (Z.of_nat clientID))
            (queries m) in
    let overTime1 := alter bump_total (Z.to_nat timeidx) (overTime m) in
    (* decide what to increment depending on status *)
    let unknown' := if status =? 0 then c_unknown c0 + 1 else c_unknown c0 in
    let blocked' := if status =? 1 then c_blocked c0 + 1 else c_blocked c0 in
    let cached' := if status =? 3 then c_cached c0 + 1 else c_cached c0 in
    let wildcard' :=
      if status =? 4 then c_wildcardblocked c0 + 1
      else c_wildcardblocked c0 in
    let overTime2 :=
      if (status =? 1) || (status =? 4)
      then alter bump_blocked (Z.to_nat timeidx) overTime1 else overTime1 in
    let domains2 :=
      if status =? 1 then alter bump_domain_blocked domainID domains1
      else domains1 in
    mkFtl (mkCounters (c_queries c0 + 1) unknown' blocked' cached' wildcard'
                      IPv4' IPv6' (c_PTR c0) (c_SRV c0) ndomains nclients
                      (c_forwarded c0) overtime')
          queries1 domains2 clients1 (forwarded m) overTime2
  end.

(** ** A "forwarded" line *)

Definition process_forwarded_line (lc : libc) (readbuffer : string) (m : ftl)
  : ftl :=
  match String.index 0 " to " readbuffer with
  | None => m                                  (* forward start missing *)
  | Some forwardstart =>
    match String.index (forwardstart + 4) newline readbuffer with
    | None => m                                (* forward end missing *)
    | Some forwardend =>
      let forward :=
        String.substring (forwardstart + 4)
                         (forwardend - (forwardstart + 4)) readbuffer in
      let c0 := counters m in
      match find_index f_ip forward (Z.to_nat (c_forwarded c0)) 0
                       (forwarded m) with
      | Some i =>
        mkFtl c0 (queries m) (domains m) (clients m)
              (alter bump_forward_count i (forwarded m)) (overTime m)
      | None =>
        mkFtl (mkCounters (c_queries c0) (c_unknown c0) (c_blocked c0)
                          (c_cached c0) (c_wildcardblocked c0) (c_IPv4 c0)
                          (c_IPv6 c0) (c_PTR c0) (c_SRV c0) (c_domains c0)
                          (c_clients c0) (c_forwarded c0 + 1) (c_overtime c0))
              (queries m) (domains m) (clients m)
              (store (mkForwardData "" "" 0) (Z.to_nat (c_forwarded c0))
                     (mkForwardData forward
                        (default "" (gethostbyaddr lc forward)) 1)
                     (forwarded m))
              (overTime m)
      end
    end
  end.

(** ** [process_pihole_log] *)

(** One turn of the loop, for the line read and those that follow it.
    [read_gravity_files], called when dnsmasq has restarted, counts the
    entries of the gravity files and leaves this data alone.  Messages
    written to the log are left out. *)
Definition process_line (lc : libc) (initialscan : bool)
  (readbuffer : string) (following : list string) (m : ftl) : ftl :=
  if contains readbuffer "]: query[A" then
    process_query_line lc readbuffer following m
  else if contains readbuffer ": forwarded" then
    process_forwarded_line lc readbuffer m
  else if contains readbuffer "IPv6" && contains readbuffer "DBus" &&
          contains readbuffer "i18n" && contains readbuffer "DHCP" &&
          negb initialscan then
    m
  else
    let c0 := counters m in
    if contains readbuffer "query[PTR]" then
      set_counters
        (mkCounters (c_queries c0) (c_unknown c0) (c_blocked c0) (c_cached c0)
                    (c_wildcardblocked c0) (c_IPv4 c0) (c_IPv6 c0)
                    (c_PTR c0 + 1) (c_SRV c0) (c_domains c0) (c_clients c0)
                    (c_forwarded c0) (c_overtime c0)) m
    else if contains readbuffer "query[SRV]" then
      set_counters
        (mkCounters (c_queries c0) (c_unknown c0) (c_blocked c0) (c_cached c0)
                    (c_wildcardblocked c0) (c_IPv4 c0) (c_IPv6 c0)
                    (c_PTR c0) (c_SRV c0 + 1) (c_domains c0) (c_clients c0)
                    (c_forwarded c0) (c_overtime c0)) m
    else m.

(** "Read pihole log from current position until EOF line by line":
    [lines] are the lines of the file from the current position on, each
    with its newline and shorter than the read buffers. *)
Fixpoint process_pihole_log (lc : libc) (initialscan : bool)
  (lines : list string) (m : ftl) : ftl :=
  match lines with
  | [] => m
  | readbuffer :: following =>
    process_pihole_log lc initialscan following
      (process_line lc initialscan readbuffer following m)
  end.

(** The data after [pihole_log_flushed] (and at start): no entries, all
    counters zero, 600 empty overTime slots. *)
Definition flushed : ftl :=
  mkFtl (mkCounters 0 0 0 0 0 0 0 0 0 0 0 0 0) [] [] [] []
        (replicate 600 (mkOverTimeData 0 0)).

End Parser.

(* ===================================================================== *)
(** * config/config.c *)
(* ===================================================================== *)

Module Config.

Section config_paths.

(** The macro of config.h (which is not among the sources) that bounds
    the depth of a configuration path; it is positive. *)
Variable MAX_CONFIG_PATH_DEPTH : nat.

(** A path is an array of [MAX_CONFIG_PATH_DEPTH] pointers to strings,
    [None] being the NULL pointer: a [list (option string)]. *)

(** [paths[i]] for an index within the array. *)
Definition path_elem (paths : list (option string)) (i : nat)
  : option string :=
  default None (paths !! i).

(** The loops of [gen_config_path] with [path] the rest of the string:
    [elem] holds the characters between [saveptr] and [path], [pathlen]
    is the number of elements stored so far. *)
Fixpoint gen_config_path_loop (delim : ascii) (path elem : string)
  (pathlen : nat) (paths : list (option string)) : list (option string) :=
  match path with
  | EmptyString =>
    <[pathlen := Some elem]> paths                 (* end of string: break *)
  | String c rest =>
    if bool_decide (c = delim) then
      let paths' := <[pathlen := Some elem]> paths in
      if (MAX_CONFIG_PATH_DEPTH - 1 <? S pathlen)%nat then
        paths'                                     (* this path is too deep *)
      else
        match rest with
        | EmptyString => paths'                    (* the string ends here *)
        | String _ _ => gen_config_path_loop delim rest "" (S pathlen) paths'
        end
    else
      gen_config_path_loop delim rest (elem +:+ String c "") pathlen paths
  end.

(** [gen_config_path(pathin, delim)]; the message written for a NULL
    pointer is left out. *)
Definition gen_config_path (pathin : option string) (delim : ascii)
  : list (option string) :=
  let paths := replicate MAX_CONFIG_PATH_DEPTH None in
  match pathin with
  | None => paths
  | Some EmptyString => paths
  | Some path => gen_config_path_loop delim path "" 0 paths
  end.

(** The loop of [check_paths_equal], [ids] being the values [i] still
    has to take. *)
Fixpoint check_paths_loop (paths1 paths2 : list (option string))
  (max_level : nat)
  (ids : list nat) : bool :=
  match ids with
  | [] => true
  | i :: rest =>
    if (0 <? i)%nat && negb (non_null (path_elem paths1 i))
                    && negb (non_null (path_elem paths2 i))
    then true
    else if (max_level <? i)%nat then true
    else
      match path_elem paths1 i, path_elem paths2 i with
      | Some a, Some b =>
        if bool_decide (a = b)
        then check_paths_loop paths1 paths2 max_level rest
        else false
      | _, _ => false
      end
  end.

(** [check_paths_equal(paths1, paths2, max_level)]; [None] is a NULL
    array. *)
Definition check_paths_equal (paths1 paths2 : option (list (option string)))
  (max_level : nat) : bool :=
  match paths1, paths2 with
  | Some p1, Some p2 =>
    check_paths_loop p1 p2 max_level (seq 0 MAX_CONFIG_PATH_DEPTH)
  | _, _ => false
  end.

(** The loop of [config_path_depth]. *)
Fixpoint config_path_depth_loop (paths : list (option string))
  (ids : list nat) : nat :=
  match ids with
  | [] => MAX_CONFIG_PATH_DEPTH
  | i :: rest =>
    if non_null (path_elem paths i) then config_path_depth_loop paths rest
    else i
  end.

Definition config_path_depth (paths : list (option string)) : nat :=
  config_path_depth_loop paths (seq 0 MAX_CONFIG_PATH_DEPTH).

End config_paths.

End Config.

(* ===================================================================== *)
(** * webserver/webserver.c *)
(* ===================================================================== *)

Module Webserver.

(** The configuration items [redirect_root_handler] reads. *)
Record web_config := mkWebConfig {
  domain : string;               (* config.webserver.domain.v.s *)
  webhome : string;              (* config.webserver.paths.webhome.v.s *)
  debug_api : bool               (* config.debug.api.v.b *)
}.

Inductive web_log :=
| Host_format_error                    (* "Found '[' without ']'" *)
| Debug_host (host : option string) (extracted : string)
| Debug_uri (uri : string).

(** What the handler sends. *)
Inductive web_answer :=
| No_answer
| Http_redirect (target : string) (code : Z).

(** [strncmp(a, b, n) == 0]: the strings agree on their first [n]
    characters, the end of a string included. *)
Definition strncmp_eq (a b : string) (n : nat) : bool :=
  bool_decide (String.substring 0 n a = String.substring 0 n b).

(** The length of the host name in a "Host" header, [None] for a header
    that starts with '[' and has no ']'. *)
Definition host_length (host : string) : option nat :=
  match host with
  | String "[" _ =>
    match String.index 0 "]" host with
    | None => None
    | Some pos => Some (pos + 1)%nat
    end
  | _ =>
    match String.index 0 ":" host with
    | Some pos => Some pos
    | None => Some (String.length host)
    end
  end.

(** [redirect_root_handler(conn, input)]: the value returned (1 when the
    request has been answered), the answer and the log lines.  [host] is
    the header "Host", [uri] is [request->local_uri_raw]. *)
Definition redirect_root_handler (cfg : web_config) (host : option string)
  (uri : string) : Z * web_answer * list web_log :=
  match (match host with
         | Some h => host_length h
         | None => Some 0%nat
         end) with
  | None => (0, No_answer, [Host_format_error])
  | Some host_len =>
    let lg :=
      if debug_api cfg
      then [Debug_host host
              (String.substring 0 host_len (default "" host));
            Debug_uri uri]
      else [] in
    match host with
    | Some h =>
      if strncmp_eq h (domain cfg) host_len && bool_decide (uri = "/")
      then (1, Http_redirect (webhome cfg) 308, lg)
      else (0, No_answer, lg)
    | None => (0, No_answer, lg)
    end
  end.

End Webserver.

(* ===================================================================== *)
(** * Vocabulary of the properties, and scenarios *)
(* ===================================================================== *)

(** ** gc.c *)

Section gc_vocabulary.
Import GC.

(** What [reset_rate_limiting] does to one slot of the clients array. *)
Definition reset_slot (count : Z) (c : clientsData) : clientsData :=
  if c_magic c then (reset_client count c).1 else c.

(** The quotient rounded up, as the specification words it. *)
Definition ceil_div (a b : Z) : Z := (a + b - 1) / b.

(** The turnaround time in the words of the specification:
    [interval * ceil(count/limit) - (now - lastReset)]. *)
Definition turnaround_as_specified (cfg : gc_config)
  (lastCleaner now c : Z) : Z :=
  rateLimit_interval cfg * ceil_div c (rateLimit_count cfg)
  - (now - lastCleaner).

(** Slot [i] holds a query that carries the magic byte. *)
Definition live_slot (qs : list queriesData) (i : nat) : Prop :=
  exists q, qs !! i = Some q /\ q_magic q = true.

(** A rate limit of 5 queries per 60 seconds, a history of 86400 seconds,
    garbage collection every 600 seconds, one minute ahead. *)
Definition cfg_5_per_60 : gc_config := mkGcConfig 5 60 86400 600 (-60).

(** The same with the interval of the rate limit set to zero. *)
Definition cfg_no_interval : gc_config := mkGcConfig 5 0 86400 600 (-60).

(** A memory with one client that has made 3 queries since the reset at
    time 100. *)
Definition shm_one_client : shm :=
  mkShm 0 1 [] [] [] [] [mkClient true 0 3 0 [] 3 false] [] []
        false false 100.

(** A memory with one rate-limited client that has made 7 queries since
    the reset at time 1000. *)
Definition shm_limited_client : shm :=
  mkShm 0 1 [] [] [] [] [mkClient true 0 7 0 [] 7 true] [] []
        false false 1000.

(** An old and a new query, both forwarded, in an array of four slots;
    with a history of 86400 seconds and [now = 100000], [mintime] is
    13200, between the two. *)
Definition gc_query_old : queriesData :=
  mkQuery true 100 0 0 QUERY_FORWARDED 4 1.

Definition gc_query_new : queriesData :=
  mkQuery true 99990 0 0 QUERY_FORWARDED 4 1.

Definition shm_old_and_new : shm :=
  mkShm 2 1
    [0; 0; 2; 0; 0; 0; 0; 0; 0; 0; 0; 0; 0; 0; 0; 0; 0; 0]
    [0; 0; 0; 0; 2] [0; 2]
    [gc_query_old; gc_query_new; zero_query; zero_query]
    [mkClient true 0 2 0 [1; 1] 2 false]
    [mkDomain true 2 0]
    [mkOverTime 0 1 0; mkOverTime 99600 1 0]
    false false 0.

(** Helpers that leave their data alone, for the scenarios. *)
Definition helpers_idle : helpers :=
  mkHelpers (fun _ _ => 0%nat) (fun cs _ _ _ _ _ => cs)
            (fun status ot _ _ => (status, ot)) (fun _ ot cs => (ot, cs)).

(** The condition under which a pass of [GC_thread] resets the counters
    of the rate limit. *)
Definition rate_limit_due (cfg : gc_config) (now : Z) (m : shm) : bool :=
  (rateLimit_interval cfg >? 0) &&
  (to_uint (now - lastRateLimitCleaner m) >=? rateLimit_interval cfg).

(** The queries that are newer than [mintime]. *)
Definition newer_than (mintime : Z) (qs : list queriesData)
  : list queriesData :=
  List.filter (fun q => mintime <? q_timestamp q) qs.

End gc_vocabulary.

(** ** api/auth.c *)

Section auth_vocabulary.
Import Auth.

(** Slot [i] is the first slot the loop of [check_client_auth] takes. *)
Definition first_match (now : Z) (remote sid_req : string)
  (slots : list session) (i : nat) (s : session) : Prop :=
  slots !! i = Some s /\
  slot_matches now remote sid_req s = true /\
  forall j s', (j < i)%nat -> slots !! j = Some s' ->
               slot_matches now remote sid_req s' = false.

(** The gates before the session lookup: the request does not come from a
    loopback address that needs no authentication, and a password is
    configured. *)
Definition needs_session (cfg : auth_config) (api : ftl_conn) : Prop :=
  negb (localAPIauth cfg) && is_local_api_user (req_remote_addr api) = false
  /\ pwhash cfg <> "".

(** The log only grows. *)
Definition log_grows (st st' : state) : Prop := log st `prefix_of` log st'.

(** The line [api_auth] writes about the password it was given. *)
Definition password_line (password : option string) : log_entry :=
  mkLog LOG_INFO ("Password: " +:+ dquote +:+ "%s" +:+ dquote)
        [arg_of password].

(** The POST request that logs in with the JSON body [{password: p}],
    otherwise like [api] (connection, headers, cookie, further items of
    the body). *)
Definition login_request (p : string) (api : ftl_conn) : ftl_conn :=
  mkConn (req_remote_addr api) (is_ssl api) HTTP_POST None
         (payload_avail api) (payload_form_sid api)
         (Some (mkJson
                  (match payload_json api with Some j => j_sid j | None => None end)
                  (Some (JString p))
                  (match payload_json api with Some j => j_totp j | None => None end)))
         (payload_json_error api)
         (hdr_sid api) (hdr_x_ftl_sid api) (hdr_x_csrf_token api)
         (hdr_authorization api) (hdr_user_agent api) (cookie_sid api).

(** A session identifier and a CSRF token, 43 characters each. *)
Definition sid_A : string := "AAAAAAAAAAAAAAAAAAAAAAAAAAAAAAAAAAAAAAAAAAA".
Definition csrf_B : string := "BBBBBBBBBBBBBBBBBBBBBBBBBBBBBBBBBBBBBBBBBBB".

(** A configuration with a password, local clients having to
    authenticate, sessions of 300 seconds, no debug output. *)
Definition cfg_password : auth_config :=
  mkAuthConfig true "$BALLOON-SHA256$hash" "" 300 300 false.

(** A session table with one session, valid until 1300, of the client
    at 192.168.0.2. *)
Definition one_session : state :=
  mkState
    [mkSession true false false false 1000 1300 sid_A csrf_B
               "192.168.0.2" "curl"]
    No_extra_headers [] API_AUTH_UNAUTHORIZED "" false.

(** A GET of that client that presents nothing. *)
Definition request_base : ftl_conn :=
  mkConn "192.168.0.2" false HTTP_GET None false None None None
         None None None None None None.

(** A GET of that client that presents the SID in the header "sid". *)
Definition request_with_header : ftl_conn :=
  mkConn "192.168.0.2" false HTTP_GET None false None None None
         (Some sid_A) None None None None None.

(** A GET of that client that presents the SID by cookie, with the given
    X-CSRF-TOKEN header. *)
Definition request_with_cookie (csrf_hdr : option string) : ftl_conn :=
  mkConn "192.168.0.2" false HTTP_GET None false None None None
         None None csrf_hdr None None (Some sid_A).

(** The request carries [v], as the client sent it, in one of the places
    a session identifier is read from. *)
Definition presents_sid (api : ftl_conn) (v : string) : Prop :=
  payload_form_sid api = Some v \/
  (exists j, payload_json api = Some j /\ j_sid j = Some (JString v)) \/
  hdr_sid api = Some v \/ hdr_x_ftl_sid api = Some v \/
  cookie_sid api = Some v.

(** A GET of that client whose header "sid" holds the SID followed by
    three more characters. *)
Definition request_with_long_sid : ftl_conn :=
  mkConn "192.168.0.2" false HTTP_GET None false None None None
         (Some (sid_A +:+ "XYZ")) None None None None None.

(** A verification that rejects every password. *)
Definition env_reject_all : auth_env :=
  mkAuthEnv (fun _ => PASSWORD_INCORRECT) (fun _ => false) (fun _ => None).

(** A verification that accepts the password "hunter2". *)
Definition env_hunter2 : auth_env :=
  mkAuthEnv (fun p => if bool_decide (p = Some "hunter2")
                      then PASSWORD_CORRECT else PASSWORD_INCORRECT)
            (fun _ => false) (fun _ => None).

(** A slot the login loop takes: not in use, or expired at [now]. *)
Definition free_slot (now : Z) (s : session) : bool :=
  negb (used s) || (valid_until s <? now).

(** Slot [uid] is in use for the address [remote], holds the identifier
    [s] and has been renewed at [now]. *)
Definition renewed_slot (cfg : auth_config) (now : Z) (remote s : string)
  (slots : list session) (uid : Z) : Prop :=
  exists sess,
    lookupZ slots uid = Some sess /\ used sess = true /\ sid sess = s /\
    valid_until sess = now + session_timeout cfg /\
    remote_addr sess = remote.

End auth_vocabulary.

(** ** api/queries.c *)

Section queries_vocabulary.
Import Queries.

(** The statement [api_queries] prepares for a query string. *)
Definition statement_of (p : params) : statement :=
  mkStatement (default false (p_disk p)) (build_clauses p).

(** The database does what it is asked for this request: the statement
    is prepared, the parameters are bound to [bs] (which includes that
    the names given for enumerations exist), and the disk database, when
    asked for, is attached and detached. *)
Definition served (db : database) (en : enum_names) (p : params)
  (bs : list binding) : Prop :=
  prepare_ok db = true /\
  bind_all db en p = inl bs /\
  (default false (p_disk p) = true ->
   attach_ok db = true /\ detach_ok db = true).

(** A row at position [k] (counted from 1) passes the cursor and the
    start filter. *)
Definition passes (cursor start : Z) (k : Z) (r : row) : bool :=
  (to_ulong (r_id r) <=? cursor) && negb ((start >? 0) && (start >=? k)).

(** The rows that pass the cursor and the start filter, [k] rows having
    been stepped over before. *)
Fixpoint select (cursor start : Z) (k : Z) (rows : list row) : list row :=
  match rows with
  | [] => []
  | r :: rest =>
    if passes cursor start (k + 1) r
    then r :: select cursor start (k + 1) rest
    else select cursor start (k + 1) rest
  end.

(** The first [len] rows for a positive [len], every row otherwise. *)
Definition page (len : Z) (rows : list row) : list row :=
  if 0 <? len then take (Z.to_nat len) rows else rows.

(** The id of the first row the statement yields (an id of -1 counting as
    none), -1 when there is none: what [firstID] holds after the loop. *)
Fixpoint first_id (rows : list row) : Z :=
  match rows with
  | [] => -1
  | r :: rest => if r_id r =? -1 then first_id rest else r_id r
  end.

(** The query string [p] with another cursor parameter. *)
Definition set_cursor (c : cursor_param) (p : params) : params :=
  mkParams (p_disk p) (p_from p) (p_until p) (p_domain p) (p_upstream p)
           (p_client p) (p_draw p) (p_length p) (p_start p) c
           (p_type p) (p_status p) (p_reply p) (p_dnssec p).

(** The answer that rejects a cursor. *)
Definition cursor_rejected (resp : response) : Prop :=
  exists hint,
    resp = Json_error 400 "bad_request" "Requested cursor is invalid" hint.

(** A database whose largest index is 10 and that yields the rows 10, 9
    and 8 for every statement. *)
Definition db_three_rows : database :=
  mkDatabase 10 3 3 true true true (fun _ => true) "error"
    (fun _ _ => [mkRow 10 []; mkRow 9 []; mkRow 8 []]).

Definition enum_names_sample : enum_names :=
  mkEnumNames ["A"; "AAAA"] ["UNKNOWN"; "GRAVITY"; "FORWARDED"]
              ["UNKNOWN"; "NODATA"] ["UNKNOWN"; "SECURE"].

(** A query string without parameters. *)
Definition no_params : params :=
  mkParams None None None None None None None None None
           Cursor_absent None None None None.

(** The strings [add_strings_to_array] adds for a limit [max_count]: all
    of them for a negative limit, else one less than the limit. *)
Definition limited (max_count : Z) (rows : list string) : list string :=
  if max_count <? 0 then rows else take (Z.to_nat (max_count - 1)) rows.

(** An in-memory database with three domains and, for every other
    statement, two addresses. *)
Definition memdb_sample : memdb :=
  mkMemdb true (fun _ => None)
    (fun q => if bool_decide (q = "SELECT domain FROM domain_by_id")
              then ["a.example"; "b.example"; "c.example"]
              else ["10.0.0.1"; "10.0.0.2"])
    (fun _ => None).

End queries_vocabulary.

(** ** parser.c *)

Section parser_vocabulary.
Import Parser.

(** The sum of the counters that the switch on the status increments. *)
Definition status_sum (c : countersStruct) : Z :=
  c_unknown c + c_blocked c + c_cached c + c_wildcardblocked c.

(** The number of stored queries with status 2 ("forwarded"), for which
    the switch increments nothing. *)
Definition forwarded_queries (qs : list queriesDataStruct) : Z :=
  sumZ (map (fun q => if q_status q =? 2 then 1 else 0) qs).

(** The queries array holds as many entries as the counter says. *)
Definition consistent (m : ftl) : Prop :=
  Z.of_nat (length (queries m)) = c_queries (counters m).

(** Every query is accounted for: by a status counter, or as forwarded. *)
Definition accounted (m : ftl) : Prop :=
  status_sum (counters m) + forwarded_queries (queries m)
  = c_queries (counters m).

(** A C library for the scenarios: hour and minute are the digits at
    their places in "Mmm dd hh:mm:ss", the time of a stamp is its number
    of seconds into the day, and no address has a name. *)
Definition digit_at (n : nat) (s : string) : Z :=
  match String.get n s with
  | Some c => Z.of_nat (nat_of_ascii c) - 48
  | None => 0
  end.

Definition number_at (n : nat) (s : string) : Z :=
  10 * digit_at n s + digit_at (S n) s.

Definition libc_sample : libc :=
  mkLibc
    (fun t => (number_at 7 t, number_at 10 t))
    (fun t => 3600 * number_at 7 t + 60 * number_at 10 t + number_at 13 t)
    (fun _ => None).

(** Two queries for the same domain, each forwarded to the same server. *)
Definition log_two_forwarded : list string :=
  [ "Jan  1 10:20:01 dnsmasq[1]: query[A] example.com from 10.0.0.1"
      +:+ newline;
    "Jan  1 10:20:01 dnsmasq[1]: forwarded example.com to 8.8.8.8"
      +:+ newline;
    "Jan  1 10:20:02 dnsmasq[1]: query[A] example.com from 10.0.0.1"
      +:+ newline;
    "Jan  1 10:20:02 dnsmasq[1]: forwarded example.com to 8.8.8.8"
      +:+ newline ].

(** A query for a domain of the blocking list, and the answer from
    gravity.list. *)
Definition log_blocked : list string :=
  [ "Jan  1 10:20:01 dnsmasq[1]: query[A] ad.example from 10.0.0.1"
      +:+ newline;
    "Jan  1 10:20:01 dnsmasq[1]: /etc/pihole/gravity.list ad.example is 10.0.0.2"
      +:+ newline ].

(** The arrays hold as many entries as the counters say. *)
Definition well_formed (m : ftl) : Prop :=
  Z.of_nat (length (queries m)) = c_queries (counters m) /\
  Z.of_nat (length (domains m)) = c_domains (counters m) /\
  Z.of_nat (length (clients m)) = c_clients (counters m) /\
  Z.of_nat (length (forwarded m)) = c_forwarded (counters m).

(** No domain, client or forward destination is stored twice. *)
Definition names_distinct (m : ftl) : Prop :=
  NoDup (map d_domain (domains m)) /\
  NoDup (map cl_ip (clients m)) /\
  NoDup (map f_ip (forwarded m)).

(** The counts of the domains and of the clients add up to the number of
    queries, the blocked counts of the domains to the number of blocked
    queries. *)
Definition counts_balanced (m : ftl) : Prop :=
  sumZ (map d_count (domains m)) = c_queries (counters m) /\
  sumZ (map cl_count (clients m)) = c_queries (counters m) /\
  sumZ (map d_blockedcount (domains m)) = c_blocked (counters m).

(** Every stored query names a known domain and a known client, and has
    a status and a type of the parser. *)
Definition references_valid (m : ftl) : Prop :=
  Forall (fun q =>
            0 <= q_domainID q < c_domains (counters m) /\
            0 <= q_clientID q < c_clients (counters m) /\
            0 <= q_status q <= 4 /\ 0 <= q_type q <= 2)
         (queries m).

(** The step from [m] to [m'] keeps these invariants. *)
Definition tables_preserved (m m' : ftl) : Prop :=
  well_formed m' /\
  (names_distinct m -> names_distinct m') /\
  (counts_balanced m -> counts_balanced m') /\
  (references_valid m -> references_valid m').

End parser_vocabulary.

(** ** config/config.c *)

Section config_vocabulary.
Import Config.

(** The array for a path with the elements [elems]: the elements, then
    NULL pointers up to [MAX_CONFIG_PATH_DEPTH] slots. *)
Definition pad_path (MAX_CONFIG_PATH_DEPTH : nat) (elems : list string)
  : list (option string) :=
  map Some elems ++ replicate (MAX_CONFIG_PATH_DEPTH - length elems) None.

(** The elements joined by the delimiter. *)
Fixpoint join_path (delim : ascii) (elems : list string) : string :=
  match elems with
  | [] => ""
  | [e] => e
  | e :: rest => e +:+ String delim (join_path delim rest)
  end.

(** The character [delim] does not occur in the string. *)
Fixpoint free_of (delim : ascii) (s : string) : Prop :=
  match s with
  | EmptyString => True
  | String c rest => c <> delim /\ free_of delim rest
  end.

End config_vocabulary.

(** ** webserver/webserver.c *)

Section webserver_vocabulary.
Import Webserver.

(** The web server of "pi.hole" with the interface at "/admin/". *)
Definition cfg_pi_hole : web_config := mkWebConfig "pi.hole" "/admin/" false.

End webserver_vocabulary.

(* ===================================================================== *)
(** * Properties *)
(* ===================================================================== *)

(** ** Array helpers *)

Lemma lookupZ_of_nat {A : Type} (l : list A) (i : nat) :
  lookupZ l (Z.of_nat i) = l !! i.
Proof.
  unfold lookupZ. destruct (Z.ltb_spec (Z.of_nat i) 0); [lia|].
  by rewrite Nat2Z.id.
Qed.

Lemma lookupZ_nonneg {A : Type} (l : list A) (i : Z) :
  0 <= i -> lookupZ l i = l !! Z.to_nat i.
Proof. intros H. unfold lookupZ. destruct (Z.ltb_spec i 0); [lia|done]. Qed.

Lemma lookupZ_Some_range {A : Type} (l : list A) (i : Z) (x : A) :
  lookupZ l i = Some x -> 0 <= i < Z.of_nat (length l).
Proof.
  unfold lookupZ. destruct (Z.ltb_spec i 0) as [|Hi]; [done|].
  intros Hl%lookup_lt_Some. lia.
Qed.

(** ** The rate limiter (gc.c) *)

Section rate_limit.
Import GC.

Lemma reset_client_magic count c : c_magic (reset_client count c).1 = c_magic c.
Proof.
  unfold reset_client.
  destruct (c_rate_limited c); [destruct (c_rate_limit c >? count)|]; done.
Qed.

Lemma reset_client_rate_limit count c : c_rate_limit (reset_client count c).1 = 0.
Proof.
  unfold reset_client.
  destruct (c_rate_limited c); [destruct (c_rate_limit c >? count)|]; done.
Qed.

Lemma reset_client_flag count c :
  c_rate_limited (reset_client count c).1
  = c_rate_limited c && (count <? c_rate_limit c).
Proof.
  unfold reset_client. destruct (c_rate_limited c) eqn:E; simpl; [|done].
  rewrite Z.gtb_ltb. destruct (count <? c_rate_limit c); simpl; done.
Qed.

Lemma getClient_nat cs (i : nat) :
  getClient cs (Z.of_nat i)
  = match cs !! i with
    | Some c => if c_magic c then Some c else None
    | None => None
    end.
Proof. unfold getClient. by rewrite lookupZ_of_nat. Qed.

(** The loop visits each index of [ids] once and leaves the others. *)
Lemma reset_loop_lookup count ids : forall cs (i : nat),
  NoDup ids ->
  (reset_loop count ids cs).1 !! i
  = if bool_decide (i ∈ ids) then reset_slot count <$> cs !! i else cs !! i.
Proof.
  induction ids as [|id rest IH]; intros cs i Hnd.
  - rewrite bool_decide_eq_false_2 by apply not_elem_of_nil. done.
  - apply NoDup_cons in Hnd as [Hid Hrest].
    cbn [reset_loop]. rewrite getClient_nat.
    assert (Hcase : forall cs1 : list clientsData,
      cs1 !! id = reset_slot count <$> cs !! id ->
      (forall j, j <> id -> cs1 !! j = cs !! j) ->
      (reset_loop count rest cs1).1 !! i
      = if bool_decide (i ∈ id :: rest)
        then reset_slot count <$> cs !! i else cs !! i).
    { intros cs1 Hat Hoth. rewrite IH by done.
      destruct (decide (i = id)) as [->|Hne].
      - rewrite bool_decide_eq_false_2 by done.
        rewrite bool_decide_eq_true_2 by apply list_elem_of_here. done.
      - rewrite Hoth by done.
        destruct (decide (i ∈ rest)) as [Hin|Hin].
        + rewrite !bool_decide_eq_true_2; [done| |done].
          by apply list_elem_of_further.
        + rewrite !bool_decide_eq_false_2; [done| |done].
          rewrite elem_of_cons. tauto. }
    destruct (cs !! id) as [c|] eqn:Hc; [destruct (c_magic c) eqn:Hm|].
    + destruct (reset_client count c) as [c' lg] eqn:Hrc.
      destruct (reset_loop count rest (<[id:=c']> cs)) as [cs' lg'] eqn:Hl.
      change cs' with ((cs', lg').1). rewrite <- Hl.
      apply Hcase.
      * rewrite list_lookup_insert_eq by (by eapply lookup_lt_Some).
        rewrite ?Hc. simpl. unfold reset_slot. by rewrite Hm, Hrc.
      * intros j Hj. by rewrite list_lookup_insert_ne.
    + apply Hcase; [|done]. rewrite ?Hc. simpl. unfold reset_slot. by rewrite Hm.
    + apply Hcase; [|done]. by rewrite ?Hc.
Qed.

Lemma reset_rate_limiting_client cfg n cs (clientID : Z) client :
  0 <= clientID < n ->
  getClient cs clientID = Some client ->
  getClient (reset_rate_limiting cfg n cs).1 clientID
  = Some (reset_client (rateLimit_count cfg) client).1.
Proof.
  intros Hr Hg. unfold reset_rate_limiting.
  unfold getClient in *. rewrite lookupZ_nonneg in * by lia.
  rewrite reset_loop_lookup by apply NoDup_seq.
  rewrite bool_decide_eq_true_2 by (apply elem_of_seq; lia).
  destruct (cs !! Z.to_nat clientID) as [c|]; [|done]. simpl.
  destruct (c_magic c) eqn:Hm; [|done]. injection Hg as <-.
  unfold reset_slot. rewrite Hm. by rewrite reset_client_magic, Hm.
Qed.

End rate_limit.

(** *** Turnaround time *)

(** C4, as stated, fails: for the sixth query of a client under a limit of
    5 per 60 seconds, one second into the window, the code answers 59
    seconds, not the 119 seconds of the formula with the quotient rounded
    up. *)
Lemma get_rate_limit_turnaround_not_ceil :
  GC.get_rate_limit_turnaround cfg_5_per_60 0 1 6 = Some 59 /\
  turnaround_as_specified cfg_5_per_60 0 1 6 = 119 /\
  GC.get_rate_limit_turnaround cfg_5_per_60 0 1 6
  <> Some (turnaround_as_specified cfg_5_per_60 0 1 6).
Proof. split; [reflexivity|]. split; [reflexivity|]. discriminate. Qed.

(** C4, amended: with a limit of [count > 0] queries per [interval]
    seconds, [get_rate_limit_turnaround c] is
    [interval * k - (now - lastRateLimitCleaner)] for the quotient [k] of
    [c] by [count] rounded down ([k * count <= c < (k+1) * count]); and
    for a client that has just been rate-limited ([c = count + 1], with
    [count >= 2]) in a window that is not yet over, the result lies in
    [(0, interval]]. *)
Theorem get_rate_limit_turnaround_floor (cfg : GC.gc_config)
  (lastCleaner now c : Z) :
  0 < GC.rateLimit_count cfg ->
  0 <= c ->
  (exists k,
     k * GC.rateLimit_count cfg <= c < (k + 1) * GC.rateLimit_count cfg /\
     GC.get_rate_limit_turnaround cfg lastCleaner now c
     = Some (GC.rateLimit_interval cfg * k - (now - lastCleaner))) /\
  (c = GC.rateLimit_count cfg + 1 ->
   2 <= GC.rateLimit_count cfg ->
   0 <= now - lastCleaner < GC.rateLimit_interval cfg ->
   exists r,
     GC.get_rate_limit_turnaround cfg lastCleaner now c = Some r /\
     0 < r <= GC.rateLimit_interval cfg).
Proof.
  intros Hcount Hc. unfold GC.get_rate_limit_turnaround.
  destruct (Z.eqb_spec (GC.rateLimit_count cfg) 0) as [E|_]; [lia|].
  split.
  - exists (c / GC.rateLimit_count cfg). split; [|done].
    pose proof (Z.mul_div_le c _ Hcount).
    pose proof (Z.mul_succ_div_gt c _ Hcount). lia.
  - intros -> H2 Hel. eexists. split; [done|].
    replace ((GC.rateLimit_count cfg + 1) / GC.rateLimit_count cfg) with 1.
    + lia.
    + apply Z.div_unique with (r := 1); lia.
Qed.

Lemma get_rate_limit_turnaround_floor_witness :
  exists r,
    GC.get_rate_limit_turnaround cfg_5_per_60 1000 1059 6 = Some r /\
    0 < r <= 60.
Proof.
  refine (proj2 (get_rate_limit_turnaround_floor cfg_5_per_60 1000 1059 6 _ _)
                _ _ _); simpl; lia.
Defined.

(** *** Window reset *)

(** C5, as stated, fails: with the interval set to 0 every pass runs "at
    least [interval] seconds" after the previous reset, but the guard
    [interval > 0] keeps the pass from resetting anything. *)
Lemma GC_thread_rate_limit_interval_zero :
  GC.rateLimit_interval cfg_no_interval
  <= 100 - GC.lastRateLimitCleaner shm_one_client /\
  (GC.GC_thread_rate_limit cfg_no_interval 100 shm_one_client).1
  = shm_one_client /\
  GC.c_rate_limit
    <$> GC.getClient
          (GC.clients
             (GC.GC_thread_rate_limit cfg_no_interval 100 shm_one_client).1) 0
  = Some 3.
Proof. split; [simpl; lia|]. split; reflexivity. Qed.

(** C5, amended: on a pass of the housekeeping loop with a configured
    interval greater than zero that runs at least [interval] seconds
    (and less than 2^32 seconds) after the previous reset, the time of the
    reset becomes [now], every client has its [rate_limit] counter set to
    0, the flag of a rate-limited client is cleared if and only if its
    counter did not exceed the configured count, and a client that was
    not rate-limited stays so. *)
Theorem GC_thread_rate_limit_resets (cfg : GC.gc_config) (now : Z)
  (m : GC.shm) (clientID : Z) (client : GC.clientsData) :
  0 < GC.rateLimit_interval cfg ->
  GC.rateLimit_interval cfg <= now - GC.lastRateLimitCleaner m < 2 ^ 32 ->
  0 <= clientID < GC.n_clients m ->
  GC.getClient (GC.clients m) clientID = Some client ->
  let m' := (GC.GC_thread_rate_limit cfg now m).1 in
  GC.lastRateLimitCleaner m' = now /\
  exists client',
    GC.getClient (GC.clients m') clientID = Some client' /\
    GC.c_rate_limit client' = 0 /\
    (GC.c_rate_limited client = true ->
     (GC.c_rate_limited client' = false
      <-> GC.c_rate_limit client <= GC.rateLimit_count cfg)) /\
    (GC.c_rate_limited client = false -> GC.c_rate_limited client' = false).
Proof.
  intros Hint Hel Hid Hget m'. subst m'. unfold GC.GC_thread_rate_limit.
  replace (GC.rateLimit_interval cfg >? 0) with true
    by (symmetry; apply Z.gtb_lt; lia).
  replace (to_uint (now - GC.lastRateLimitCleaner m)
           >=? GC.rateLimit_interval cfg) with true.
  2:{ symmetry. apply Z.geb_le. unfold to_uint.
      rewrite Z.mod_small by lia. lia. }
  simpl.
  pose proof (reset_rate_limiting_client cfg (GC.n_clients m) (GC.clients m)
                clientID client Hid Hget) as Hc.
  destruct (GC.reset_rate_limiting cfg (GC.n_clients m) (GC.clients m))
    as [cs lg]. simpl in *. split; [done|].
  eexists. split; [exact Hc|].
  rewrite reset_client_rate_limit, reset_client_flag. split; [done|].
  split.
  - intros ->. simpl. destruct (Z.ltb_spec (GC.rateLimit_count cfg)
                                           (GC.c_rate_limit client)).
    + split; [done|lia].
    + split; [lia|done].
  - intros ->. done.
Qed.

Lemma GC_thread_rate_limit_resets_witness :
  let m' := (GC.GC_thread_rate_limit cfg_5_per_60 1060 shm_limited_client).1 in
  GC.lastRateLimitCleaner m' = 1060 /\
  exists client',
    GC.getClient (GC.clients m') 0 = Some client' /\
    GC.c_rate_limit client' = 0 /\
    (true = true -> (GC.c_rate_limited client' = false <-> 7 <= 5)) /\
    (true = false -> GC.c_rate_limited client' = false).
Proof.
  apply (GC_thread_rate_limit_resets cfg_5_per_60 1060 shm_limited_client 0
           (GC.mkClient true 0 7 0 [] 7 true)); simpl; try lia; reflexivity.
Defined.

(** ** Session lookup (api/auth.c) *)

Section session_lookup.
Import Auth.

Lemma slot_matches_true now remote sid_req s :
  slot_matches now remote sid_req s = true <->
  used s = true /\ now <= valid_until s /\
  remote_addr s = remote /\ sid s = sid_req.
Proof.
  unfold slot_matches.
  rewrite !andb_true_iff, !bool_decide_eq_true, Z.geb_le. tauto.
Qed.

Lemma first_match_unique now remote sid_req slots i1 s1 i2 s2 :
  first_match now remote sid_req slots i1 s1 ->
  first_match now remote sid_req slots i2 s2 ->
  i1 = i2 /\ s1 = s2.
Proof.
  intros (L1 & M1 & F1) (L2 & M2 & F2).
  assert (i1 = i2) as ->.
  { destruct (Nat.lt_total i1 i2) as [Hlt|[Heq|Hlt]]; [|done|].
    - specialize (F2 _ _ Hlt L1). congruence.
    - specialize (F1 _ _ Hlt L2). congruence. }
  split; [done|congruence].
Qed.

Lemma search_slots_spec now remote sid_req csrf_req slots : forall i0,
  match search_slots now remote sid_req csrf_req i0 slots with
  | Slot_found i =>
    exists k s, i = (i0 + k)%nat /\
      first_match now remote sid_req slots k s /\
      (forall tok, csrf_req = Some tok -> csrf s = tok)
  | Slot_csrf_mismatch i =>
    exists k s tok, i = (i0 + k)%nat /\
      first_match now remote sid_req slots k s /\
      csrf_req = Some tok /\ csrf s <> tok
  | Slot_none =>
    forall k s, slots !! k = Some s ->
                slot_matches now remote sid_req s = false
  end.
Proof.
  induction slots as [|s rest IH]; intros i0; simpl.
  - intros k s Hk. by rewrite lookup_nil in Hk.
  - destruct (slot_matches now remote sid_req s) eqn:Hm.
    + assert (Hfirst : first_match now remote sid_req (s :: rest) 0 s).
      { split; [done|]. split; [done|]. intros j s' Hj. lia. }
      destruct csrf_req as [tok|].
      * destruct (bool_decide (csrf s = tok)) eqn:Hc.
        -- apply bool_decide_eq_true in Hc.
           exists 0%nat, s. split; [lia|]. split; [done|]. congruence.
        -- apply bool_decide_eq_false in Hc.
           exists 0%nat, s, tok. split; [lia|]. done.
      * exists 0%nat, s. split; [lia|]. split; [done|]. intros tok Ht. discriminate.
    + specialize (IH (S i0)).
      assert (Hshift : forall k s',
        first_match now remote sid_req rest k s' ->
        first_match now remote sid_req (s :: rest) (S k) s').
      { intros k s' (L & M & F). split; [done|]. split; [done|].
        intros j s'' Hj Hl. destruct j as [|j]; simpl in Hl.
        - congruence.
        - apply (F j); [lia|done]. }
      destruct (search_slots now remote sid_req csrf_req (S i0) rest).
      * destruct IH as (k & s' & -> & Hf & Ht).
        exists (S k), s'. split; [lia|]. split; [by apply Hshift|done].
      * destruct IH as (k & s' & tok & -> & Hf & Ht & Hne).
        exists (S k), s', tok. split; [lia|]. split; [by apply Hshift|done].
      * intros [|k] s' Hk; simpl in Hk; [congruence|by eapply IH].
Qed.

Lemma auth_data_log_debug cfg fmt args st :
  auth_data (log_debug cfg fmt args st) = auth_data st.
Proof. unfold log_debug. by destruct (debug_api cfg). Qed.

End session_lookup.

(** C1, as stated, fails: the SID is copied into a buffer of [SID_SIZE]
    bytes before it is compared, so only its first 43 characters count.
    A request whose header "sid" holds the stored SID followed by "XYZ"
    is given slot 0, although the SID stored there is not what the
    request presents, in the header or anywhere else. *)
Lemma check_client_auth_accepts_longer_sid :
  (Auth.check_client_auth cfg_password 1200 request_with_long_sid true
                          one_session).1 = 0 /\
  Auth.sid <$> Auth.auth_data one_session !! 0%nat = Some sid_A /\
  presents_sid request_with_long_sid (sid_A +:+ "XYZ") /\
  (forall v, presents_sid request_with_long_sid v -> v <> sid_A).
Proof.
  split; [reflexivity|]. split; [reflexivity|]. split.
  - right. right. left. reflexivity.
  - intros v [H|[(j & H & _)|[H|[H|H]]]]; try discriminate H.
    injection H as <-. discriminate.
Qed.

(** C1, amended: when [check_client_auth] returns a slot number
    [uid >= 0], the request carries a SID, slot [uid] was in use, not
    expired ([valid_until >= now]), stored the remote address of the
    request and the SID as the function reads it from the request
    ([request_sid]: what fits its buffer, the first 43 characters of the
    value in the payload or header, or the cookie); and the call has set
    the slot's [valid_until] to [now + sessionTimeout] (the session
    itself staying the same one). *)
Theorem check_client_auth_sound (cfg : Auth.auth_config) (now : Z)
  (api : Auth.ftl_conn) (is_api : bool) (st st' : Auth.state) (uid : Z) :
  Auth.check_client_auth cfg now api is_api st = (uid, st') ->
  0 <= uid ->
  exists sid_req source s s',
    Auth.request_sid api = Some (sid_req, source) /\
    Auth.auth_data st !! Z.to_nat uid = Some s /\
    Auth.used s = true /\
    now <= Auth.valid_until s /\
    Auth.remote_addr s = Auth.req_remote_addr api /\
    Auth.sid s = sid_req /\
    Auth.auth_data st' !! Z.to_nat uid = Some s' /\
    Auth.valid_until s' = now + Auth.session_timeout cfg /\
    Auth.used s' = true /\
    Auth.sid s' = Auth.sid s /\
    Auth.csrf s' = Auth.csrf s /\
    Auth.remote_addr s' = Auth.remote_addr s.
Proof.
  unfold Auth.check_client_auth. intros Hrun Hpos.
  destruct (negb (Auth.localAPIauth cfg) &&
            Auth.is_local_api_user (Auth.req_remote_addr api)).
  { injection Hrun as <- _. unfold Auth.API_AUTH_LOCALHOST in Hpos. lia. }
  destruct (bool_decide (Auth.pwhash cfg = "")).
  { injection Hrun as <- _. unfold Auth.API_AUTH_EMPTYPASS in Hpos. lia. }
  destruct (Auth.request_sid api) as [[sid_req source]|].
  2:{ injection Hrun as <- _. unfold Auth.API_AUTH_UNAUTHORIZED in Hpos. lia. }
  cbv zeta in Hrun.
  match type of Hrun with
  | match ?c with _ => _ end = _ => destruct c as [csrf_req|]
  end.
  2:{ injection Hrun as <- _. unfold Auth.API_AUTH_UNAUTHORIZED in Hpos. lia. }
  rewrite auth_data_log_debug in Hrun.
  pose proof (search_slots_spec now (Auth.req_remote_addr api) sid_req
                csrf_req (Auth.auth_data st) 0) as Hs.
  destruct (Auth.search_slots now (Auth.req_remote_addr api) sid_req
              csrf_req 0 (Auth.auth_data st)) as [i|i|].
  2,3: injection Hrun as <- _; unfold Auth.API_AUTH_UNAUTHORIZED in Hpos; lia.
  destruct Hs as (k & s & -> & (Hl & Hm & _) & _). simpl in Hrun.
  apply slot_matches_true in Hm as (Hu & Hv & Hr & Hsid).
  injection Hrun as <- <-. rewrite Nat2Z.id.
  exists sid_req, source, s, (Auth.touch_session cfg now (Auth.is_ssl api) s).
  repeat (split; [done|]).
  split; [|done].
  unfold Auth.log_debug.
  destruct (Auth.debug_api cfg); simpl;
    rewrite list_lookup_alter_eq, Hl; done.
Qed.

Lemma check_client_auth_sound_witness :
  exists sid_req source s s',
    Auth.request_sid request_with_header = Some (sid_req, source) /\
    Auth.auth_data one_session !! Z.to_nat 0 = Some s /\
    Auth.used s = true /\
    1200 <= Auth.valid_until s /\
    Auth.remote_addr s = Auth.req_remote_addr request_with_header /\
    Auth.sid s = sid_req /\
    Auth.auth_data
      (Auth.check_client_auth cfg_password 1200 request_with_header true
                              one_session).2 !! Z.to_nat 0 = Some s' /\
    Auth.valid_until s' = 1200 + Auth.session_timeout cfg_password /\
    Auth.used s' = true /\
    Auth.sid s' = Auth.sid s /\
    Auth.csrf s' = Auth.csrf s /\
    Auth.remote_addr s' = Auth.remote_addr s.
Proof.
  apply (check_client_auth_sound cfg_password 1200 request_with_header true
           one_session _ 0); [reflexivity|lia].
Defined.

(** C2, as stated, fails: the header X-CSRF-TOKEN is copied into a
    buffer of [SID_SIZE] bytes before it is compared, so only its first
    43 characters count.  An API request with the SID in the cookie and a
    header that holds the stored token followed by "XYZ", which is not
    the stored token, is given slot 0. *)
Lemma check_client_auth_accepts_longer_csrf :
  Auth.request_sid (request_with_cookie (Some (csrf_B +:+ "XYZ")))
  = Some (sid_A, Auth.From_cookie) /\
  Auth.hdr_x_csrf_token (request_with_cookie (Some (csrf_B +:+ "XYZ")))
  = Some (csrf_B +:+ "XYZ") /\
  Auth.csrf <$> Auth.auth_data one_session !! 0%nat = Some csrf_B /\
  csrf_B +:+ "XYZ" <> csrf_B /\
  (Auth.check_client_auth cfg_password 1200
     (request_with_cookie (Some (csrf_B +:+ "XYZ"))) true one_session).1 = 0.
Proof. repeat (split; [reflexivity|]). split; [discriminate|reflexivity]. Qed.

(** C2, amended: for an API request ([is_api]) that has to present a
    session and whose SID was read from the cookie, [check_client_auth]
    - answers "unauthorized" when there is no X-CSRF-TOKEN header,
    - answers "unauthorized" when no slot holds a valid session for the
      SID and address, whatever the header,
    - answers "unauthorized" when the first 43 characters of the header
      differ from the CSRF token stored in the session the SID
      designates,
    - returns the slot of that session when the first 43 characters of
      the header are its token.
    The header is read into a buffer of [SID_SIZE] bytes, so what
    follows its first 43 characters is not looked at. *)
Theorem check_client_auth_csrf (cfg : Auth.auth_config) (now : Z)
  (api : Auth.ftl_conn) (st : Auth.state) (sid_req : string) :
  needs_session cfg api ->
  Auth.request_sid api = Some (sid_req, Auth.From_cookie) ->
  let r := (Auth.check_client_auth cfg now api true st).1 in
  let matches :=
    first_match now (Auth.req_remote_addr api) sid_req (Auth.auth_data st) in
  (Auth.hdr_x_csrf_token api = None -> r = Auth.API_AUTH_UNAUTHORIZED) /\
  (forall h, Auth.hdr_x_csrf_token api = Some h ->
     (forall k s, Auth.auth_data st !! k = Some s ->
        Auth.slot_matches now (Auth.req_remote_addr api) sid_req s = false) ->
     r = Auth.API_AUTH_UNAUTHORIZED) /\
  (forall h i s, Auth.hdr_x_csrf_token api = Some h ->
     matches i s ->
     Auth.csrf s <> Auth.strncpy (Auth.SID_SIZE - 1) h ->
     r = Auth.API_AUTH_UNAUTHORIZED) /\
  (forall h i s, Auth.hdr_x_csrf_token api = Some h ->
     matches i s ->
     Auth.csrf s = Auth.strncpy (Auth.SID_SIZE - 1) h ->
     r = Z.of_nat i).
Proof.
  intros [Hgate Hpw] Hsid r matches. subst r matches.
  unfold Auth.check_client_auth. rewrite Hgate.
  rewrite bool_decide_eq_false_2 by done. rewrite Hsid. cbv zeta.
  rewrite bool_decide_eq_true_2 by done. simpl andb.
  split; [intros ->; done|].
  split; [|split].
  - intros h -> Hnone. rewrite auth_data_log_debug.
    pose proof (search_slots_spec now (Auth.req_remote_addr api) sid_req
                  (Some (Auth.strncpy (Auth.SID_SIZE - 1) h))
                  (Auth.auth_data st) 0) as Hs.
    destruct (Auth.search_slots _ _ _ _ _ _) as [i|i|]; [|done|done].
    destruct Hs as (k & s & _ & (Hl & Hm & _) & _).
    rewrite (Hnone _ _ Hl) in Hm. done.
  - intros h i s -> Hfm Hne. rewrite auth_data_log_debug.
    pose proof (search_slots_spec now (Auth.req_remote_addr api) sid_req
                  (Some (Auth.strncpy (Auth.SID_SIZE - 1) h))
                  (Auth.auth_data st) 0) as Hs.
    destruct (Auth.search_slots _ _ _ _ _ _) as [j|j|]; [|done|done].
    destruct Hs as (k & s' & _ & Hfm' & Htok).
    destruct (first_match_unique _ _ _ _ _ _ _ _ Hfm Hfm') as [-> ->].
    specialize (Htok _ eq_refl). done.
  - intros h i s -> Hfm Heq. rewrite auth_data_log_debug.
    pose proof (search_slots_spec now (Auth.req_remote_addr api) sid_req
                  (Some (Auth.strncpy (Auth.SID_SIZE - 1) h))
                  (Auth.auth_data st) 0) as Hs.
    destruct (Auth.search_slots _ _ _ _ _ _) as [j|j|].
    + destruct Hs as (k & s' & -> & Hfm' & _).
      destruct (first_match_unique _ _ _ _ _ _ _ _ Hfm Hfm') as [-> ->]. done.
    + destruct Hs as (k & s' & tok & _ & Hfm' & [= <-] & Hne).
      destruct (first_match_unique _ _ _ _ _ _ _ _ Hfm Hfm') as [-> ->]. done.
    + destruct Hfm as (Hl & Hm & _). rewrite (Hs _ _ Hl) in Hm. done.
Qed.

Lemma check_client_auth_csrf_witness :
  (Auth.check_client_auth cfg_password 1200 (request_with_cookie None) true
                          one_session).1 = Auth.API_AUTH_UNAUTHORIZED /\
  (Auth.check_client_auth cfg_password 1200
                          (request_with_cookie (Some csrf_B)) true
                          one_session).1 = 0.
Proof.
  split.
  - refine (proj1 (check_client_auth_csrf cfg_password 1200
                     (request_with_cookie None) one_session sid_A _ _) _).
    + split; [reflexivity|discriminate].
    + reflexivity.
    + reflexivity.
  - refine (proj2 (proj2 (proj2
             (check_client_auth_csrf cfg_password 1200
                (request_with_cookie (Some csrf_B)) one_session sid_A _ _)))
             csrf_B 0%nat _ _ _ _).
    + split; [reflexivity|discriminate].
    + reflexivity.
    + reflexivity.
    + split; [reflexivity|]. split; [reflexivity|]. intros j s' Hj. lia.
    + reflexivity.
Defined.

(** ** Login and the log (api/auth.c) *)

Section login_log.
Import Auth.

Lemma log_grows_refl st : log_grows st st.
Proof. unfold log_grows. done. Qed.

Lemma log_grows_trans st1 st2 st3 :
  log_grows st1 st2 -> log_grows st2 st3 -> log_grows st1 st3.
Proof. unfold log_grows. intros H1 H2. by etrans. Qed.

Lemma log_grows_debug cfg fmt args st : log_grows st (log_debug cfg fmt args st).
Proof.
  unfold log_grows, log_debug. destruct (debug_api cfg); simpl; [|done].
  by apply prefix_app_r.
Qed.

Lemma log_grows_warn fmt args st : log_grows st (log_warn fmt args st).
Proof. unfold log_grows, log_warn. simpl. by apply prefix_app_r. Qed.

Lemma log_grows_add_logs l st : log_grows st (add_logs l st).
Proof. unfold log_grows. simpl. by apply prefix_app_r. Qed.

Lemma log_delete_session uid st : log (delete_session uid st) = log st.
Proof. unfold delete_session. by destruct (_ || _). Qed.

Lemma log_grows_status cfg api uid now st :
  log_grows st (send_api_auth_status cfg api uid now st).2.
Proof.
  unfold send_api_auth_status.
  repeat match goal with
         | |- context [if ?b then _ else _] => destruct b
         end; cbn [snd];
    try apply log_grows_debug;
    unfold log_grows; simpl; rewrite ?log_delete_session;
    apply log_grows_debug.
Qed.

Lemma log_grows_error code key message hint st :
  log_grows st (send_json_error code key message hint st).2.
Proof. apply log_grows_refl. Qed.

Lemma api_auth_login_log env cfg now fs fc api uid password st :
  exists rest,
    log (api_auth_login env cfg now fs fc api uid password st).2
    = log st ++ password_line password :: rest.
Proof.
  assert (Hgrow : log_grows
            (log_info ("Password: " +:+ dquote +:+ "%s" +:+ dquote)
                      [arg_of password] st)
            (api_auth_login env cfg now fs fc api uid password st).2).
  { unfold api_auth_login.
    set (st1 := log_info _ _ st).
    destruct (_ || _); [|destruct (bool_decide _)].
    - destruct (_ && negb (non_null _)).
      { eapply log_grows_trans; [apply log_grows_debug|apply log_grows_error]. }
      destruct (_ && negb (verifyTOTP _ _)); [apply log_grows_error|].
      destruct (login_loop _ _ _ _ _ _ _ _) as [[found slots] lg].
      eapply log_grows_trans; [|apply log_grows_status].
      eapply log_grows_trans with (st2 := add_logs lg (set_auth_data slots st1)).
      { apply (log_grows_add_logs lg (set_auth_data slots st1)). }
      set (st2 := add_logs lg (set_auth_data slots st1)).
      assert (H3 : log_grows st2
                (if match found with Some i => Z.of_nat i | None => uid end
                    >? API_AUTH_UNAUTHORIZED
                 then log_debug cfg
                   "API: Registered new user: user_id %i valid_until: %s remote_addr %s (accepted due to %s)"
                   [A_int match found with Some i => Z.of_nat i | None => uid end;
                    A_int (default 0
                      (valid_until <$> lookupZ slots
                         match found with Some i => Z.of_nat i | None => uid end));
                    arg_of (remote_addr <$> lookupZ slots
                         match found with Some i => Z.of_nat i | None => uid end);
                    A_str (if bool_decide (pwhash cfg = "")
                           then "empty password" else "correct response")] st2
                 else st2)).
      { destruct (_ >? _); [apply log_grows_debug|apply log_grows_refl]. }
      eapply log_grows_trans; [exact H3|].
      destruct (bool_decide (_ = API_AUTH_UNAUTHORIZED));
        [apply log_grows_warn|apply log_grows_refl].
    - apply log_grows_error.
    - eapply log_grows_trans; [apply log_grows_debug|apply log_grows_status]. }
  destruct Hgrow as [rest Hrest]. exists rest. rewrite Hrest. simpl.
  by rewrite <- app_assoc.
Qed.

(** The session check does not look at the password. *)
Lemma check_client_auth_login_request cfg now p p' api st :
  check_client_auth cfg now (login_request p api) false st
  = check_client_auth cfg now (login_request p' api) false st.
Proof. reflexivity. Qed.

Lemma no_password_Some p : p <> "" -> no_password (Some p) = false.
Proof. intros Hp. destruct p; [done|reflexivity]. Qed.

Lemma before_login_request env cfg now api st p :
  p <> "" ->
  api_auth_before_login env cfg now (login_request p api) st
  = inr ((check_client_auth cfg now (login_request p api) false st).1,
         Some p,
         (check_client_auth cfg now (login_request p api) false st).2).
Proof.
  intros Hp. unfold api_auth_before_login.
  cbn [item login_request method payload_json j_password].
  destruct (check_client_auth _ _ _ _ _) as [uid st1].
  rewrite bool_decide_eq_true_2 by done.
  rewrite (no_password_Some p Hp). rewrite (no_password_Some p Hp).
  rewrite andb_false_r.
  rewrite (bool_decide_eq_false_2 (HTTP_POST = HTTP_DELETE)) by done.
  simpl. done.
Qed.

(** Without a configured password the session check never answers
    "unauthorized". *)
Lemma check_client_auth_empty_password cfg now api is_api st :
  pwhash cfg = "" ->
  (check_client_auth cfg now api is_api st).1 <> API_AUTH_UNAUTHORIZED.
Proof.
  intros Hpw. unfold check_client_auth.
  destruct (_ && _); [done|].
  rewrite bool_decide_eq_true_2 by done. done.
Qed.

(** The login attempt always has a password at hand. *)
Lemma before_login_password env cfg now api st uid password st1 :
  api_auth_before_login env cfg now api st = inr (uid, password, st1) ->
  exists p, password = Some p.
Proof.
  unfold api_auth_before_login. intros H.
  destruct (match item api with Some _ => _ | None => _ end); [done|].
  pose proof (check_client_auth_empty_password cfg now api false st) as Hne.
  destruct (check_client_auth cfg now api false st) as [uid0 st0].
  cbn [fst] in Hne.
  assert (Hafter : forall password0,
    (let pw :=
       if no_password password0 then basic_auth env api else password0 in
     if negb (bool_decide (uid0 = API_AUTH_UNAUTHORIZED)) && no_password pw
     then inl (send_api_auth_status cfg api uid0 now st0)
     else if bool_decide (method api = HTTP_DELETE)
          then inl (send_api_auth_status cfg api uid0 now
                      (log_debug cfg "API Auth: User with ID %i wants to log out"
                                 [A_int uid0] st0))
          else if negb (non_null pw) &&
                  negb (bool_decide (pwhash cfg = ""))
               then inl (send_api_auth_status cfg api uid0 now st0)
               else inr (uid0, pw, st0))
    = inr (uid, password, st1) -> exists p, password = Some p).
  { intros password0. cbv zeta.
    destruct (if no_password password0 then _ else _) as [q|].
    - repeat match goal with
             | |- (if ?b then _ else _) = _ -> _ => destruct b; [done|]
             end.
      intros H0. injection H0 as _ <- _. by exists q.
    - simpl. intros H0.
      destruct (bool_decide (uid0 = _)) eqn:Hu; simpl in H0; [|discriminate].
      destruct (bool_decide (method api = HTTP_DELETE)); [discriminate|].
      destruct (bool_decide (pwhash cfg = "")) eqn:Hp; simpl in H0;
        [|discriminate].
      apply bool_decide_eq_true in Hu, Hp. by destruct (Hne Hp). }
  destruct (bool_decide (method api = HTTP_POST)); [|by eapply Hafter].
  destruct (payload_json api) as [j|].
  - destruct (j_password j) as [[v|n|]|]; try done. by eapply Hafter.
  - by destruct (payload_json_error api).
Qed.

End login_log.

(** C10: whenever [api_auth] gets as far as the login attempt, it has a
    password [p] at hand, and the first thing it adds to the log is the
    info line "Password: ..." with [p] itself as its argument; the
    password is verified after that, and the line is there whatever the
    verdict.  So two attempts with the same log before the login attempt
    and different passwords leave different logs, failed ones included.
    A POST with a non-empty password in its JSON body is such an attempt
    ([before_login_request]). *)
Theorem api_auth_logs_password (env : Auth.auth_env) (cfg : Auth.auth_config)
  (now : Z) (fresh_sid fresh_csrf : option string) (api : Auth.ftl_conn)
  (st st1 : Auth.state) (uid : Z) (password : option string) :
  Auth.api_auth_before_login env cfg now api st = inr (uid, password, st1) ->
  let run api st :=
    Auth.log (Auth.api_auth env cfg now fresh_sid fresh_csrf api st).2 in
  (exists p rest,
     password = Some p /\
     run api st = Auth.log st1 ++ password_line (Some p) :: rest) /\
  (forall api' st' st1' uid' password',
     Auth.api_auth_before_login env cfg now api' st'
     = inr (uid', password', st1') ->
     Auth.log st1' = Auth.log st1 ->
     password' <> password ->
     run api' st' <> run api st).
Proof.
  intros Hbefore run.
  assert (Hrun : forall api0 st0 uid0 pw0 st10,
    Auth.api_auth_before_login env cfg now api0 st0 = inr (uid0, pw0, st10) ->
    exists rest, run api0 st0 = Auth.log st10 ++ password_line pw0 :: rest).
  { intros api0 st0 uid0 pw0 st10 H0. subst run. cbv beta.
    unfold Auth.api_auth. rewrite H0. apply api_auth_login_log. }
  split.
  - destruct (before_login_password _ _ _ _ _ _ _ _ Hbefore) as [p ->].
    destruct (Hrun _ _ _ _ _ Hbefore) as [rest Hrest]. by exists p, rest.
  - intros api' st' st1' uid' password' Hbefore' Hlog Hne Heq.
    destruct (Hrun _ _ _ _ _ Hbefore) as [r1 H1].
    destruct (Hrun _ _ _ _ _ Hbefore') as [r2 H2].
    rewrite H1, H2, Hlog in Heq. apply app_inv_head in Heq.
    injection Heq as Heq _.
    destruct password', password; simpl in Heq; congruence.
Qed.

Lemma api_auth_logs_password_witness :
  exists p rest,
    Some "hunter2" = Some p /\
    Auth.log (Auth.api_auth env_reject_all cfg_password 1200 None None
                (login_request "hunter2" request_base) one_session).2
    = Auth.log (Auth.check_client_auth cfg_password 1200
                  (login_request "hunter2" request_base) false one_session).2
      ++ password_line (Some p) :: rest.
Proof.
  refine (proj1 (api_auth_logs_password env_reject_all cfg_password 1200
                   None None (login_request "hunter2" request_base)
                   one_session _ _ (Some "hunter2") _)).
  reflexivity.
Defined.

(** ** The query log (api/queries.c) *)

Section query_log.
Import Queries.

(** The answer to a request that is served. *)
Lemma api_queries_served db en p bs cursor cursor_set :
  served db en p bs ->
  check_cursor (largest_db_index db) (p_cursor p) = inl (cursor, cursor_set) ->
  let ls := run_loop cursor (default 0 (p_start p)) (default 100 (p_length p))
                     (rows_of db (statement_of p) bs) in
  api_queries db en false true (Some p)
  = Json_queries (out ls) (if cursor_set then cursor else firstID ls)
                 (if default false (p_disk p)
                  then disk_dbnum db else mem_dbnum db)
                 (records ls) (default 0 (p_draw p)).
Proof.
  intros (Hprep & Hbind & Hdisk) Hcur ls. subst ls.
  unfold api_queries. simpl negb. cbv iota. rewrite Hcur, Hprep, Hbind.
  simpl negb. cbv iota. unfold statement_of.
  destruct (default false (p_disk p)) eqn:Hd; [|done].
  destruct (Hdisk eq_refl) as [-> ->]. done.
Qed.

(** A request whose cursor is too large is answered before the database
    is asked. *)
Lemma api_queries_cursor_rejected db en p msg :
  check_cursor (largest_db_index db) (p_cursor p) = inr msg ->
  api_queries db en false true (Some p)
  = Json_error 400 "bad_request" "Requested cursor is invalid" (Some msg).
Proof. intros H. unfold api_queries. simpl. by rewrite H. Qed.

(** Rows above the cursor are never emitted. *)
Lemma loop_out_below_cursor cursor start len rows : forall ls,
  Forall (fun r => to_ulong (r_id r) <= cursor) (out ls) ->
  Forall (fun r => to_ulong (r_id r) <= cursor)
         (out (fold_left (loop_step cursor start len) rows ls)).
Proof.
  induction rows as [|r rows IH]; intros ls Hls; simpl; [done|].
  apply IH. unfold loop_step.
  destruct (Z.gtb_spec (to_ulong (r_id r)) cursor); [done|].
  destruct (_ && _); [done|]. destruct (_ && _); [done|]. simpl.
  apply Forall_app. split; [done|]. by apply Forall_singleton.
Qed.

Lemma to_uint_small z : 0 <= z < 2 ^ 32 -> to_uint z = z.
Proof. intros H. unfold to_uint. by apply Z.mod_small. Qed.

(** Without a positive length the loop emits what passes the filters. *)
Lemma loop_without_length cursor start len rows : forall ls,
  len <= 0 ->
  0 <= records ls ->
  records ls + Z.of_nat (List.length rows) < 2 ^ 32 ->
  let ls' := fold_left (loop_step cursor start len) rows ls in
  out ls' = out ls ++ select cursor start (records ls) rows /\
  records ls' = records ls + Z.of_nat (List.length rows).
Proof.
  induction rows as [|r rows IH]; intros ls Hlen Hk Hbound; simpl.
  - rewrite app_nil_r. split; [done|lia].
  - simpl in Hbound.
    assert (Hrec : records (loop_step cursor start len ls r)
                   = records ls + 1).
    { unfold loop_step. rewrite to_uint_small by lia.
      repeat match goal with |- context [if ?b then _ else _] => destruct b end;
        done. }
    destruct (IH (loop_step cursor start len ls r)) as [Hout Hr];
      [done|lia|lia|].
    rewrite Hout, Hr, Hrec. split; [|lia].
    unfold loop_step, passes. rewrite (to_uint_small (records ls + 1)) by lia.
    destruct (Z.gtb_spec len 0); [lia|].
    rewrite Z.gtb_ltb, Z.leb_antisym.
    destruct (cursor <? to_ulong (r_id r)); simpl; [done|].
    destruct (_ && _); simpl; [done|]. by rewrite <- app_assoc.
Qed.

End query_log.

Section query_page.
Import Queries.

Lemma loop_step_fields cursor start len ls r :
  0 < len < 2 ^ 32 ->
  0 <= records ls < 2 ^ 32 - 1 ->
  0 <= added ls <= len ->
  let s1 := loop_step cursor start len ls r in
  records s1 = records ls + 1 /\
  if passes cursor start (records ls + 1) r && (added ls <? len)
  then out s1 = out ls ++ [r] /\ added s1 = added ls + 1
  else out s1 = out ls /\ added s1 = added ls.
Proof.
  intros Hlen Hrec Hadded. unfold loop_step, passes.
  rewrite (to_uint_small (records ls + 1)) by lia.
  rewrite (to_uint_small len) by lia.
  rewrite Z.gtb_ltb, Z.leb_antisym.
  destruct (cursor <? to_ulong (r_id r)); simpl; [done|].
  destruct ((start >? 0) && (start >=? records ls + 1)); simpl; [done|].
  destruct (Z.gtb_spec len 0); [|lia]. simpl.
  destruct (Z.geb_spec (added ls) len);
    destruct (Z.ltb_spec (added ls) len); try lia; simpl; [done|].
  rewrite to_uint_small by lia. done.
Qed.

Lemma loop_with_length cursor start len rows : forall ls,
  0 < len < 2 ^ 32 ->
  0 <= records ls ->
  records ls + Z.of_nat (List.length rows) < 2 ^ 32 ->
  0 <= added ls <= len ->
  let ls' := fold_left (loop_step cursor start len) rows ls in
  out ls' = out ls ++ take (Z.to_nat (len - added ls))
                           (select cursor start (records ls) rows) /\
  records ls' = records ls + Z.of_nat (List.length rows).
Proof.
  induction rows as [|r rows IH]; intros ls Hlen Hrec Hbound Hadded; simpl.
  - rewrite take_nil, app_nil_r. split; [done|lia].
  - simpl in Hbound.
    destruct (loop_step_fields cursor start len ls r) as [Hr1 Hcase];
      [done|lia|done|].
    cbv zeta in Hr1, Hcase.
    destruct (passes cursor start (records ls + 1) r) eqn:Hp; simpl in Hcase.
    + destruct (Z.ltb_spec (added ls) len) as [Hroom|Hfull];
        destruct Hcase as [Hout Hadd];
        (destruct (IH (loop_step cursor start len ls r)) as [Ho Hr];
         [done|lia|lia|lia|]); rewrite Ho, Hr, Hr1, Hout, Hadd;
        (split; [|lia]).
      * rewrite <- app_assoc. simpl.
        replace (Z.to_nat (len - added ls))
          with (S (Z.to_nat (len - (added ls + 1)))) by lia.
        done.
      * replace (Z.to_nat (len - added ls)) with 0%nat by lia. done.
    + destruct Hcase as [Hout Hadd].
      destruct (IH (loop_step cursor start len ls r)) as [Ho Hr];
        [done|lia|lia|lia|].
      rewrite Ho, Hr, Hr1, Hout, Hadd. split; [done|lia].
Qed.

(** The rows the loop emits, without the loop: of the rows of the
    statement, those that pass the cursor and the start filter, and of
    these the first [len] when [len] is positive. *)
Lemma run_loop_page cursor start len rows :
  Z.of_nat (List.length rows) < 2 ^ 32 ->
  len < 2 ^ 32 ->
  out (run_loop cursor start len rows) = page len (select cursor start 0 rows).
Proof.
  intros Hrows Hlen. unfold run_loop, page.
  destruct (Z.ltb_spec 0 len) as [Hpos|Hnon].
  - destruct (loop_with_length cursor start len rows loop_init) as [Ho _];
      simpl; try lia.
    rewrite Ho. simpl. by rewrite Z.sub_0_r.
  - destruct (loop_without_length cursor start len rows loop_init) as [Ho _];
      simpl; try lia.
    rewrite Ho. reflexivity.
Qed.

(** Without a start, a cursor that is not below any row lets every row
    pass. *)
Lemma select_all cursor start rows : forall k,
  start <= 0 ->
  Forall (fun r => to_ulong (r_id r) <= cursor) rows ->
  select cursor start k rows = rows.
Proof.
  induction rows as [|r rows IH]; intros k Hstart Hall; simpl; [done|].
  apply Forall_cons in Hall as [Hr Hall]. unfold passes.
  destruct (Z.leb_spec (to_ulong (r_id r)) cursor); [|lia].
  destruct (Z.gtb_spec start 0); [lia|]. simpl. f_equal. by apply IH.
Qed.

End query_page.

Section query_log_cursor.
Import Queries.

Lemma served_set_cursor db en p bs c :
  served db en (set_cursor c p) bs <-> served db en p bs.
Proof. done. Qed.

Lemma bind_text_not_cursor db name v bs e :
  bind_text db name v bs = inr e -> ~ cursor_rejected e.
Proof.
  unfold bind_text. destruct v; [|done].
  destruct (bind_ok db name); [done|]. intros [= <-] [hint [=]].
Qed.

Lemma bind_enum_not_cursor db name names v bs e :
  name = "type" \/ name = "status" \/ name = "reply" \/ name = "dnssec" ->
  bind_enum db name names v bs = inr e -> ~ cursor_rejected e.
Proof.
  intros Hname. unfold bind_enum. destruct v; [|done].
  destruct (find_enum _ _ _).
  - destruct (bind_ok db name); [done|]. intros [= <-] [hint [=]].
  - intros [= <-] [hint Hh].
    destruct Hname as [->|[->|[->| ->]]]; simpl in Hh; discriminate.
Qed.

Lemma bind_all_not_cursor db en p e :
  bind_all db en p = inr e -> ~ cursor_rejected e.
Proof.
  unfold bind_all.
  destruct (bind_text db "domain" _ _) eqn:E1;
    [|intros [= <-]; by eapply bind_text_not_cursor].
  destruct (bind_text db "client" _ _) eqn:E2;
    [|intros [= <-]; by eapply bind_text_not_cursor].
  destruct (bind_text db "upstream" _ _) eqn:E3;
    [|intros [= <-]; by eapply bind_text_not_cursor].
  destruct (bind_enum db "type" _ _ _) eqn:E4;
    [|intros [= <-]; eapply bind_enum_not_cursor; [|done]; tauto].
  destruct (bind_enum db "status" _ _ _) eqn:E5;
    [|intros [= <-]; eapply bind_enum_not_cursor; [|done]; tauto].
  destruct (bind_enum db "reply" _ _ _) eqn:E6;
    [|intros [= <-]; eapply bind_enum_not_cursor; [|done]; tauto].
  intros E7. eapply bind_enum_not_cursor; [|done]. tauto.
Qed.

(** Once the cursor is accepted, no later step answers that the cursor
    is invalid. *)
Lemma api_queries_cursor_accepted db en p cursor cursor_set :
  check_cursor (largest_db_index db) (p_cursor p) = inl (cursor, cursor_set) ->
  ~ cursor_rejected (api_queries db en false true (Some p)).
Proof.
  intros Hcur. unfold api_queries. simpl negb. cbv iota. rewrite Hcur.
  destruct (_ && negb (attach_ok db)); [intros [hint [=]]|].
  destruct (negb (prepare_ok db)); [intros [hint [=]]|].
  destruct (bind_all db en p) eqn:Hb; [|by eapply bind_all_not_cursor].
  destruct (_ && negb (detach_ok db)); intros [hint [=]].
Qed.

End query_log_cursor.

(** C7: a request of an authorized client (below the maximum privacy
    level) that carries the cursor [unum]:
    - with [unum <= largest_db_index] is not answered "cursor invalid",
      and when the database serves it, the answer repeats [unum] as its
      cursor and holds only rows with an id up to [unum]: of the rows of
      the statement (fewer than 2^32 of them, [length] being an [int])
      those with an id up to [unum] that are not among the first [start]
      rows, and of these the first [length] for a positive [length];
    - with [unum = largest_db_index] gets the very rows of the same
      request without cursor; when no row of the statement has an id
      above [largest_db_index] and there is no [start], these are the
      first [length] rows of the statement, which yields its rows by
      descending id: the most recent ones;
    - with [unum > largest_db_index] is answered with HTTP 400
      ("Requested cursor is invalid") and no rows. *)
Theorem api_queries_cursor_bound (db : Queries.database)
  (en : Queries.enum_names) (p : Queries.params) (unum : Z) :
  Queries.p_cursor p = Queries.Cursor_value unum ->
  let resp := Queries.api_queries db en false true (Some p) in
  let len := default 100 (Queries.p_length p) in
  let start := default 0 (Queries.p_start p) in
  (unum <= Queries.largest_db_index db ->
     ~ cursor_rejected resp /\
     forall bs, served db en p bs ->
       let rows := Queries.rows_of db (statement_of p) bs in
       exists qs rt rf d,
         resp = Queries.Json_queries qs unum rt rf d /\
         Forall (fun r => to_ulong (Queries.r_id r) <= unum) qs /\
         (Z.of_nat (length rows) < 2 ^ 32 -> len < 2 ^ 31 ->
          qs = page len (select unum start 0 rows)) /\
         (unum = Queries.largest_db_index db ->
          (exists c rt' rf' d',
             Queries.api_queries db en false true
               (Some (set_cursor Queries.Cursor_absent p))
             = Queries.Json_queries qs c rt' rf' d') /\
          (Z.of_nat (length rows) < 2 ^ 32 -> len < 2 ^ 31 ->
           Forall (fun r => to_ulong (Queries.r_id r)
                            <= Queries.largest_db_index db) rows ->
           start <= 0 ->
           qs = page len rows))) /\
  (Queries.largest_db_index db < unum ->
     resp = Queries.Json_error 400 "bad_request" "Requested cursor is invalid"
              (Some "Cursor larger than largest database index")).
Proof.
  intros Hc resp len start. subst resp len start. split.
  - intros Hle.
    assert (Hcur : Queries.check_cursor (Queries.largest_db_index db)
                     (Queries.p_cursor p) = inl (unum, true)).
    { rewrite Hc. simpl. destruct (Z.leb_spec unum (Queries.largest_db_index db));
        [done|lia]. }
    split; [by eapply api_queries_cursor_accepted|].
    intros bs Hserved rows.
    rewrite (api_queries_served db en p bs unum true Hserved Hcur).
    fold rows. eexists _, _, _, _. split; [reflexivity|].
    split; [apply loop_out_below_cursor; simpl; done|].
    split; [intros Hrows Hlen; apply run_loop_page; lia|].
    intros ->. split.
    + rewrite (api_queries_served db en (set_cursor Queries.Cursor_absent p) bs
                 (Queries.largest_db_index db) false); [|done|done].
      by eexists _, _, _, _.
    + intros Hrows Hlen Hall Hstart.
      rewrite run_loop_page by lia. f_equal. by apply select_all.
  - intros Hgt. apply api_queries_cursor_rejected. rewrite Hc. simpl.
    destruct (Z.leb_spec unum (Queries.largest_db_index db)); [lia|done].
Qed.

Lemma api_queries_cursor_bound_witness :
  ~ cursor_rejected
      (Queries.api_queries db_three_rows enum_names_sample false true
         (Some (set_cursor (Queries.Cursor_value 10) no_params))) /\
  (exists rt rf d,
     Queries.api_queries db_three_rows enum_names_sample false true
       (Some (set_cursor (Queries.Cursor_value 10) no_params))
     = Queries.Json_queries
         [Queries.mkRow 10 []; Queries.mkRow 9 []; Queries.mkRow 8 []]
         10 rt rf d) /\
  (exists c rt rf d,
     Queries.api_queries db_three_rows enum_names_sample false true
       (Some (set_cursor Queries.Cursor_absent
                (set_cursor (Queries.Cursor_value 10) no_params)))
     = Queries.Json_queries
         [Queries.mkRow 10 []; Queries.mkRow 9 []; Queries.mkRow 8 []]
         c rt rf d) /\
  Queries.api_queries db_three_rows enum_names_sample false true
    (Some (set_cursor (Queries.Cursor_value 11) no_params))
  = Queries.Json_error 400 "bad_request" "Requested cursor is invalid"
      (Some "Cursor larger than largest database index").
Proof.
  destruct (api_queries_cursor_bound db_three_rows enum_names_sample
              (set_cursor (Queries.Cursor_value 10) no_params) 10 eq_refl)
    as [Hle _].
  destruct Hle as [Hnot Hserved]; [simpl; lia|].
  destruct (Hserved []) as (qs & rt & rf & d & Hresp & _ & _ & Hlargest).
  { split; [reflexivity|]. split; [reflexivity|]. intros H. discriminate H. }
  destruct (Hlargest eq_refl) as [(c & rt' & rf' & d' & Hplain) Hrecent].
  assert (Hqs : qs = [Queries.mkRow 10 []; Queries.mkRow 9 [];
                      Queries.mkRow 8 []]).
  { rewrite Hrecent; [reflexivity|simpl; lia|simpl; lia| |simpl; lia].
    repeat constructor; vm_compute; discriminate. }
  subst qs.
  split; [exact Hnot|].
  split; [by exists rt, rf, d|].
  split; [by exists c, rt', rf', d'|].
  refine (proj2 (api_queries_cursor_bound db_three_rows
            enum_names_sample (set_cursor (Queries.Cursor_value 11) no_params)
            11 _) _); [reflexivity|simpl; lia].
Defined.

(** C8, as stated, fails: with [length = 0] (and [draw = 7]) the three
    rows of the database are all emitted; the test that ends the output
    is guarded by [length > 0]. *)
Lemma api_queries_length_zero_emits_rows :
  Queries.api_queries db_three_rows enum_names_sample false true
    (Some (Queries.mkParams None None None None None None (Some 7) (Some 0)
             None Queries.Cursor_absent None None None None))
  = Queries.Json_queries
      [Queries.mkRow 10 []; Queries.mkRow 9 []; Queries.mkRow 8 []] 10 3 3 7.
Proof. reflexivity. Qed.

(** C8, amended: for a request that the database serves (with fewer than
    2^32 rows), a [length] that is not positive, -1 and 0 alike, makes
    the answer hold every row that passes the cursor and the start
    filter; and whatever the length, the answer echoes [draw]. *)
Theorem api_queries_without_length (db : Queries.database)
  (en : Queries.enum_names) (p : Queries.params) (bs : list Queries.binding)
  (cursor : Z) (cursor_set : bool) :
  served db en p bs ->
  Queries.check_cursor (Queries.largest_db_index db) (Queries.p_cursor p)
  = inl (cursor, cursor_set) ->
  let rows := Queries.rows_of db (statement_of p) bs in
  let resp := Queries.api_queries db en false true (Some p) in
  (exists qs c rt rf,
     resp = Queries.Json_queries qs c rt rf (default 0 (Queries.p_draw p))) /\
  (default 100 (Queries.p_length p) <= 0 ->
   Z.of_nat (length rows) < 2 ^ 32 ->
   exists c rt rf,
     resp = Queries.Json_queries
              (select cursor (default 0 (Queries.p_start p)) 0 rows)
              c rt rf (default 0 (Queries.p_draw p))).
Proof.
  intros Hserved Hcur rows resp. subst rows resp.
  rewrite (api_queries_served db en p bs cursor cursor_set Hserved Hcur).
  split; [by eexists _, _, _, _|].
  intros Hlen Hrows.
  destruct (loop_without_length cursor (default 0 (Queries.p_start p))
              (default 100 (Queries.p_length p))
              (Queries.rows_of db (statement_of p) bs) Queries.loop_init)
    as [Hout _]; [done|simpl; lia|simpl; lia|].
  unfold Queries.run_loop. rewrite Hout. simpl. by eexists _, _, _.
Qed.

Lemma api_queries_without_length_witness :
  (exists c rt rf,
     Queries.api_queries db_three_rows enum_names_sample false true
       (Some (Queries.mkParams None None None None None None (Some 7)
                (Some (-1)) (Some 1) Queries.Cursor_absent
                None None None None))
     = Queries.Json_queries [Queries.mkRow 9 []; Queries.mkRow 8 []]
                            c rt rf 7) /\
  (exists c rt rf,
     Queries.api_queries db_three_rows enum_names_sample false true
       (Some (Queries.mkParams None None None None None None (Some 7)
                (Some 0) None (Queries.Cursor_value 9)
                None None None None))
     = Queries.Json_queries [Queries.mkRow 9 []; Queries.mkRow 8 []]
                            c rt rf 7).
Proof.
  split.
  - refine (proj2 (api_queries_without_length db_three_rows enum_names_sample
              (Queries.mkParams None None None None None None (Some 7)
                 (Some (-1)) (Some 1) Queries.Cursor_absent
                 None None None None) [] 10 false _ _) _ _).
    + split; [reflexivity|]. split; [reflexivity|]. intros H. discriminate H.
    + reflexivity.
    + simpl. lia.
    + simpl. lia.
  - refine (proj2 (api_queries_without_length db_three_rows enum_names_sample
              (Queries.mkParams None None None None None None (Some 7)
                 (Some 0) None (Queries.Cursor_value 9)
                 None None None None) [] 9 true _ _) _ _).
    + split; [reflexivity|]. split; [reflexivity|]. intros H. discriminate H.
    + reflexivity.
    + simpl. lia.
    + simpl. lia.
Defined.

(** *** The cursor of the answer *)

Section query_log_snapshot.
Import Queries.

Lemma loop_firstID_kept cursor start len rows : forall ls,
  firstID ls <> -1 ->
  firstID (fold_left (loop_step cursor start len) rows ls) = firstID ls.
Proof.
  induction rows as [|r rows IH]; intros ls Hne; simpl; [done|].
  assert (Hstep : firstID (loop_step cursor start len ls r) = firstID ls).
  { unfold loop_step. destruct (Z.eqb_spec (firstID ls) (-1)); [done|].
    repeat match goal with |- context [if ?b then _ else _] => destruct b end;
      done. }
  rewrite IH; rewrite Hstep; done.
Qed.

Lemma loop_out_prefix cursor start len rows : forall ls,
  out ls `prefix_of` out (fold_left (loop_step cursor start len) rows ls).
Proof.
  induction rows as [|r rows IH]; intros ls; simpl; [done|].
  etrans; [|apply IH]. unfold loop_step.
  repeat match goal with |- context [if ?b then _ else _] => destruct b end;
    simpl; try done; by apply prefix_app_r.
Qed.

(** Rows above the cursor leave the output as it is. *)
Lemma loop_skip_above cursor start len rows : forall ls,
  Forall (fun r => cursor < to_ulong (r_id r)) rows ->
  let ls' := fold_left (loop_step cursor start len) rows ls in
  out ls' = out ls /\ added ls' = added ls.
Proof.
  induction rows as [|r rows IH]; intros ls Hall; simpl; [done|].
  apply Forall_cons in Hall as [Hr Hall].
  destruct (IH (loop_step cursor start len ls r) Hall) as [-> ->].
  unfold loop_step.
  destruct (Z.gtb_spec (to_ulong (r_id r)) cursor); [done|lia].
Qed.

(** Without a start offset, two cursors that are both above all rows
    produce the same output. *)
Lemma loop_same_output cursor1 cursor2 len rows : forall ls1 ls2,
  out ls1 = out ls2 -> added ls1 = added ls2 ->
  Forall (fun r => to_ulong (r_id r) <= cursor1 /\
                   to_ulong (r_id r) <= cursor2) rows ->
  out (fold_left (loop_step cursor1 0 len) rows ls1)
  = out (fold_left (loop_step cursor2 0 len) rows ls2).
Proof.
  induction rows as [|r rows IH]; intros ls1 ls2 Hout Hadd Hall; simpl; [done|].
  apply Forall_cons in Hall as [[H1 H2] Hall].
  apply IH; [| |done]; unfold loop_step;
    destruct (Z.gtb_spec (to_ulong (r_id r)) cursor1); try lia;
    destruct (Z.gtb_spec (to_ulong (r_id r)) cursor2); try lia;
    simpl; rewrite Hadd; destruct (_ && _); simpl; congruence.
Qed.

End query_log_snapshot.

Lemma run_loop_firstID cursor start len rows :
  Queries.firstID (Queries.run_loop cursor start len rows) = first_id rows.
Proof.
  unfold Queries.run_loop.
  assert (H : forall ls, Queries.firstID ls = -1 ->
            Queries.firstID
              (fold_left (Queries.loop_step cursor start len) rows ls)
            = first_id rows).
  { induction rows as [|r rows IH]; intros ls Hls; simpl; [done|].
    assert (Hstep : Queries.firstID (Queries.loop_step cursor start len ls r)
                    = Queries.r_id r).
    { unfold Queries.loop_step. rewrite Hls. simpl.
      repeat match goal with |- context [if ?b then _ else _] => destruct b end;
        done. }
    destruct (Z.eqb_spec (Queries.r_id r) (-1)) as [E|E].
    - apply IH. by rewrite Hstep.
    - rewrite loop_firstID_kept; rewrite Hstep; done. }
  by apply H.
Qed.

(** C9, as stated, fails: with [start = 1] and no cursor, the first row
    emitted is row 9, while the cursor of the answer is 10, the id of the
    first row the database returned. *)
Lemma api_queries_cursor_not_first_emitted :
  Queries.api_queries db_three_rows enum_names_sample false true
    (Some (Queries.mkParams None None None None None None None None
             (Some 1) Queries.Cursor_absent None None None None))
  = Queries.Json_queries [Queries.mkRow 9 []; Queries.mkRow 8 []] 10 3 3 0
  /\ 10 <> Queries.r_id (Queries.mkRow 9 []).
Proof. split; [reflexivity|discriminate]. Qed.

(** C9, amended: in the answer to a request that the database serves,
    - the cursor is the cursor of the request when one was supplied and
      valid;
    - otherwise it is the id of the first row the database returned for
      the statement, before the cursor, start and length filters (-1 when
      it returned none);
    - without a start offset that row is the first row emitted, and,
      the rows coming by descending id, repeating the request with that
      cursor yields the same rows, whatever newer rows the database has
      got in the meantime. *)
Theorem api_queries_answer_cursor (db : Queries.database)
  (en : Queries.enum_names) (p : Queries.params) (bs : list Queries.binding) :
  served db en p bs ->
  - 2 ^ 31 <= default 100 (Queries.p_length p) < 2 ^ 31 ->
  let rows := Queries.rows_of db (statement_of p) bs in
  let resp := Queries.api_queries db en false true (Some p) in
  (forall unum,
     Queries.p_cursor p = Queries.Cursor_value unum ->
     unum <= Queries.largest_db_index db ->
     exists qs rt rf d, resp = Queries.Json_queries qs unum rt rf d) /\
  (Queries.p_cursor p = Queries.Cursor_absent ->
   exists qs rt rf d,
     resp = Queries.Json_queries qs (first_id rows) rt rf d /\
     forall r rest,
       rows = r :: rest ->
       default 0 (Queries.p_start p) = 0 ->
       Forall (fun x => to_ulong (Queries.r_id x) <= Queries.r_id r) rows ->
       Queries.r_id r <= Queries.largest_db_index db ->
       first_id rows = Queries.r_id r /\
       head qs = Some r /\
       forall db' bs' newer,
         served db' en (set_cursor (Queries.Cursor_value (Queries.r_id r)) p)
                bs' ->
         Queries.r_id r <= Queries.largest_db_index db' ->
         Queries.rows_of db' (statement_of p) bs' = newer ++ rows ->
         Forall (fun n => Queries.r_id r < to_ulong (Queries.r_id n)) newer ->
         exists rt' rf' d',
           Queries.api_queries db' en false true
             (Some (set_cursor (Queries.Cursor_value (Queries.r_id r)) p))
           = Queries.Json_queries qs (Queries.r_id r) rt' rf' d').
Proof.
  intros Hserved Hlen rows resp. subst resp. split.
  - intros unum Hc Hle.
    rewrite (api_queries_served db en p bs unum true Hserved).
    + by eexists _, _, _, _.
    + rewrite Hc. simpl.
      destruct (Z.leb_spec unum (Queries.largest_db_index db)); [done|lia].
  - intros Hc.
    rewrite (api_queries_served db en p bs (Queries.largest_db_index db) false
               Hserved) by (by rewrite Hc).
    cbv iota. rewrite run_loop_firstID. fold rows.
    eexists _, _, _, _. split; [reflexivity|].
    intros r rest Hrows Hstart Hdesc Hlargest.
    assert (Hr : to_ulong (Queries.r_id r) <= Queries.r_id r).
    { rewrite Hrows in Hdesc. by apply Forall_cons in Hdesc as [? _]. }
    assert (Hnonneg : 0 <= Queries.r_id r).
    { unfold to_ulong in Hr.
      pose proof (Z.mod_pos_bound (Queries.r_id r) (2 ^ 64)). lia. }
    assert (Hfirst : first_id rows = Queries.r_id r).
    { rewrite Hrows. simpl.
      destruct (Z.eqb_spec (Queries.r_id r) (-1)); [lia|done]. }
    split; [done|]. split.
    + rewrite Hrows, Hstart. unfold Queries.run_loop. simpl.
      pose proof (loop_out_prefix (Queries.largest_db_index db) 0
                    (default 100 (Queries.p_length p)) rest
                    (Queries.loop_step (Queries.largest_db_index db) 0
                       (default 100 (Queries.p_length p))
                       Queries.loop_init r)) as [k Hk].
      rewrite Hk. unfold Queries.loop_step. simpl.
      destruct (Z.gtb_spec (to_ulong (Queries.r_id r))
                           (Queries.largest_db_index db)); [lia|].
      replace (_ && (0 >=? to_uint _)) with false; [done|].
      symmetry. apply andb_false_iff.
      destruct (Z.gtb_spec (default 100 (Queries.p_length p)) 0); [|by left].
      right. rewrite to_uint_small by lia. rewrite Z.geb_leb. apply Z.leb_gt. lia.
    + intros db' bs' newer Hserved' Hlargest' Hrows' Hnewer.
      rewrite (api_queries_served db' en _ bs' (Queries.r_id r) true Hserved').
      2:{ simpl. destruct (Z.leb_spec (Queries.r_id r)
                                      (Queries.largest_db_index db'));
            [done|lia]. }
      cbv iota. eexists _, _, _. f_equal.
      change (statement_of (set_cursor _ p)) with (statement_of p).
      rewrite Hrows'. simpl Queries.p_start. simpl Queries.p_length.
      rewrite Hstart. unfold Queries.run_loop. rewrite fold_left_app.
      destruct (loop_skip_above (Queries.r_id r) 0
                  (default 100 (Queries.p_length p)) newer Queries.loop_init
                  Hnewer) as [Ho Ha].
      apply loop_same_output; [done|done|].
      fold rows. eapply Forall_impl; [exact Hdesc|]. simpl. intros x Hx. lia.
Qed.

Lemma api_queries_answer_cursor_witness :
  (exists qs rt rf d,
     Queries.api_queries db_three_rows enum_names_sample false true
       (Some (set_cursor (Queries.Cursor_value 9) no_params))
     = Queries.Json_queries qs 9 rt rf d) /\
  (exists qs rt rf d,
     Queries.api_queries db_three_rows enum_names_sample false true
       (Some no_params)
     = Queries.Json_queries qs 10 rt rf d).
Proof.
  assert (Hserved : forall c,
            served db_three_rows enum_names_sample (set_cursor c no_params) []).
  { intros c. split; [reflexivity|]. split; [reflexivity|].
    intros H. discriminate H. }
  split.
  - refine (proj1 (api_queries_answer_cursor db_three_rows enum_names_sample
                     (set_cursor (Queries.Cursor_value 9) no_params) []
                     (Hserved _) _) 9 _ _).
    + simpl. lia.
    + reflexivity.
    + simpl. lia.
  - destruct (proj2 (api_queries_answer_cursor db_three_rows enum_names_sample
                       no_params [] (Hserved Queries.Cursor_absent)
                       ltac:(simpl; lia)) eq_refl)
      as (qs & rt & rf & d & Heq & _).
    exists qs, rt, rf, d. exact Heq.
Defined.

(** ** The log parser (parser.c) *)

Section parser_counters.
Import Parser.

Lemma sumZ_app l1 l2 : sumZ (l1 ++ l2) = sumZ l1 + sumZ l2.
Proof. unfold sumZ. induction l1 as [|x l1 IH]; simpl; lia. Qed.

Lemma forwarded_queries_snoc qs q :
  forwarded_queries (qs ++ [q])
  = forwarded_queries qs + (if q_status q =? 2 then 1 else 0).
Proof.
  unfold forwarded_queries. rewrite map_app, sumZ_app. simpl. lia.
Qed.

Lemma store_at_end {A : Type} (dflt x : A) (a : list A) :
  store dflt (length a) x a = a ++ [x].
Proof.
  unfold store. rewrite Nat.ltb_irrefl, Nat.sub_diag. done.
Qed.

Lemma find_status_range domain following :
  0 <= find_status domain following <= 4.
Proof.
  induction following as [|l rest IH]; simpl; [lia|].
  repeat match goal with |- context [if ?b then _ else _] => destruct b end;
    lia.
Qed.

Lemma process_query_line_accounted lc readbuffer following m :
  consistent m -> accounted m ->
  consistent (process_query_line lc readbuffer following m) /\
  accounted (process_query_line lc readbuffer following m).
Proof.
  unfold consistent, accounted, process_query_line. intros Hc Ha.
  destruct (strptime_hour_min lc _) as [tm_hour tm_min].
  destruct (split_query_line readbuffer) as [[domain client]|]; [|done].
  destruct (match find_index d_domain _ _ _ _ with
            | Some _ => _ | None => _ end) as [[domainID domains1] ndomains].
  destruct (match find_index cl_ip _ _ _ _ with
            | Some _ => _ | None => _ end) as [[clientID clients1] nclients].
  cbn [queries counters c_queries].
  replace (Z.to_nat (c_queries (counters m))) with (length (queries m)) by lia.
  rewrite store_at_end, length_app, forwarded_queries_snoc.
  unfold status_sum in *. cbn.
  pose proof (find_status_range domain (take 200 following)) as Hr.
  set (status := find_status domain (take 200 following)) in *.
  split; [lia|].
  destruct (Z.eqb_spec status 0), (Z.eqb_spec status 1),
           (Z.eqb_spec status 2), (Z.eqb_spec status 3),
           (Z.eqb_spec status 4); lia.
Qed.

Lemma process_forwarded_line_accounted lc readbuffer m :
  consistent m -> accounted m ->
  consistent (process_forwarded_line lc readbuffer m) /\
  accounted (process_forwarded_line lc readbuffer m).
Proof.
  unfold process_forwarded_line. intros Hc Ha.
  destruct (String.index 0 _ _); [|done].
  destruct (String.index _ _ _); [|done].
  destruct (find_index _ _ _ _ _); done.
Qed.

Lemma process_line_accounted lc initialscan readbuffer following m :
  consistent m -> accounted m ->
  consistent (process_line lc initialscan readbuffer following m) /\
  accounted (process_line lc initialscan readbuffer following m).
Proof.
  unfold process_line. intros Hc Ha.
  destruct (contains readbuffer "]: query[A");
    [by apply process_query_line_accounted|].
  destruct (contains readbuffer ": forwarded");
    [by apply process_forwarded_line_accounted|].
  destruct (_ && negb initialscan); [done|].
  destruct (contains readbuffer "query[PTR]"); [done|].
  destruct (contains readbuffer "query[SRV]"); done.
Qed.

End parser_counters.

(** C3, as stated, fails: after two forwarded queries the query counter
    is 2, while the counters the status switch increments are all 0 (a
    forwarded query increments none), and the counter named "forwarded"
    counts the one upstream server, not queries. *)
Lemma status_counters_miss_forwarded :
  let c := Parser.counters
             (Parser.process_pihole_log libc_sample false log_two_forwarded
                                        Parser.flushed) in
  Parser.c_queries c = 2 /\
  status_sum c = 0 /\
  Parser.c_forwarded c = 1 /\
  status_sum c <> Parser.c_queries c /\
  status_sum c + Parser.c_forwarded c <> Parser.c_queries c.
Proof. vm_compute. repeat split; discriminate. Qed.

(** C3, amended: after any sequence of lines, read from any state in
    which every stored query is accounted for, the counters the status
    switch increments (unknown, blocked, cached, wildcardblocked) and
    the number of stored queries with status "forwarded" add up to
    [counters.queries]: a query is counted under one status counter, or
    under none when it was forwarded. *)
Theorem process_pihole_log_accounted (lc : Parser.libc) (initialscan : bool)
  (lines : list string) (m : Parser.ftl) :
  consistent m -> accounted m ->
  consistent (Parser.process_pihole_log lc initialscan lines m) /\
  accounted (Parser.process_pihole_log lc initialscan lines m).
Proof.
  revert m. induction lines as [|l rest IH]; intros m Hc Ha; simpl; [done|].
  destruct (process_line_accounted lc initialscan l rest m Hc Ha) as [Hc' Ha'].
  by apply IH.
Qed.

Lemma process_pihole_log_accounted_witness :
  consistent (Parser.process_pihole_log libc_sample false log_two_forwarded
                                        Parser.flushed) /\
  accounted (Parser.process_pihole_log libc_sample false log_two_forwarded
                                       Parser.flushed).
Proof.
  apply (process_pihole_log_accounted libc_sample false log_two_forwarded
           Parser.flushed); reflexivity.
Defined.

(** ** Garbage collection (gc.c) *)

Section garbage_collection.
Import GC.

Lemma gc_evict_queries h m i query :
  queries (gc_evict h m i query)
  = <[i := q_set_status QUERY_UNKNOWN query]> (queries m).
Proof. reflexivity. Qed.

Lemma gc_evict_n_queries h m i query :
  n_queries (gc_evict h m i query) = n_queries m.
Proof. reflexivity. Qed.

Lemma getQuery_nat m (i : nat) :
  getQuery m (Z.of_nat i)
  = match queries m !! i with
    | Some q => if q_magic q then Some q else None
    | None => None
    end.
Proof. unfold getQuery. by rewrite lookupZ_of_nat. Qed.

(** The loop over the queries, started at index [k] with [len] indices to
    go, on slots that all hold queries: it evicts the [e] queries from
    [k] on, all of them not newer than [mintime], stops at the first
    newer one, and leaves the other slots and the counter alone. *)
Lemma gc_loop_spec h mintime : forall (len k : nat) m removed,
  (forall i, (k <= i < k + len)%nat -> live_slot (queries m) i) ->
  exists e : nat,
    (gc_loop h mintime (seq k len) m removed).2 = removed + Z.of_nat e /\
    (e <= len)%nat /\
    n_queries (gc_loop h mintime (seq k len) m removed).1 = n_queries m /\
    length (queries (gc_loop h mintime (seq k len) m removed).1)
    = length (queries m) /\
    (forall i, (k <= i < k + e)%nat ->
       exists q, queries m !! i = Some q /\ q_magic q = true /\
                 q_timestamp q <= mintime /\
                 queries (gc_loop h mintime (seq k len) m removed).1 !! i
                 = Some (q_set_status QUERY_UNKNOWN q)) /\
    (forall i, ~ (k <= i < k + e)%nat ->
       queries (gc_loop h mintime (seq k len) m removed).1 !! i
       = queries m !! i) /\
    ((e < len)%nat ->
       exists q, queries m !! (k + e)%nat = Some q /\
                 mintime < q_timestamp q).
Proof.
  induction len as [|len IH]; intros k m removed Hlive.
  - exists 0%nat. simpl. repeat split; try done; try lia; intros; lia.
  - cbn [seq gc_loop]. rewrite getQuery_nat.
    destruct (Hlive k ltac:(lia)) as (q & Hq & Hmagic).
    rewrite Hq, Hmagic.
    destruct (Z.gtb_spec (q_timestamp q) mintime) as [Hnew|Hold].
    + exists 0%nat. simpl.
      split; [lia|]. split; [lia|]. split; [done|]. split; [done|].
      split; [intros i Hi; lia|]. split; [done|].
      intros _. exists q. rewrite Nat.add_0_r. split; [done|lia].
    + set (m1 := gc_evict h m k q).
      assert (Hqs1 : queries m1
                     = <[k := q_set_status QUERY_UNKNOWN q]> (queries m))
        by apply gc_evict_queries.
      destruct (IH (S k) m1 (removed + 1)) as
        (e & Hrem & Hle & Hn & Hlen & Hev & Hoth & Hstop).
      { intros i Hi. destruct (Hlive i ltac:(lia)) as (q' & Hq' & Hm').
        exists q'. rewrite Hqs1, list_lookup_insert_ne by lia. done. }
      exists (S e). rewrite Hrem, Hn, Hlen, Hqs1, length_insert.
      split; [lia|]. split; [lia|].
      split; [apply gc_evict_n_queries|]. split; [done|].
      split; [|split].
      * intros i Hi. destruct (decide (i = k)) as [->|Hne].
        -- exists q. rewrite Hoth by lia. rewrite Hqs1.
           rewrite list_lookup_insert_eq by (by eapply lookup_lt_Some).
           done.
        -- destruct (Hev i ltac:(lia)) as (q' & Hq' & Hm' & Hts & Hres).
           exists q'. rewrite Hqs1, list_lookup_insert_ne in Hq' by lia.
           done.
      * intros i Hi. rewrite Hoth by lia.
        rewrite Hqs1, list_lookup_insert_ne by lia. done.
      * intros Hlt. destruct (Hstop ltac:(lia)) as (q' & Hq' & Hts).
        exists q'. rewrite Hqs1, list_lookup_insert_ne in Hq' by lia.
        replace (k + S e)%nat with (S k + e)%nat by lia. done.
Qed.

End garbage_collection.

Section garbage_collection_compaction.
Import GC.

Lemma lookup_memmove_front src n a (j : nat) :
  memmove_front src n a !! j
  = match a !! j with
    | Some x => Some (if (j <? n)%nat then default x (a !! (src + j)%nat) else x)
    | None => None
    end.
Proof.
  unfold memmove_front. rewrite list_lookup_imap.
  destruct (a !! j); done.
Qed.

Lemma lookup_memset_zero from n a (j : nat) :
  memset_zero from n a !! j
  = match a !! j with
    | Some x =>
      Some (if ((from <=? j) && (j <? from + n))%nat then zero_query else x)
    | None => None
    end.
Proof.
  unfold memset_zero. rewrite list_lookup_imap.
  destruct (a !! j); done.
Qed.

(** The memory operations after the loop, when [e] of [n] queries were
    removed, [0 < e < n]: the counter becomes [n - e], and live slot [j]
    receives the query of index [e - 1 + j]. *)
Lemma gc_compact_spec m1 (e n : nat) :
  n_queries m1 = Z.of_nat n ->
  (0 < e < n)%nat ->
  (forall i, (i < n)%nat -> live_slot (queries m1) i) ->
  n_queries (gc_compact m1 (Z.of_nat e)) = Z.of_nat (n - e) /\
  forall j : nat, (j < n - e)%nat ->
    queries (gc_compact m1 (Z.of_nat e)) !! j = queries m1 !! (e - 1 + j)%nat.
Proof.
  intros Hn He Hlive. unfold gc_compact.
  destruct (Z.gtb_spec (Z.of_nat e) 0) as [_|?]; [|lia].
  replace (Z.of_nat e - 1) with (Z.of_nat (e - 1)) by lia.
  change (getQuery m1 0) with (getQuery m1 (Z.of_nat 0)).
  rewrite (getQuery_nat m1 0), (getQuery_nat m1 (e - 1)).
  destruct (Hlive 0%nat ltac:(lia)) as (q0 & Hq0 & Hm0). rewrite Hq0, Hm0.
  destruct (Hlive (e - 1)%nat ltac:(lia)) as (ql & Hql & Hml). rewrite Hql, Hml.
  rewrite Hn. replace (Z.of_nat n - Z.of_nat e) with (Z.of_nat (n - e)) by lia.
  rewrite !Nat2Z.id.
  set (qs1 := memmove_front (e - 1) (n - e) (queries m1)).
  cbn [n_queries set_queries]. rewrite getQuery_nat.
  cbn [queries set_queries].
  assert (Hqs1 : forall j : nat, (j < n - e)%nat ->
            qs1 !! j = queries m1 !! (e - 1 + j)%nat).
  { intros j Hj. unfold qs1. rewrite lookup_memmove_front.
    destruct (Hlive j ltac:(lia)) as (qj & Hqj & _). rewrite Hqj.
    destruct (Hlive (e - 1 + j)%nat ltac:(lia)) as (qk & Hqk & _).
    rewrite Hqk. simpl. destruct (Nat.ltb_spec j (n - e)); [done|lia]. }
  assert (Htail : exists qt, qs1 !! (n - e)%nat = Some qt /\ q_magic qt = true).
  { unfold qs1. rewrite lookup_memmove_front.
    destruct (Hlive (n - e)%nat ltac:(lia)) as (qt & Hqt & Hmt).
    rewrite Hqt. exists qt.
    destruct (Nat.ltb_spec (n - e) (n - e)); [lia|done]. }
  destruct Htail as (qt & Hqt & Hmt). rewrite Hqt, Hmt.
  cbn [n_queries set_queries queries]. split; [done|].
  intros j Hj. rewrite lookup_memset_zero, Hqs1 by done.
  destruct (Hlive (e - 1 + j)%nat ltac:(lia)) as (qk & Hqk & _).
  rewrite Hqk, ?Nat2Z.id.
  destruct (Nat.leb_spec (n - e) j); [lia|done].
Qed.

(** What [runGC] leaves in the array when it has evicted some but not all
    queries: the counter goes down by the number [r] of evicted queries,
    but the block moved to the front starts at index [r - 1], so that
    slot 0 holds the last evicted query, which is not newer than
    [mintime], slot [j > 0] holds the query of index [r - 1 + j], and the
    newest query is not among the live ones any more. *)
Lemma runGC_compaction h cfg now lastGCrun m :
  0 <= n_queries m ->
  (forall i, (i < Z.to_nat (n_queries m))%nat -> live_slot (queries m) i) ->
  let mintime := gc_mintime cfg now false in
  let r := (gc_loop h mintime (seq 0 (Z.to_nat (n_queries m))) m 0).2 in
  0 < r < n_queries m ->
  let m' := (runGC h cfg now lastGCrun false m).2 in
  n_queries m' = n_queries m - r /\
  (exists q,
     queries m !! Z.to_nat (r - 1) = Some q /\
     q_timestamp q <= mintime /\
     getQuery m' 0 = Some (q_set_status QUERY_UNKNOWN q)) /\
  (forall j : nat,
     (0 < j < Z.to_nat (n_queries m - r))%nat ->
     queries m' !! j = queries m !! (Z.to_nat (r - 1) + j)%nat).
Proof.
  intros Hn Hlive mintime r Hr m'. subst m' r. unfold runGC.
  fold mintime.
  destruct (gc_loop_spec h mintime (Z.to_nat (n_queries m)) 0 m 0)
    as (e & Hrem & Hle & Hnq & Hlen & Hev & Hoth & Hstop).
  { intros i Hi. apply Hlive. lia. }
  rewrite Z.add_0_l in Hrem.
  destruct (gc_loop h mintime (seq 0 (Z.to_nat (n_queries m))) m 0)
    as [m1 r1]. cbn [fst snd] in *. subst r1.
  assert (Hlive1 : forall i, (i < Z.to_nat (n_queries m))%nat ->
            live_slot (queries m1) i).
  { intros i Hi. destruct (decide (i < e)%nat) as [Hlt|Hge].
    - destruct (Hev i ltac:(lia)) as (q & _ & Hm & _ & Hq1).
      exists (q_set_status QUERY_UNKNOWN q). done.
    - unfold live_slot. rewrite Hoth by lia. by apply Hlive. }
  destruct (gc_compact_spec m1 e (Z.to_nat (n_queries m)))
    as [Hcnt Hslots]; [lia|lia|done|].
  cbn [snd n_queries queries]. split; [lia|].
  replace (Z.to_nat (Z.of_nat e - 1)) with (e - 1)%nat by lia.
  destruct (Hev (e - 1)%nat ltac:(lia))
    as (qlast & Hqlast & Hmlast & Htslast & Hq1last).
  split.
  - exists qlast. split; [done|]. split; [done|].
    replace 0 with (Z.of_nat 0) by done. rewrite getQuery_nat.
    cbn [queries]. rewrite Hslots by lia. rewrite Nat.add_0_r, Hq1last.
    cbn [q_magic q_set_status]. by rewrite Hmlast.
  - intros j Hj. rewrite Hslots by lia. apply Hoth. lia.
Qed.

End garbage_collection_compaction.

Section garbage_collection_eviction.
Import GC.

(** The eviction loop does what is asked of it when the queries come in
    the order of their time stamps: the [r] queries it evicts are not
    newer than [mintime], and every query it leaves is newer. *)
Lemma gc_loop_sorted h mintime m :
  0 <= n_queries m ->
  (forall i, (i < Z.to_nat (n_queries m))%nat -> live_slot (queries m) i) ->
  (forall i j qi qj, (i <= j)%nat ->
     queries m !! i = Some qi -> queries m !! j = Some qj ->
     q_timestamp qi <= q_timestamp qj) ->
  let r := (gc_loop h mintime (seq 0 (Z.to_nat (n_queries m))) m 0).2 in
  0 <= r <= n_queries m /\
  forall (i : nat) q,
    (i < Z.to_nat (n_queries m))%nat -> queries m !! i = Some q ->
    (q_timestamp q <= mintime <-> Z.of_nat i < r).
Proof.
  intros Hn Hlive Hsorted r. subst r.
  destruct (gc_loop_spec h mintime (Z.to_nat (n_queries m)) 0 m 0)
    as (e & Hrem & Hle & _ & _ & Hev & _ & Hstop).
  { intros i Hi. apply Hlive. lia. }
  rewrite Hrem. split; [lia|].
  intros i q Hi Hq. split.
  - intros Hts. destruct (decide (i < e)%nat) as [|Hge]; [lia|].
    destruct (Hstop ltac:(lia)) as (qe & Hqe & Hnew). simpl in Hqe.
    pose proof (Hsorted e i qe q ltac:(lia) Hqe Hq). lia.
  - intros Hlt. destruct (Hev i ltac:(lia)) as (q' & Hq' & _ & Hts & _).
    congruence.
Qed.

(** When no query is newer than [mintime], [runGC] leaves no live
    query. *)
Lemma runGC_all_evicted h cfg now lastGCrun m :
  0 <= n_queries m ->
  (forall i, (i < Z.to_nat (n_queries m))%nat ->
     exists q, queries m !! i = Some q /\ q_magic q = true /\
               q_timestamp q <= gc_mintime cfg now false) ->
  n_queries (runGC h cfg now lastGCrun false m).2 = 0.
Proof.
  intros Hn Hall. unfold runGC.
  set (mintime := gc_mintime cfg now false) in *.
  destruct (gc_loop_spec h mintime (Z.to_nat (n_queries m)) 0 m 0)
    as (e & Hrem & Hle & Hnq & _ & _ & _ & Hstop).
  { intros i Hi. destruct (Hall i ltac:(lia)) as (q & Hq & Hm & _).
    by exists q. }
  assert (He : e = Z.to_nat (n_queries m)).
  { destruct (decide (e < Z.to_nat (n_queries m))%nat) as [Hlt|]; [|lia].
    destruct (Hstop Hlt) as (q & Hq & Hnew). simpl in Hq.
    destruct (Hall e Hlt) as (q' & Hq' & _ & Hold). 
    assert (q = q') by congruence. subst q'. lia. }
  destruct (gc_loop h mintime (seq 0 (Z.to_nat (n_queries m))) m 0)
    as [m1 r1]. cbn [fst snd] in *. subst r1.
  cbn [snd n_queries]. unfold gc_compact.
  destruct (Z.gtb_spec (0 + Z.of_nat e) 0) as [Hpos|Hzero].
  - destruct (getQuery _ _); cbn [n_queries set_queries]; lia.
  - lia.
Qed.

End garbage_collection_eviction.

(** C6 at a failing input: whatever the helper functions do to the
    aggregates, after [runGC] on the old and the new query the counter
    has gone down by one, for the one evicted query, but the live query
    it leaves in slot 0 is the evicted one (time stamp 100, not above
    [mintime = 13200], status reset to UNKNOWN), and the new query is gone
    from the array: the block moved to the front starts one slot too
    early. *)
Theorem runGC_keeps_evicted_drops_newest (h : GC.helpers) :
  let m' := (GC.runGC h cfg_5_per_60 100000 (Some 0) false shm_old_and_new).2 in
  GC.gc_mintime cfg_5_per_60 100000 false = 13200 /\
  GC.n_queries m' = GC.n_queries shm_old_and_new - 1 /\
  GC.queries m'
  = [GC.q_set_status GC.QUERY_UNKNOWN gc_query_old;
     GC.zero_query; GC.zero_query; GC.zero_query] /\
  (exists q, GC.getQuery m' 0 = Some q /\ GC.q_timestamp q <= 13200).
Proof.
  cbv zeta. split; [reflexivity|]. split; [reflexivity|].
  split; [reflexivity|]. eexists. split; [reflexivity|]. simpl. lia.
Qed.

(* ===================================================================== *)
(** * Further properties *)
(* ===================================================================== *)

(** Properties of the code around the claims: the session table and its
    endpoints, the housekeeping pass, paging and suggestions of the query
    API, the tables of the parser, configuration paths and the redirect
    of the web server. *)

(** Case analysis on the condition of the conditional at the head of an
    equation. *)
Ltac case_head_if :=
  match goal with
  | |- (if ?b then _ else _) = _ -> _ => destruct b
  end.


(** ** C strings *)
Section c_strings.

Lemma substring_all s : String.substring 0 (String.length s) s = s.
Proof. induction s as [|c s IH]; simpl; [done|by rewrite IH]. Qed.

Lemma append_cons c s t : String c s +:+ t = String c (s +:+ t).
Proof. reflexivity. Qed.

Lemma append_nil t : "" +:+ t = t.
Proof. reflexivity. Qed.

Lemma prefix_split p : forall s,
  String.prefix p s = true ->
  s = p +:+ String.substring (String.length p)
                             (String.length s - String.length p) s.
Proof.
  induction p as [|a p IH]; intros s H; simpl in *.
  - by rewrite Nat.sub_0_r, substring_all, append_nil.
  - destruct s as [|b s]; [done|]. simpl in *.
    destruct (ascii_dec a b) as [->|]; [|done].
    rewrite append_cons. f_equal. by apply IH.
Qed.

Lemma index_split (c : ascii) d : forall k,
  String.index 0 (String c "") d = Some k ->
  d = String.substring 0 k d
      +:+ String c (String.substring (S k) (String.length d - S k) d).
Proof.
  induction d as [|b d IH]; intros k H; simpl in H; [done|].
  destruct (ascii_dec c b) as [->|Hne].
  - simpl in H.
    assert (String.prefix "" d = true) as Hp by (by destruct d).
    rewrite Hp in H. injection H as <-. simpl. by rewrite append_nil, Nat.sub_0_r, substring_all.
  - simpl in H.
    destruct (String.index 0 (String c "") d) as [n|] eqn:Hi; [|done].
    injection H as <-. simpl. rewrite append_cons. f_equal. by apply IH.
Qed.

Lemma prefix_append p s : String.prefix p (p +:+ s) = true.
Proof.
  induction p as [|a p IH]; [by destruct s|].
  rewrite append_cons. simpl. by destruct (ascii_dec a a).
Qed.

Lemma substring_append p s n :
  n = String.length p ->
  String.substring n (String.length (p +:+ s) - n) (p +:+ s) = s.
Proof.
  intros ->. induction p as [|a p IH].
  - by rewrite append_nil, Nat.sub_0_r, substring_all.
  - rewrite append_cons. simpl. apply IH.
Qed.

End c_strings.


(** ** api/auth.c: the session table *)
Section session_table.
Import Auth.

Lemma auth_data_add_request_info c st :
  auth_data (add_request_info c st) = auth_data st.
Proof. done. Qed.

(** What [check_client_auth] does to the session table. *)
Lemma check_client_auth_table cfg now api is_api st :
  let r := check_client_auth cfg now api is_api st in
  (r.1 < 0 /\ auth_data r.2 = auth_data st) \/
  (exists (i : nat) sid_req source s,
     r.1 = Z.of_nat i /\
     request_sid api = Some (sid_req, source) /\
     first_match now (req_remote_addr api) sid_req (auth_data st) i s /\
     auth_data r.2 = alter (touch_session cfg now (is_ssl api)) i (auth_data st)).
Proof.
  unfold check_client_auth.
  destruct (negb (localAPIauth cfg) && is_local_api_user (req_remote_addr api)).
  { left. simpl. unfold API_AUTH_LOCALHOST. split; [lia|done]. }
  destruct (bool_decide (pwhash cfg = "")).
  { left. simpl. unfold API_AUTH_EMPTYPASS. split; [lia|done]. }
  destruct (request_sid api) as [[sid_req source]|].
  2:{ left. simpl. rewrite auth_data_log_debug. unfold API_AUTH_UNAUTHORIZED.
      split; [lia|done]. }
  cbv zeta.
  match goal with
  | |- context [match ?c with Some _ => _ | None => _ end] =>
    destruct c as [csrf_req|]
  end.
  2:{ left. simpl. rewrite !auth_data_log_debug. unfold API_AUTH_UNAUTHORIZED.
      split; [lia|done]. }
  rewrite auth_data_log_debug.
  pose proof (search_slots_spec now (req_remote_addr api) sid_req
                csrf_req (auth_data st) 0) as Hs.
  destruct (search_slots now (req_remote_addr api) sid_req
              csrf_req 0 (auth_data st)) as [i|i|].
  2,3: left; simpl; rewrite !auth_data_log_debug; unfold API_AUTH_UNAUTHORIZED;
       split; [lia|done].
  destruct Hs as (k & s & -> & Hf & _). simpl in *.
  right. exists k, sid_req, source, s.
  split; [done|]. split; [done|]. split; [done|].
  unfold log_debug. by destruct (debug_api cfg).
Qed.

Lemma check_client_auth_used cfg now api is_api st (i : nat) :
  (check_client_auth cfg now api is_api st).1 = Z.of_nat i ->
  exists s, auth_data st !! i = Some s /\ used s = true.
Proof.
  intros Hr.
  destruct (check_client_auth_table cfg now api is_api st)
    as [[Hneg _]|(k & sid_req & source & s & Hk & _ & (Hl & Hm & _) & _)].
  - lia.
  - assert (k = i) as -> by lia.
    apply slot_matches_true in Hm as (Hu & _). by exists s.
Qed.

Lemma get_all_sessions_loop_ids cfg now uid slots : forall i0 e,
  e ∈ get_all_sessions_loop cfg now uid i0 slots <->
  exists (k : nat) s,
    slots !! k = Some s /\ used s = true /\
    e = mkSessionJson (Z.of_nat (i0 + k)) (bool_decide (Z.of_nat (i0 + k) = uid))
          (valid_until s >=? now) (tls_login s) (tls_mixed s) (login_at s)
          (valid_until s - session_timeout cfg) (valid_until s)
          (remote_addr s) (user_agent s) (app s).
Proof.
  induction slots as [|s rest IH]; intros i0 e; simpl.
  - split.
    + intros H. by apply not_elem_of_nil in H.
    + intros (k & s & Hk & _). by rewrite lookup_nil in Hk.
  - destruct (used s) eqn:Hu; simpl.
    + rewrite elem_of_cons, IH. split.
      * intros [->|(k & s' & Hk & Hu' & ->)].
        -- exists 0%nat, s. rewrite Nat.add_0_r. done.
        -- exists (S k), s'. rewrite Nat.add_succ_r. done.
      * intros ([|k] & s' & Hk & Hu' & ->); simpl in Hk.
        -- left. injection Hk as <-. by rewrite Nat.add_0_r.
        -- right. exists k, s'. by rewrite Nat.add_succ_r.
    + rewrite IH. split.
      * intros (k & s' & Hk & Hu' & ->).
        exists (S k), s'. rewrite Nat.add_succ_r. done.
      * intros ([|k] & s' & Hk & Hu' & ->); simpl in Hk.
        -- injection Hk as <-. congruence.
        -- exists k, s'. by rewrite Nat.add_succ_r.
Qed.

Lemma get_all_sessions_loop_sorted cfg now uid slots : forall i0,
  Forall (fun e => Z.of_nat i0 <= sj_id e)
         (get_all_sessions_loop cfg now uid i0 slots) /\
  forall (j k : nat) ej ek, (j < k)%nat ->
    get_all_sessions_loop cfg now uid i0 slots !! j = Some ej ->
    get_all_sessions_loop cfg now uid i0 slots !! k = Some ek ->
    sj_id ej < sj_id ek.
Proof.
  induction slots as [|s rest IH]; intros i0; simpl.
  - split; [constructor|]. intros j k ej ek _ Hj. by rewrite lookup_nil in Hj.
  - destruct (IH (S i0)) as [Hb Hs].
    assert (Hb' : Forall (fun e => Z.of_nat i0 < sj_id e)
                    (get_all_sessions_loop cfg now uid (S i0) rest)).
    { eapply Forall_impl; [exact Hb|]. simpl. intros. lia. }
    destruct (used s); simpl.
    + split.
      * constructor; [simpl; lia|].
        eapply Forall_impl; [exact Hb'|]. simpl. intros; lia.
      * intros j [|k] ej ek Hjk Hj Hk; [lia|]. simpl in Hk.
        destruct j as [|j]; simpl in Hj.
        -- injection Hj as <-. simpl.
           rewrite Forall_lookup in Hb'. by apply (Hb' k).
        -- apply (Hs j k); [lia|done|done].
    + split; [|done]. eapply Forall_impl; [exact Hb'|]. simpl. intros; lia.
Qed.

End session_table.

(** X1: [check_client_auth] keeps the length of the session table and
    every slot but the one it returns. In the slot it returns it sets
    [valid_until] to [now + sessionTimeout] and sets [tls_mixed] when the
    TLS state of the request differs from that of the login; the other
    fields of the slot stay. A negative verdict leaves the whole table as
    it was. *)
Theorem check_client_auth_frame (cfg : Auth.auth_config) (now : Z)
  (api : Auth.ftl_conn) (is_api : bool) (st : Auth.state) :
  let r := Auth.check_client_auth cfg now api is_api st in
  length (Auth.auth_data r.2) = length (Auth.auth_data st) /\
  (forall j : nat, Z.of_nat j <> r.1 ->
     Auth.auth_data r.2 !! j = Auth.auth_data st !! j) /\
  (forall j : nat, Z.of_nat j = r.1 ->
     exists s, Auth.auth_data st !! j = Some s /\
       Auth.auth_data r.2 !! j
       = Some (Auth.mkSession (Auth.used s) (Auth.app s) (Auth.tls_login s)
                 (Auth.tls_mixed s
                  || negb (eqb (Auth.is_ssl api) (Auth.tls_login s)))
                 (Auth.login_at s) (now + Auth.session_timeout cfg)
                 (Auth.sid s) (Auth.csrf s) (Auth.remote_addr s)
                 (Auth.user_agent s))).
Proof.
  intros r. subst r.
  destruct (check_client_auth_table cfg now api is_api st)
    as [[Hneg Heq]|(k & sid_req & source & s & Hk & _ & (Hl & _) & Heq)].
  - rewrite Heq. split; [done|]. split; [done|]. intros j Hj. lia.
  - rewrite Heq, Hk. split; [by rewrite length_alter|]. split.
    + intros j Hj. apply list_lookup_alter_ne. lia.
    + intros j Hj. assert (j = k) as -> by lia. exists s. split; [done|].
      by rewrite list_lookup_alter_eq, Hl.
Qed.

(** X2: [get_all_sessions] lists the slots in use, expired ones included,
    in the order of the table: an id is listed exactly when its slot is in
    use, and the ids increase along the list. In an entry,
    [current_session] tells whether the id is the [user_id] of the
    request, [valid] whether [valid_until >= now], and [last_active] is
    [valid_until - sessionTimeout]. *)
Theorem get_all_sessions_lists_used_slots (cfg : Auth.auth_config) (now : Z)
  (st : Auth.state) :
  let sessions := Auth.get_all_sessions cfg now st in
  (forall i : nat,
     Z.of_nat i ∈ map Auth.sj_id sessions <->
     exists s, Auth.auth_data st !! i = Some s /\ Auth.used s = true) /\
  (forall (j k : nat) ej ek, (j < k)%nat ->
     sessions !! j = Some ej -> sessions !! k = Some ek ->
     Auth.sj_id ej < Auth.sj_id ek) /\
  (forall e, e ∈ sessions ->
     exists (i : nat) s,
       Auth.auth_data st !! i = Some s /\ Auth.sj_id e = Z.of_nat i /\
       (Auth.sj_current_session e = true <-> Z.of_nat i = Auth.user_id st) /\
       (Auth.sj_valid e = true <-> now <= Auth.valid_until s) /\
       Auth.sj_last_active e
       = Auth.valid_until s - Auth.session_timeout cfg).
Proof.
  intros sessions. subst sessions. unfold Auth.get_all_sessions.
  split; [|split].
  - intros i. rewrite list_elem_of_fmap. split.
    + intros (e & He & Hin).
      apply get_all_sessions_loop_ids in Hin as (k & s & Hk & Hu & ->).
      simpl in He. assert (i = k) as -> by lia. by exists s.
    + intros (s & Hl & Hu). eexists. split; [|apply get_all_sessions_loop_ids].
      2:{ exists i, s. split; [done|]. split; [done|]. reflexivity. }
      done.
  - apply get_all_sessions_loop_sorted.
  - intros e Hin.
    apply get_all_sessions_loop_ids in Hin as (k & s & Hk & Hu & ->).
    exists k, s. simpl. split; [done|]. split; [done|]. split; [|split; [|done]].
    + by rewrite bool_decide_eq_true.
    + rewrite Z.geb_leb. apply Z.leb_le.
Qed.

(** X3: [api_auth_session_delete] answers 400 "bad_request" and leaves the
    state as it is when the request names no session id, or an id that is
    not that of a slot in use (negative, beyond the table, or of an unused
    slot). *)
Theorem api_auth_session_delete_rejects (scanned : option Z)
  (st : Auth.state) :
  (forall uid s, scanned = Some uid ->
     lookupZ (Auth.auth_data st) uid = Some s -> Auth.used s = false) ->
  exists message,
    Auth.api_auth_session_delete scanned st
    = (400, Auth.Error_body "bad_request" message None, st).
Proof.
  intros Hfree. unfold Auth.api_auth_session_delete, Auth.send_json_error.
  destruct scanned as [uid|]; [|by eexists].
  destruct ((uid <=? Auth.API_AUTH_UNAUTHORIZED)
            || (uid >=? Z.of_nat (length (Auth.auth_data st)))) eqn:Hb;
    [by eexists|].
  destruct (lookupZ (Auth.auth_data st) uid) as [s|] eqn:Hl; simpl.
  - rewrite (Hfree uid s eq_refl Hl). simpl. by eexists.
  - by eexists.
Qed.

Lemma api_auth_session_delete_rejects_witness :
  exists message,
    Auth.api_auth_session_delete (Some 1) one_session
    = (400, Auth.Error_body "bad_request" message None, one_session).
Proof.
  apply (api_auth_session_delete_rejects (Some 1) one_session).
  intros uid s [= <-]. vm_compute. discriminate.
Defined.

(** X4: [api_auth_session_delete] with the id of a slot in use answers 204
    without a body, zeroes that slot ([delete_session]) and leaves the
    other slots alone. In the state reached, [get_session_object]
    describes the id as an invalid session and [check_client_auth] returns
    that slot for no request. *)
Theorem api_auth_session_delete_deletes (uid : Z) (s : Auth.session)
  (st : Auth.state) :
  lookupZ (Auth.auth_data st) uid = Some s ->
  Auth.used s = true ->
  exists st',
    Auth.api_auth_session_delete (Some uid) st = (204, Auth.No_body, st') /\
    lookupZ (Auth.auth_data st') uid = Some Auth.zero_session /\
    (forall j : nat, Z.of_nat j <> uid ->
       Auth.auth_data st' !! j = Auth.auth_data st !! j) /\
    (forall cfg now,
       Auth.get_session_object cfg st' uid now
       = Auth.Session_body false (Auth.has_totp cfg) None None (-1)) /\
    (forall cfg now api is_api,
       (Auth.check_client_auth cfg now api is_api st').1 <> uid).
Proof.
  intros Hl Hu.
  pose proof (lookupZ_Some_range _ _ _ Hl) as Hr.
  exists (Auth.delete_session uid st).
  assert (Hdel : Auth.auth_data (Auth.delete_session uid st)
                 = <[Z.to_nat uid := Auth.zero_session]> (Auth.auth_data st)).
  { unfold Auth.delete_session.
    destruct (Z.ltb_spec uid 0); [lia|].
    destruct (Z.geb_spec uid (Z.of_nat (length (Auth.auth_data st)))); [lia|].
    done. }
  assert (Hz : lookupZ (Auth.auth_data (Auth.delete_session uid st)) uid
               = Some Auth.zero_session).
  { rewrite Hdel, lookupZ_nonneg by lia.
    apply list_lookup_insert_eq. lia. }
  split; [|split; [done|split; [|split]]].
  - unfold Auth.api_auth_session_delete, Auth.API_AUTH_UNAUTHORIZED.
    destruct (Z.leb_spec uid (-1)); [lia|].
    destruct (Z.geb_spec uid (Z.of_nat (length (Auth.auth_data st)))); [lia|].
    simpl. rewrite Hl. simpl. by rewrite Hu.
  - intros j Hj. rewrite Hdel. apply list_lookup_insert_ne. lia.
  - intros cfg now.
    unfold Auth.get_session_object, Auth.API_AUTH_LOCALHOST,
      Auth.API_AUTH_EMPTYPASS, Auth.API_AUTH_UNAUTHORIZED.
    rewrite !bool_decide_eq_false_2 by lia. simpl.
    destruct (Z.gtb_spec uid (-1)); [|lia]. by rewrite Hz.
  - intros cfg now api is_api Heq.
    assert (Hi : (Auth.check_client_auth cfg now api is_api
                    (Auth.delete_session uid st)).1 = Z.of_nat (Z.to_nat uid))
      by (rewrite Z2Nat.id; [done|lia]).
    apply check_client_auth_used in Hi as (s' & Hl' & Hu').
    rewrite lookupZ_nonneg in Hz by lia. rewrite Hl' in Hz.
    injection Hz as ->. done.
Qed.

Lemma api_auth_session_delete_deletes_witness :
  exists st',
    Auth.api_auth_session_delete (Some 0) one_session
    = (204, Auth.No_body, st') /\
    lookupZ (Auth.auth_data st') 0 = Some Auth.zero_session /\
    (forall j : nat, Z.of_nat j <> 0 ->
       Auth.auth_data st' !! j = Auth.auth_data one_session !! j) /\
    (forall cfg now,
       Auth.get_session_object cfg st' 0 now
       = Auth.Session_body false (Auth.has_totp cfg) None None (-1)) /\
    (forall cfg now api is_api,
       (Auth.check_client_auth cfg now api is_api st').1 <> 0).
Proof.
  apply (api_auth_session_delete_deletes 0
           (Auth.mkSession true false false false 1000 1300 sid_A csrf_B
                           "192.168.0.2" "curl") one_session); reflexivity.
Defined.

(** X5: [delete_all_sessions] keeps the length of the table and leaves no
    session: [get_all_sessions] lists nothing, and a request that has to
    present a session (no bypass for the local host, and a password is
    set) is answered [API_AUTH_UNAUTHORIZED] whatever it carries. *)
Theorem delete_all_sessions_leaves_none (cfg : Auth.auth_config) (now : Z)
  (api : Auth.ftl_conn) (is_api : bool) (st : Auth.state) :
  needs_session cfg api ->
  let st' := Auth.delete_all_sessions st in
  length (Auth.auth_data st') = length (Auth.auth_data st) /\
  Auth.get_all_sessions cfg now st' = [] /\
  (Auth.check_client_auth cfg now api is_api st').1
  = Auth.API_AUTH_UNAUTHORIZED.
Proof.
  intros [Hlocal Hpw] st'. subst st'. unfold Auth.delete_all_sessions. simpl.
  split; [by rewrite length_replicate|]. split.
  - unfold Auth.get_all_sessions. simpl. generalize 0%nat.
    induction (length (Auth.auth_data st)) as [|n IH]; intros i; simpl; [done|].
    apply IH.
  - destruct (check_client_auth_table cfg now api is_api
                (Auth.set_auth_data
                   (replicate (length (Auth.auth_data st)) Auth.zero_session) st))
      as [[Hneg _]|(k & sid_req & source & s & Hk & _ & (Hl & Hm & _) & _)].
    + revert Hneg. unfold Auth.check_client_auth. rewrite Hlocal.
      rewrite bool_decide_eq_false_2 by done.
      destruct (Auth.request_sid api) as [[sid_req source]|]; [|done].
      cbv zeta.
      match goal with
      | |- context [match ?c with Some _ => _ | None => _ end] =>
        destruct c as [csrf_req|]
      end; [|done].
      destruct (Auth.search_slots _ _ _ _ _ _); simpl; [lia|done|done].
    + simpl in Hl. apply lookup_replicate in Hl as [-> _].
      apply slot_matches_true in Hm as (Hu & _). done.
Qed.

Lemma delete_all_sessions_leaves_none_witness :
  let st' := Auth.delete_all_sessions one_session in
  length (Auth.auth_data st') = length (Auth.auth_data one_session) /\
  Auth.get_all_sessions cfg_password 1200 st' = [] /\
  (Auth.check_client_auth cfg_password 1200 request_with_header true st').1
  = Auth.API_AUTH_UNAUTHORIZED.
Proof.
  apply (delete_all_sessions_leaves_none cfg_password 1200 request_with_header
           true one_session).
  split; [reflexivity|discriminate].
Defined.


Section login_slots.
Import Auth.

Lemma login_loop_spec cfg now api result fs fc slots : forall i0,
  let r := login_loop cfg now api result fs fc i0 slots in
  match r.1.1 with
  | Some i =>
    exists (k : nat) s,
      i = (i0 + k)%nat /\ slots !! k = Some s /\ free_slot now s = true /\
      (forall j s', (j < k)%nat -> slots !! j = Some s' ->
                    free_slot now s' = false) /\
      r.1.2 = <[k := (new_session cfg now api result fs fc
                        (if used s then zero_session else s)).1]> slots
  | None =>
    (forall j s', slots !! j = Some s' -> free_slot now s' = false) /\
    r.1.2 = slots
  end.
Proof.
  induction slots as [|s rest IH]; intros i0; simpl.
  - split; [|done]. intros j s' Hj. by rewrite lookup_nil in Hj.
  - unfold free_slot in *.
    destruct (used s) eqn:Hu; simpl.
    + destruct (valid_until s <? now) eqn:Hv; simpl.
      * destruct (new_session cfg now api result fs fc zero_session)
          as [s2 lg2] eqn:Hn. simpl.
        exists 0%nat, s. rewrite Hu, Hv, Hn. simpl.
        split; [lia|]. split; [done|]. split; [done|]. split; [|done].
        intros j s' Hj. lia.
      * rewrite Hu. simpl. specialize (IH (S i0)). simpl in IH.
        destruct (login_loop cfg now api result fs fc (S i0) rest)
          as [[r rest'] lg'] eqn:Hloop. simpl in *.
        destruct r as [i|].
        -- destruct IH as (k & s' & -> & Hk & Hf & Hfirst & ->).
           exists (S k), s'. split; [lia|]. split; [done|]. split; [done|].
           split; [|done].
           intros [|j] s'' Hj Hl; simpl in Hl.
           ++ injection Hl as <-. by rewrite Hu, Hv.
           ++ apply (Hfirst j); [lia|done].
        -- destruct IH as [Hall ->]. split; [|done].
           intros [|j] s'' Hl; simpl in Hl.
           ++ injection Hl as <-. by rewrite Hu, Hv.
           ++ by apply (Hall j).
    + rewrite Hu. simpl.
      destruct (new_session cfg now api result fs fc s) as [s2 lg2] eqn:Hn.
      simpl. exists 0%nat, s. rewrite Hu, Hn. simpl.
      split; [lia|]. split; [done|]. split; [done|]. split; [|done].
      intros j s' Hj. lia.
Qed.

Lemma new_session_fields cfg now api result fs fc s :
  let s' := (new_session cfg now api result fs fc s).1 in
  used s' = true /\ login_at s' = now /\
  valid_until s' = now + session_timeout cfg /\
  remote_addr s' = strncpy 47 (req_remote_addr api) /\
  app s' = bool_decide (result = APPPASSWORD_CORRECT) /\
  tls_login s' = is_ssl api.
Proof.
  unfold new_session.
  destruct (generateSID fs (sid s)) as [sid' l1].
  destruct (generateSID fc (csrf s)) as [csrf' l2]. simpl. done.
Qed.

End login_slots.

(** X6: the loop of [api_auth] that looks for an authentication slot takes
    the first slot that is unused or expired ([valid_until < now]): the
    slots before it are live, it alone changes, and it becomes a slot in
    use with [login_at = now], [valid_until = now + sessionTimeout] and
    the first 47 characters of the remote address. When every slot is live
    the loop finds none and the table stays as it is. In both cases the
    table keeps its length and every live session stays. *)
Theorem login_loop_takes_first_free (cfg : Auth.auth_config) (now : Z)
  (api : Auth.ftl_conn) (result : Auth.password_result)
  (fresh_sid fresh_csrf : option string) (slots : list Auth.session) :
  let r := Auth.login_loop cfg now api result fresh_sid fresh_csrf 0 slots in
  let slots' := r.1.2 in
  length slots' = length slots /\
  (forall j s, slots !! j = Some s -> free_slot now s = false ->
               slots' !! j = Some s) /\
  match r.1.1 with
  | Some i =>
    (forall j : nat, j <> i -> slots' !! j = slots !! j) /\
    (forall j s, (j < i)%nat -> slots !! j = Some s ->
                 free_slot now s = false) /\
    exists s s',
      slots !! i = Some s /\ free_slot now s = true /\
      slots' !! i = Some s' /\
      Auth.used s' = true /\ Auth.login_at s' = now /\
      Auth.valid_until s' = now + Auth.session_timeout cfg /\
      Auth.remote_addr s' = Auth.strncpy 47 (Auth.req_remote_addr api)
  | None =>
    slots' = slots /\
    forall j s, slots !! j = Some s -> free_slot now s = false
  end.
Proof.
  intros r slots'. subst slots'.
  pose proof (login_loop_spec cfg now api result fresh_sid fresh_csrf slots 0)
    as H. fold r in H. simpl in H.
  destruct (r.1.1) as [i|].
  - destruct H as (k & s & -> & Hk & Hf & Hfirst & ->). simpl.
    split; [by rewrite length_insert|]. split.
    { intros j s0 Hj Hnf. rewrite list_lookup_insert_ne; [done|].
      intros <-. congruence. }
    split; [intros j Hj; by apply list_lookup_insert_ne|].
    split; [done|].
    destruct (new_session_fields cfg now api result fresh_sid fresh_csrf
                (if Auth.used s then Auth.zero_session else s))
      as (H1 & H2 & H3 & H4 & _).
    eexists s, _. split; [done|]. split; [done|]. split.
    { apply list_lookup_insert_eq. by eapply lookup_lt_Some. }
    done.
  - destruct H as [Hall ->]. done.
Qed.

Section login_answers.
Import Auth.

Lemma auth_data_add_logs l st : auth_data (add_logs l st) = auth_data st.
Proof. done. Qed.

Lemma auth_data_log_warn fmt args st :
  auth_data (log_warn fmt args st) = auth_data st.
Proof. done. Qed.

Lemma auth_data_log_info fmt args st :
  auth_data (log_info fmt args st) = auth_data st.
Proof. done. Qed.

(** An answer of [send_api_auth_status] with code 200 that carries a
    session identifier is about a slot in use. *)
Lemma send_api_auth_status_sid cfg api uid now st v t s c validity st' :
  send_api_auth_status cfg api uid now st
  = (200, Session_body v t (Some s) c validity, st') ->
  exists sess,
    lookupZ (auth_data st) uid = Some sess /\ used sess = true /\
    sid sess = s /\ auth_data st' = auth_data st.
Proof.
  unfold send_api_auth_status.
  destruct (bool_decide (uid = API_AUTH_LOCALHOST)) eqn:H1.
  { unfold get_session_object. rewrite H1. simpl. intros [=]. }
  destruct (bool_decide (uid = API_AUTH_EMPTYPASS)) eqn:H2.
  { unfold get_session_object. rewrite H1, H2. simpl. intros [=]. }
  destruct ((uid >? API_AUTH_UNAUTHORIZED)
            && (bool_decide (method api = HTTP_GET)
                || bool_decide (method api = HTTP_POST))) eqn:H3.
  - apply andb_true_iff in H3 as [Hgt _].
    unfold get_session_object. rewrite H1, H2, Hgt. simpl.
    rewrite auth_data_log_debug.
    destruct (lookupZ (auth_data st) uid) as [sess|]; [|intros [=]].
    destruct (used sess) eqn:Hu; [|intros [=]].
    intros [= <- <- <- <- <- <-]. exists sess. simpl.
    by rewrite auth_data_log_debug.
  - destruct ((uid >? API_AUTH_UNAUTHORIZED)
              && bool_decide (method api = HTTP_DELETE)); intros [=].
Qed.

(** The verdict of [check_client_auth] names a slot that is in use, has
    just been renewed and belongs to the address of the request. *)
Lemma check_client_auth_renewed cfg now api is_api st uid :
  (check_client_auth cfg now api is_api st).1 = uid ->
  0 <= uid ->
  exists sess,
    lookupZ (auth_data (check_client_auth cfg now api is_api st).2) uid
    = Some sess /\
    used sess = true /\
    valid_until sess = now + session_timeout cfg /\
    remote_addr sess = req_remote_addr api.
Proof.
  intros Hr Hpos.
  destruct (check_client_auth_table cfg now api is_api st)
    as [[Hneg _]|(k & sid_req & source & s & Hk & _ & (Hl & Hm & _) & Heq)].
  - lia.
  - rewrite Heq, <- Hr, Hk, lookupZ_of_nat.
    rewrite list_lookup_alter_eq, Hl. simpl.
    apply slot_matches_true in Hm as (Hu & _ & Hra & _).
    eexists. split; [done|]. done.
Qed.

End login_answers.

Section login_round_trip.
Import Auth.


Lemma strncpy_short n s : (String.length s <= n)%nat -> strncpy n s = s.
Proof.
  unfold strncpy. revert n. induction s as [|c s IH]; intros [|n] H; simpl in *;
    try done; try lia.
  f_equal. apply IH. lia.
Qed.

Lemma api_auth_login_sid env cfg now fs fc api uid password st
      v t s c validity st' :
  api_auth_login env cfg now fs fc api uid password st
  = (200, Session_body v t (Some s) c validity, st') ->
  (String.length (req_remote_addr api) <= 47)%nat ->
  (forall sess, lookupZ (auth_data st) uid = Some sess -> used sess = true ->
     valid_until sess = now + session_timeout cfg /\
     remote_addr sess = req_remote_addr api) ->
  exists uid',
    renewed_slot cfg now (req_remote_addr api) s (auth_data st') uid'.
Proof.
  intros Hrun Hlen Hold. unfold api_auth_login in Hrun. cbv zeta in Hrun.
  remember (log_info ("Password: " +:+ dquote +:+ "%s" +:+ dquote)
                     [arg_of password] st) as st1 eqn:Est1.
  remember (if bool_decide (pwhash cfg = "") && no_password password
            then PASSWORD_CORRECT else verify_login env password)
    as result eqn:Eresult.
  assert (Hst1 : auth_data st1 = auth_data st) by (by subst st1).
  clear Est1 Eresult.
  destruct (bool_decide (result = PASSWORD_CORRECT)
            || bool_decide (result = APPPASSWORD_CORRECT)).
  - destruct (has_totp cfg && negb (bool_decide (result = APPPASSWORD_CORRECT))
              && negb (non_null
                         match payload_json api with
                         | Some j => j_totp j | None => None end));
      [discriminate|].
    match type of Hrun with
    | (if ?b then _ else _) = _ => destruct b; [discriminate|]
    end.
    pose proof (login_loop_spec cfg now api result fs fc (auth_data st1) 0)
      as Hspec. simpl in Hspec.
    destruct (login_loop cfg now api result fs fc 0 (auth_data st1))
      as [[found slots] lg]. simpl in Hspec.
    apply send_api_auth_status_sid in Hrun
      as (sess & Hl & Hu & Hsid & Heq).
    assert (Hslots : forall u (stx : state),
      auth_data
        (if bool_decide (u = API_AUTH_UNAUTHORIZED)
         then log_warn "No free API seats available, not authenticating client"
                       [] stx
         else stx) = auth_data stx).
    { intros u stx. destruct (bool_decide (u = API_AUTH_UNAUTHORIZED));
        reflexivity. }
    rewrite Hslots in Hl, Heq.
    assert (Hslots2 : forall u args,
      auth_data
        (if u >? API_AUTH_UNAUTHORIZED
         then log_debug cfg
                "API: Registered new user: user_id %i valid_until: %s remote_addr %s (accepted due to %s)"
                args (add_logs lg (set_auth_data slots st1))
         else add_logs lg (set_auth_data slots st1)) = slots).
    { intros u args. destruct (u >? _);
        [by rewrite auth_data_log_debug|reflexivity]. }
    rewrite Hslots2 in Hl, Heq.
    destruct found as [i|].
    + destruct Hspec as (k & s0 & -> & Hk & Hf & _ & ->). simpl in *.
      exists (Z.of_nat k). exists sess. rewrite Heq.
      split; [done|]. split; [done|]. split; [done|].
      rewrite lookupZ_of_nat, list_lookup_insert_eq in Hl
        by (by eapply lookup_lt_Some).
      injection Hl as <-.
      destruct (new_session_fields cfg now api result fs fc
                  (if used s0 then zero_session else s0))
        as (_ & _ & Hv & Hr & _).
      split; [done|]. rewrite Hr. by apply strncpy_short.
    + destruct Hspec as [_ ->]. rewrite Hst1 in Hl.
      destruct (Hold sess Hl Hu) as [Hv Hr].
      exists uid, sess. rewrite Heq, Hst1. done.
  - destruct (bool_decide (result = PASSWORD_RATE_LIMITED)); [discriminate|].
    apply send_api_auth_status_sid in Hrun
      as (sess & Hl & Hu & Hsid & Heq).
    rewrite auth_data_log_debug, Hst1 in Hl, Heq.
    destruct (Hold sess Hl Hu) as [Hv Hr].
    exists uid, sess. rewrite Heq. done.
Qed.

Lemma check_client_auth_renewed_slot cfg now api st sess :
  lookupZ (auth_data (check_client_auth cfg now api false st).2)
          (check_client_auth cfg now api false st).1 = Some sess ->
  used sess = true ->
  valid_until sess = now + session_timeout cfg /\
  remote_addr sess = req_remote_addr api.
Proof.
  intros Hl Hu.
  pose proof (lookupZ_Some_range _ _ _ Hl) as [Hpos _].
  destruct (check_client_auth_renewed cfg now api false st _ eq_refl Hpos)
    as (sess' & Hl' & _ & Hv & Hr).
  rewrite Hl in Hl'. injection Hl' as <-. done.
Qed.

Lemma api_auth_sid env cfg now fs fc api st v t s c validity st' :
  api_auth env cfg now fs fc api st
  = (200, Session_body v t (Some s) c validity, st') ->
  (String.length (req_remote_addr api) <= 47)%nat ->
  exists uid',
    renewed_slot cfg now (req_remote_addr api) s (auth_data st') uid'.
Proof.
  intros Hrun Hlen. unfold api_auth in Hrun.
  destruct (api_auth_before_login env cfg now api st)
    as [answer|[[uid password] st1]] eqn:Hbefore.
  - subst answer. unfold api_auth_before_login in Hbefore.
    destruct (match item api with
              | Some it => (0 <? String.length it)%nat
              | None => false end); [discriminate|].
    pose proof (check_client_auth_renewed_slot cfg now api st) as Hold.
    destruct (check_client_auth cfg now api false st) as [uid st1].
    simpl in Hold.
    assert (Hstatus : forall stx,
      auth_data stx = auth_data st1 ->
      send_api_auth_status cfg api uid now stx
      = (200, Session_body v t (Some s) c validity, st') ->
      exists uid',
        renewed_slot cfg now (req_remote_addr api) s (auth_data st') uid').
    { intros stx Hx Hs.
      apply send_api_auth_status_sid in Hs as (sess & Hl & Hu & Hsid & Heq).
      rewrite Hx in Hl, Heq. destruct (Hold sess Hl Hu) as [Hv Hr].
      exists uid, sess. rewrite Heq. done. }
    assert (Hafter : forall password0,
      (let password :=
         if no_password password0 then basic_auth env api else password0 in
       if negb (bool_decide (uid = API_AUTH_UNAUTHORIZED))
          && no_password password
       then inl (send_api_auth_status cfg api uid now st1)
       else if bool_decide (method api = HTTP_DELETE)
       then inl (send_api_auth_status cfg api uid now
                   (log_debug cfg "API Auth: User with ID %i wants to log out"
                              [A_int uid] st1))
       else if negb (non_null password)
               && negb (bool_decide (pwhash cfg = ""))
       then inl (send_api_auth_status cfg api uid now st1)
       else inr (uid, password, st1))
      = inl (200, Session_body v t (Some s) c validity, st') ->
      exists uid',
        renewed_slot cfg now (req_remote_addr api) s (auth_data st') uid').
    { intros password0. cbv zeta.
      case_head_if.
      { intros [= H]. by apply (Hstatus st1). }
      case_head_if.
      { intros [= H]. apply (Hstatus _ (auth_data_log_debug _ _ _ _) H). }
      case_head_if; [|discriminate].
      intros [= H]. by apply (Hstatus st1). }
    destruct (bool_decide (method api = HTTP_POST)).
    + destruct (payload_json api) as [j|].
      * destruct (j_password j) as [[valuestring| |]|];
          try discriminate.
        by apply (Hafter (Some valuestring)).
      * destruct (payload_json_error api); discriminate.
    + by apply (Hafter None).
  - assert (Huid : uid = (check_client_auth cfg now api false st).1 /\
                   st1 = (check_client_auth cfg now api false st).2).
    { unfold api_auth_before_login in Hbefore.
      destruct (match item api with
                | Some it => (0 <? String.length it)%nat
                | None => false end); [discriminate|].
      destruct (check_client_auth cfg now api false st) as [uid0 st0].
      simpl.
      assert (Hafter : forall password0,
        (let password :=
           if no_password password0 then basic_auth env api else password0 in
         if negb (bool_decide (uid0 = API_AUTH_UNAUTHORIZED))
            && no_password password
         then inl (send_api_auth_status cfg api uid0 now st0)
         else if bool_decide (method api = HTTP_DELETE)
         then inl (send_api_auth_status cfg api uid0 now
                     (log_debug cfg "API Auth: User with ID %i wants to log out"
                                [A_int uid0] st0))
         else if negb (non_null password)
                 && negb (bool_decide (pwhash cfg = ""))
         then inl (send_api_auth_status cfg api uid0 now st0)
         else inr (uid0, password, st0))
        = inr (uid, password, st1) -> uid = uid0 /\ st1 = st0).
      { intros password0. cbv zeta.
        do 3 (case_head_if; [discriminate|]).
        intros [= <- _ <-]. done. }
      destruct (bool_decide (method api = HTTP_POST)).
      - destruct (payload_json api) as [j|].
        + destruct (j_password j) as [[valuestring| |]|];
            try discriminate.
          by apply (Hafter (Some valuestring)).
        + destruct (payload_json_error api); discriminate.
      - by apply (Hafter None). }
    destruct Huid as [-> ->].
    eapply api_auth_login_sid; [exact Hrun|done|].
    apply check_client_auth_renewed_slot.
Qed.

Lemma check_client_auth_accepts cfg now api is_api st s source uid :
  request_sid api = Some (s, source) ->
  (source = From_cookie -> is_api = false) ->
  (exists sess,
     lookupZ (auth_data st) uid = Some sess /\ used sess = true /\
     sid sess = s /\ now <= valid_until sess /\
     remote_addr sess = req_remote_addr api) ->
  (check_client_auth cfg now api is_api st).1 <> API_AUTH_UNAUTHORIZED.
Proof.
  intros Hsid Hsrc (sess & Hl & Hu & Hs & Hv & Hr).
  unfold check_client_auth.
  destruct (negb (localAPIauth cfg) && is_local_api_user (req_remote_addr api));
    [done|].
  destruct (bool_decide (pwhash cfg = "")); [done|].
  rewrite Hsid. cbv zeta.
  assert (Hneed : bool_decide (source = From_cookie) && is_api = false).
  { destruct (bool_decide (source = From_cookie)) eqn:Hc; [|done].
    apply bool_decide_eq_true in Hc. by rewrite (Hsrc Hc). }
  rewrite Hneed, auth_data_log_debug.
  pose proof (search_slots_spec now (req_remote_addr api) s None
                (auth_data st) 0) as Hspec.
  destruct (search_slots now (req_remote_addr api) s None 0 (auth_data st))
    as [i|i|]; simpl.
  - unfold API_AUTH_UNAUTHORIZED. lia.
  - destruct Hspec as (_ & _ & tok & _ & _ & Habs & _). discriminate.
  - pose proof (lookupZ_Some_range _ _ _ Hl) as [Hpos _].
    rewrite lookupZ_nonneg in Hl by done.
    specialize (Hspec _ _ Hl).
    assert (slot_matches now (req_remote_addr api) s sess = true)
      by (by apply slot_matches_true).
    congruence.
Qed.

End login_round_trip.

(** X7: login and authentication fit together. When [api_auth] answers 200
    with a session id [s] for a request whose remote address has at most
    47 characters, a request from the same address that presents [s]
    (anywhere but in the cookie, or for a page outside the API, where no
    CSRF token is asked for) at a time up to [now + sessionTimeout] is not
    answered [API_AUTH_UNAUTHORIZED] by [check_client_auth]. *)
Theorem api_auth_session_is_accepted (env : Auth.auth_env)
  (cfg : Auth.auth_config) (now : Z) (fresh_sid fresh_csrf : option string)
  (api : Auth.ftl_conn) (st st' : Auth.state)
  (valid totp : bool) (s : string) (c : option string) (validity : Z)
  (api' : Auth.ftl_conn) (now' : Z) (is_api : bool)
  (source : Auth.sid_source) :
  Auth.api_auth env cfg now fresh_sid fresh_csrf api st
  = (200, Auth.Session_body valid totp (Some s) c validity, st') ->
  (String.length (Auth.req_remote_addr api) <= 47)%nat ->
  Auth.req_remote_addr api' = Auth.req_remote_addr api ->
  Auth.request_sid api' = Some (s, source) ->
  (source = Auth.From_cookie -> is_api = false) ->
  now' <= now + Auth.session_timeout cfg ->
  (Auth.check_client_auth cfg now' api' is_api st').1
  <> Auth.API_AUTH_UNAUTHORIZED.
Proof.
  intros Hrun Hlen Hremote Hsid Hsrc Hnow.
  destruct (api_auth_sid _ _ _ _ _ _ _ _ _ _ _ _ _ Hrun Hlen)
    as (uid' & sess & Hl & Hu & Hs & Hv & Hr).
  apply (check_client_auth_accepts cfg now' api' is_api st' s source uid');
    [done|done|].
  exists sess. rewrite Hremote. repeat (split; [done|]). split; [lia|done].
Qed.

Lemma api_auth_session_is_accepted_witness :
  (String.length (Auth.req_remote_addr (login_request "hunter2" request_base))
   <= 47)%nat /\
  (Auth.check_client_auth cfg_password 1500 request_with_header true
     (Auth.api_auth env_hunter2 cfg_password 1400 (Some sid_A) (Some csrf_B)
        (login_request "hunter2" request_base) one_session).2).1
  <> Auth.API_AUTH_UNAUTHORIZED.
Proof.
  split; [vm_compute; lia|].
  apply (api_auth_session_is_accepted env_hunter2 cfg_password 1400
           (Some sid_A) (Some csrf_B) (login_request "hunter2" request_base)
           one_session _ true false sid_A (Some csrf_B) 300
           request_with_header 1500 true Auth.From_header);
    [reflexivity|vm_compute; lia|reflexivity|reflexivity|discriminate|
     vm_compute; discriminate].
Defined.

Section logout.
Import Auth.

Lemma send_api_auth_status_delete cfg api uid now st :
  method api = HTTP_DELETE ->
  0 <= uid < Z.of_nat (length (auth_data st)) ->
  send_api_auth_status cfg api uid now st
  = (410, Session_body false (has_totp cfg) None None (-1),
     set_headers Delete_cookie
       (delete_session uid
          (log_debug cfg "API Auth status: Logout, asking to delete cookie"
                     [] st))).
Proof.
  intros Hm Hr. unfold send_api_auth_status, API_AUTH_LOCALHOST,
    API_AUTH_EMPTYPASS, API_AUTH_UNAUTHORIZED.
  rewrite !bool_decide_eq_false_2 by lia. rewrite Hm. simpl.
  destruct (Z.gtb_spec uid (-1)); [|lia]. simpl.
  f_equal. f_equal.
  unfold get_session_object, API_AUTH_LOCALHOST,
    API_AUTH_EMPTYPASS, API_AUTH_UNAUTHORIZED.
  rewrite !bool_decide_eq_false_2 by lia. simpl.
  destruct (Z.gtb_spec uid (-1)); [|lia].
  unfold delete_session. rewrite auth_data_log_debug.
  destruct (Z.ltb_spec uid 0); [lia|].
  destruct (Z.geb_spec uid (Z.of_nat (length (auth_data st)))); [lia|].
  simpl. rewrite lookupZ_nonneg by lia.
  rewrite list_lookup_insert_eq by (rewrite ?auth_data_log_debug; lia).
  done.
Qed.

End logout.

(** X8: logout. A DELETE request to the endpoint itself that
    [check_client_auth] attributes to slot [uid >= 0] is answered 410 with
    the body of an invalid session and the header that deletes the cookie;
    slot [uid] is zeroed, the other slots stay, and in the state reached
    [check_client_auth] returns [uid] for no request. *)
Theorem api_auth_logout (env : Auth.auth_env) (cfg : Auth.auth_config)
  (now : Z) (fresh_sid fresh_csrf : option string) (api : Auth.ftl_conn)
  (st : Auth.state) :
  Auth.method api = Auth.HTTP_DELETE ->
  Auth.item api = None ->
  0 <= (Auth.check_client_auth cfg now api false st).1 ->
  let uid := (Auth.check_client_auth cfg now api false st).1 in
  exists st',
    Auth.api_auth env cfg now fresh_sid fresh_csrf api st
    = (410, Auth.Session_body false (Auth.has_totp cfg) None None (-1), st') /\
    Auth.pi_hole_extra_headers st' = Auth.Delete_cookie /\
    lookupZ (Auth.auth_data st') uid = Some Auth.zero_session /\
    (forall j : nat, Z.of_nat j <> uid ->
       Auth.auth_data st' !! j = Auth.auth_data st !! j) /\
    (forall cfg' now' api' is_api',
       (Auth.check_client_auth cfg' now' api' is_api' st').1 <> uid).
Proof.
  intros Hm Hitem Hpos uid.
  destruct (check_client_auth_table cfg now api false st)
    as [[Hneg _]|(k & sid_req & source & s & Hk & _ & (Hl & _) & Heq)];
    [subst uid; lia|].
  assert (Hrange : 0 <= uid
                   < Z.of_nat (length (Auth.auth_data
                       (Auth.check_client_auth cfg now api false st).2))).
  { subst uid. rewrite Heq, length_alter, Hk.
    apply lookup_lt_Some in Hl. lia. }
  assert (Hrun : exists stx,
    Auth.auth_data stx
    = Auth.auth_data (Auth.check_client_auth cfg now api false st).2 /\
    Auth.api_auth env cfg now fresh_sid fresh_csrf api st
    = Auth.send_api_auth_status cfg api uid now stx).
  { unfold Auth.api_auth, Auth.api_auth_before_login. rewrite Hitem, Hm.
    subst uid.
    destruct (Auth.check_client_auth cfg now api false st) as [u st1].
    simpl. destruct (negb (bool_decide (u = Auth.API_AUTH_UNAUTHORIZED)) && _).
    - by exists st1.
    - eexists. split; [|reflexivity]. apply auth_data_log_debug. }
  destruct Hrun as (stx & Hx & ->).
  rewrite send_api_auth_status_delete by (by rewrite ?Hx).
  eexists. split; [reflexivity|]. split; [done|].
  assert (Hdel : Auth.auth_data
            (Auth.set_headers Auth.Delete_cookie
               (Auth.delete_session uid
                  (Auth.log_debug cfg
                     "API Auth status: Logout, asking to delete cookie" [] stx)))
          = <[Z.to_nat uid := Auth.zero_session]>
              (alter (Auth.touch_session cfg now (Auth.is_ssl api)) k
                     (Auth.auth_data st))).
  { unfold Auth.delete_session. rewrite auth_data_log_debug, Hx.
    destruct (Z.ltb_spec uid 0); [lia|].
    destruct (Z.geb_spec uid (Z.of_nat (length (Auth.auth_data
                (Auth.check_client_auth cfg now api false st).2)))); [lia|].
    simpl. by rewrite Heq. }
  rewrite Hdel. fold uid in Hk. rewrite Hk, Nat2Z.id.
  assert (Hlen : (k < length (alter (Auth.touch_session cfg now (Auth.is_ssl api))
                                    k (Auth.auth_data st)))%nat).
  { rewrite length_alter. by eapply lookup_lt_Some. }
  split; [|split].
  - rewrite lookupZ_of_nat. by apply list_lookup_insert_eq.
  - intros j Hj. rewrite list_lookup_insert_ne by lia.
    apply list_lookup_alter_ne. lia.
  - intros cfg' now' api' is_api' Habs.
    apply check_client_auth_used in Habs as (s' & Hl' & Hu').
    rewrite <- Hk in Hl'.
    rewrite Hdel, Hk, Nat2Z.id, list_lookup_insert_eq in Hl' by done.
    by injection Hl' as <-.
Qed.

Lemma api_auth_logout_witness :
  exists st',
    Auth.api_auth env_reject_all cfg_password 1200 None None
      (Auth.mkConn "192.168.0.2" false Auth.HTTP_DELETE None false None None
                   None (Some sid_A) None None None None None) one_session
    = (410, Auth.Session_body false false None None (-1), st') /\
    Auth.pi_hole_extra_headers st' = Auth.Delete_cookie /\
    lookupZ (Auth.auth_data st') 0 = Some Auth.zero_session /\
    (forall j : nat, Z.of_nat j <> 0 ->
       Auth.auth_data st' !! j = Auth.auth_data one_session !! j) /\
    (forall cfg' now' api' is_api',
       (Auth.check_client_auth cfg' now' api' is_api' st').1 <> 0).
Proof.
  apply (api_auth_logout env_reject_all cfg_password 1200 None None
           (Auth.mkConn "192.168.0.2" false Auth.HTTP_DELETE None false None
                        None None (Some sid_A) None None None None None)
           one_session); [reflexivity|reflexivity|vm_compute; discriminate].
Defined.

(** A login attempt of a client that has not been recognised, with the
    password accepted and every slot taken by a live session. *)
Lemma api_auth_login_full_table (env : Auth.auth_env)
  (cfg : Auth.auth_config) (now : Z) (fresh_sid fresh_csrf : option string)
  (api : Auth.ftl_conn) (password : option string) (st : Auth.state) :
  (forall j s, Auth.auth_data st !! j = Some s -> free_slot now s = false) ->
  Auth.verify_login env password = Auth.PASSWORD_CORRECT ->
  Auth.has_totp cfg = false ->
  exists st',
    Auth.api_auth_login env cfg now fresh_sid fresh_csrf api
      Auth.API_AUTH_UNAUTHORIZED password st
    = (401, Auth.Session_body false false None None (-1), st') /\
    Auth.auth_data st' = Auth.auth_data st /\
    Auth.pi_hole_extra_headers st' = Auth.Delete_cookie /\
    Auth.mkLog Auth.LOG_WARN
      "No free API seats available, not authenticating client" []
    ∈ Auth.log st'.
Proof.
  intros Hfull Hpw Htotp. unfold Auth.api_auth_login. cbv zeta.
  assert (Hres : (if bool_decide (Auth.pwhash cfg = "")
                     && Auth.no_password password
                  then Auth.PASSWORD_CORRECT
                  else Auth.verify_login env password)
                 = Auth.PASSWORD_CORRECT).
  { by destruct (_ && _). }
  rewrite Hres, Htotp. simpl.
  pose proof (login_loop_spec cfg now api Auth.PASSWORD_CORRECT fresh_sid
                fresh_csrf (Auth.auth_data st) 0) as Hspec.
  simpl in Hspec.
  destruct (Auth.login_loop cfg now api Auth.PASSWORD_CORRECT fresh_sid
              fresh_csrf 0 (Auth.auth_data st)) as [[found slots] lg].
  simpl in Hspec. destruct found as [i|].
  { destruct Hspec as (k & s & _ & Hk & Hf & _). rewrite (Hfull k s Hk) in Hf.
    discriminate. }
  destruct Hspec as [_ ->]. simpl.
  unfold Auth.send_api_auth_status, Auth.get_session_object. simpl.
  rewrite Htotp. eexists. split; [reflexivity|]. simpl.
  unfold Auth.log_debug. destruct (Auth.debug_api cfg); simpl.
  - split; [done|]. split; [done|].
    rewrite !elem_of_app. left. right. apply list_elem_of_here.
  - split; [done|]. split; [done|].
    rewrite !elem_of_app. right. apply list_elem_of_here.
Qed.

(** X9: when every slot holds a live session, a login (a POST with the
    password [p] in its JSON body) of a client that [check_client_auth]
    does not recognise, with the correct password and no TOTP
    configured, is answered by [api_auth] with 401 and the body of an
    invalid session: the table stays as it is, the cookie is deleted, and
    the log gets the warning "No free API seats available, not
    authenticating client". *)
Theorem api_auth_login_no_free_seat (env : Auth.auth_env)
  (cfg : Auth.auth_config) (now : Z) (fresh_sid fresh_csrf : option string)
  (api : Auth.ftl_conn) (p : string) (st : Auth.state) :
  p <> "" ->
  (Auth.check_client_auth cfg now (login_request p api) false st).1
  = Auth.API_AUTH_UNAUTHORIZED ->
  (forall j s, Auth.auth_data st !! j = Some s -> free_slot now s = false) ->
  Auth.verify_login env (Some p) = Auth.PASSWORD_CORRECT ->
  Auth.has_totp cfg = false ->
  exists st',
    Auth.api_auth env cfg now fresh_sid fresh_csrf (login_request p api) st
    = (401, Auth.Session_body false false None None (-1), st') /\
    Auth.auth_data st' = Auth.auth_data st /\
    Auth.pi_hole_extra_headers st' = Auth.Delete_cookie /\
    Auth.mkLog Auth.LOG_WARN
      "No free API seats available, not authenticating client" []
    ∈ Auth.log st'.
Proof.
  intros Hp Hverdict Hfull Hpw Htotp. unfold Auth.api_auth.
  rewrite (before_login_request env cfg now api st p Hp), Hverdict.
  destruct (check_client_auth_table cfg now (login_request p api) false st)
    as [[_ Htable]|(k & _ & _ & _ & Hk & _)];
    [|rewrite Hverdict in Hk; unfold Auth.API_AUTH_UNAUTHORIZED in Hk; lia].
  destruct (api_auth_login_full_table env cfg now fresh_sid fresh_csrf
              (login_request p api) (Some p)
              (Auth.check_client_auth cfg now (login_request p api) false st).2)
    as (st' & Hrun & Hdata & Hhdr & Hlog); [|done|done|].
  { intros j s. rewrite Htable. apply Hfull. }
  exists st'. rewrite Hrun, Hdata, Htable. done.
Qed.

Lemma api_auth_login_no_free_seat_witness :
  exists st',
    Auth.api_auth env_hunter2 cfg_password 1200 None None
      (login_request "hunter2" request_base) one_session
    = (401, Auth.Session_body false false None None (-1), st') /\
    Auth.auth_data st' = Auth.auth_data one_session /\
    Auth.pi_hole_extra_headers st' = Auth.Delete_cookie /\
    Auth.mkLog Auth.LOG_WARN
      "No free API seats available, not authenticating client" []
    ∈ Auth.log st'.
Proof.
  apply (api_auth_login_no_free_seat env_hunter2 cfg_password 1200 None None
           request_base "hunter2" one_session);
    [discriminate|reflexivity| |reflexivity|reflexivity].
  intros [|j] s Hl; simpl in Hl; [|by rewrite lookup_nil in Hl].
  injection Hl as <-. reflexivity.
Defined.

(** X10: a login attempt (the login part of [api_auth], for a POST or GET
    request of a client not yet authenticated) changes the session table
    only when it is answered 200, and is answered 200 only when
    [verify_login] accepted the password or the application password, or
    when no password is set and none was given; with TOTP configured and
    the password (not the application password) accepted, only when the
    payload carries a TOTP that [verifyTOTP] accepts. *)
Theorem api_auth_login_changes_on_success (env : Auth.auth_env)
  (cfg : Auth.auth_config) (now : Z) (fresh_sid fresh_csrf : option string)
  (api : Auth.ftl_conn) (password : option string) (st : Auth.state) :
  Auth.method api = Auth.HTTP_POST \/ Auth.method api = Auth.HTTP_GET ->
  let r := Auth.api_auth_login env cfg now fresh_sid fresh_csrf api
             Auth.API_AUTH_UNAUTHORIZED password st in
  (r.1.1 = 200 \/ Auth.auth_data r.2 = Auth.auth_data st) /\
  (r.1.1 = 200 ->
   Auth.verify_login env password = Auth.PASSWORD_CORRECT \/
   Auth.verify_login env password = Auth.APPPASSWORD_CORRECT \/
   (Auth.pwhash cfg = "" /\ Auth.no_password password = true)) /\
  (r.1.1 = 200 -> Auth.has_totp cfg = true ->
   Auth.verify_login env password = Auth.PASSWORD_CORRECT ->
   exists j totp,
     Auth.payload_json api = Some j /\ Auth.j_totp j = Some totp /\
     Auth.verifyTOTP env (Auth.valueint_of totp) = true).
Proof.
  intros Hmethod r. subst r. unfold Auth.api_auth_login. cbv zeta.
  remember (Auth.log_info ("Password: " +:+ Auth.dquote +:+ "%s" +:+ Auth.dquote)
              [Auth.arg_of password] st) as st1 eqn:Est1.
  assert (Hst1 : Auth.auth_data st1 = Auth.auth_data st) by (by subst st1).
  clear Est1.
  assert (Hres :
    (if bool_decide (Auth.pwhash cfg = "") && Auth.no_password password
     then Auth.PASSWORD_CORRECT else Auth.verify_login env password)
    = Auth.verify_login env password \/
    ((if bool_decide (Auth.pwhash cfg = "") && Auth.no_password password
      then Auth.PASSWORD_CORRECT else Auth.verify_login env password)
     = Auth.PASSWORD_CORRECT /\
     Auth.pwhash cfg = "" /\ Auth.no_password password = true)).
  { destruct (bool_decide (Auth.pwhash cfg = "")) eqn:Hpw; [|by left].
    apply bool_decide_eq_true in Hpw.
    destruct (Auth.no_password password); simpl; [by right|by left]. }
  remember (if bool_decide (Auth.pwhash cfg = "") && Auth.no_password password
            then Auth.PASSWORD_CORRECT else Auth.verify_login env password)
    as result eqn:Eresult. clear Eresult.
  assert (Hunauth : forall stx,
    Auth.auth_data stx = Auth.auth_data st ->
    let a := Auth.send_api_auth_status cfg api Auth.API_AUTH_UNAUTHORIZED
               now stx in
    a.1.1 = 401 /\ Auth.auth_data a.2 = Auth.auth_data st).
  { intros stx Hx. simpl. split; [done|]. by rewrite auth_data_log_debug. }
  destruct (bool_decide (result = Auth.PASSWORD_CORRECT)
            || bool_decide (result = Auth.APPPASSWORD_CORRECT)) eqn:Hok.
  - assert (Haccepted :
      Auth.verify_login env password = Auth.PASSWORD_CORRECT \/
      Auth.verify_login env password = Auth.APPPASSWORD_CORRECT \/
      (Auth.pwhash cfg = "" /\ Auth.no_password password = true)).
    { apply orb_true_iff in Hok as [Hc|Hc]; apply bool_decide_eq_true in Hc;
        destruct Hres as [Hr|(Hr & Hp & Hn)]; auto; rewrite <- Hr; auto. }
    set (json_totp := match Auth.payload_json api with
                      | Some j => Auth.j_totp j
                      | None => None
                      end).
    destruct (Auth.has_totp cfg
              && negb (bool_decide (result = Auth.APPPASSWORD_CORRECT))
              && negb (non_null json_totp)) eqn:H1.
    { simpl. rewrite auth_data_log_debug. split; [by right|].
      split; (intros Hcode; lia). }
    destruct (Auth.has_totp cfg
              && negb (bool_decide (result = Auth.APPPASSWORD_CORRECT))
              && negb (Auth.verifyTOTP env
                         (default 0 (Auth.valueint_of <$> json_totp)))) eqn:H2.
    { simpl. split; [by right|]. split; (intros Hcode; lia). }
    assert (Htotp : Auth.has_totp cfg = true ->
      Auth.verify_login env password = Auth.PASSWORD_CORRECT ->
      exists j totp,
        Auth.payload_json api = Some j /\ Auth.j_totp j = Some totp /\
        Auth.verifyTOTP env (Auth.valueint_of totp) = true).
    { intros Ht Hv. rewrite Ht in H1, H2.
      assert (result = Auth.PASSWORD_CORRECT) as ->
        by (destruct Hres as [->|[-> _]]; done).
      simpl in H1, H2. apply negb_false_iff in H1, H2.
      unfold json_totp in *.
      destruct (Auth.payload_json api) as [j|]; [|done].
      destruct (Auth.j_totp j) as [totp|] eqn:Hj; [|done].
      simpl in H2. by exists j, totp. }
    pose proof (login_loop_spec cfg now api result fresh_sid fresh_csrf
                  (Auth.auth_data st1) 0) as Hspec. simpl in Hspec.
    destruct (Auth.login_loop cfg now api result fresh_sid fresh_csrf 0
                (Auth.auth_data st1)) as [[found slots] lg].
    simpl in Hspec. destruct found as [i|].
    + assert (Hcode : forall stx,
        (Auth.send_api_auth_status cfg api (Z.of_nat i) now stx).1.1 = 200).
      { intros stx. unfold Auth.send_api_auth_status, Auth.API_AUTH_LOCALHOST,
          Auth.API_AUTH_EMPTYPASS, Auth.API_AUTH_UNAUTHORIZED.
        rewrite !bool_decide_eq_false_2 by lia.
        destruct (Z.gtb_spec (Z.of_nat i) (-1)); [|lia].
        destruct Hmethod as [-> | ->]; done. }
      rewrite Hcode. split; [by left|]. split; done.
    + destruct Hspec as [_ ->].
      match goal with
      | |- context [Auth.send_api_auth_status cfg api _ now ?stx] =>
        destruct (Hunauth stx) as [Hc Ha]; [done|]
      end.
      rewrite Hc, Ha. split; [by right|]. split; (intros Hcode; lia).
  - destruct (bool_decide (result = Auth.PASSWORD_RATE_LIMITED)).
    + simpl. split; [by right|]. split; (intros Hcode; lia).
    + destruct (Hunauth (Auth.log_debug cfg "API: Password incorrect: '%s'"
                           [Auth.arg_of password] st1)) as [Hc Ha].
      { by rewrite auth_data_log_debug. }
      rewrite Hc, Ha. split; [by right|]. split; (intros Hcode; lia).
Qed.

Lemma api_auth_login_changes_on_success_witness :
  let r := Auth.api_auth_login env_hunter2 cfg_password 1200 None None
             (login_request "guess" request_base)
             Auth.API_AUTH_UNAUTHORIZED (Some "guess") one_session in
  (r.1.1 = 200 \/ Auth.auth_data r.2 = Auth.auth_data one_session) /\
  (r.1.1 = 200 ->
   Auth.verify_login env_hunter2 (Some "guess") = Auth.PASSWORD_CORRECT \/
   Auth.verify_login env_hunter2 (Some "guess") = Auth.APPPASSWORD_CORRECT \/
   (Auth.pwhash cfg_password = "" /\
    Auth.no_password (Some "guess") = true)) /\
  (r.1.1 = 200 -> Auth.has_totp cfg_password = true ->
   Auth.verify_login env_hunter2 (Some "guess") = Auth.PASSWORD_CORRECT ->
   exists j totp,
     Auth.payload_json (login_request "guess" request_base) = Some j /\
     Auth.j_totp j = Some totp /\
     Auth.verifyTOTP env_hunter2 (Auth.valueint_of totp) = true).
Proof.
  apply (api_auth_login_changes_on_success env_hunter2 cfg_password 1200
           None None (login_request "guess" request_base) (Some "guess")
           one_session). by left.
Defined.

(** X11: [basic_auth] returns a password [p] exactly when the
    Authorization header is "Basic " followed by a payload that
    [base64_decode] decodes to "pi-hole:" followed by [p]: the user name
    has to be "pi-hole", and the password is everything after the first
    colon. *)
Theorem basic_auth_pi_hole (env : Auth.auth_env) (api : Auth.ftl_conn)
  (p : string) :
  Auth.basic_auth env api = Some p <->
  exists payload,
    Auth.hdr_authorization api = Some ("Basic " +:+ payload) /\
    Auth.base64_decode env payload = Some ("pi-hole:" +:+ p).
Proof.
  unfold Auth.basic_auth. split.
  - destruct (Auth.hdr_authorization api) as [h|]; [|done].
    destruct (String.prefix "Basic " h) eqn:Hp; [|done]. simpl.
    apply prefix_split in Hp. simpl in Hp.
    destruct (Auth.base64_decode env _) as [decoded|] eqn:Hd; [|done].
    destruct (String.index 0 ":" decoded) as [k|] eqn:Hi; [|done].
    apply index_split in Hi.
    destruct (bool_decide (String.substring 0 k decoded = "pi-hole")) eqn:Hu;
      [|done].
    apply bool_decide_eq_true in Hu. intros [= <-].
    eexists. split; [by rewrite Hp at 1|].
    rewrite Hd. f_equal. rewrite Hi at 1. by rewrite Hu.
  - intros (payload & -> & Hd).
    rewrite prefix_append. simpl negb. cbv iota.
    rewrite (substring_append "Basic " payload 6 eq_refl), Hd.
    assert (String.index 0 ":" ("pi-hole:" +:+ p) = Some 7%nat) as ->
      by (by destruct p).
    rewrite (substring_append "pi-hole:" p 8 eq_refl).
    reflexivity.
Qed.

(** ** gc.c *)

Section rate_limit_frame.
Import GC.

Lemma reset_loop_length count ids : forall cs,
  length (reset_loop count ids cs).1 = length cs.
Proof.
  induction ids as [|i ids IH]; intros cs; simpl; [done|].
  destruct (getClient cs (Z.of_nat i)) as [client|]; [|apply IH].
  destruct (reset_client count client) as [client' lg].
  specialize (IH (<[i := client']> cs)).
  destruct (reset_loop count ids (<[i := client']> cs)) as [cs' lg'].
  simpl in *. by rewrite IH, length_insert.
Qed.

End rate_limit_frame.

(** X12: [reset_rate_limiting] touches nothing but the rate limit: the
    number of clients stays, and so do the magic byte, the address, the
    counts and the overTime data of each client. It sets the
    [rate_limited] flag of no client, and it leaves alone the clients
    beyond [counters->clients] and those [getClient] does not return. *)
Theorem reset_rate_limiting_frame (cfg : GC.gc_config) (n : Z)
  (cs : list GC.clientsData) :
  let cs' := (GC.reset_rate_limiting cfg n cs).1 in
  length cs' = length cs /\
  forall (i : nat) c, cs !! i = Some c ->
    exists c',
      cs' !! i = Some c' /\
      GC.c_magic c' = GC.c_magic c /\ GC.c_ippos c' = GC.c_ippos c /\
      GC.c_count c' = GC.c_count c /\
      GC.c_blockedcount c' = GC.c_blockedcount c /\
      GC.c_overTime c' = GC.c_overTime c /\
      (GC.c_rate_limited c' = true -> GC.c_rate_limited c = true) /\
      (n <= Z.of_nat i \/ GC.c_magic c = false -> c' = c).
Proof.
  intros cs'. subst cs'. unfold GC.reset_rate_limiting.
  split; [apply reset_loop_length|].
  intros i c Hc. rewrite reset_loop_lookup by apply NoDup_seq.
  rewrite Hc. simpl.
  destruct (bool_decide (i ∈ seq 0 (Z.to_nat n))) eqn:Hin.
  - apply bool_decide_eq_true in Hin. apply elem_of_seq in Hin.
    unfold reset_slot. destruct (GC.c_magic c) eqn:Hm.
    + eexists. split; [done|]. unfold GC.reset_client.
      destruct (GC.c_rate_limited c) eqn:Hrl;
        [destruct (GC.c_rate_limit c >? GC.rateLimit_count cfg)|];
        simpl; do 5 (split; [done|]); (split; [intros; congruence|]);
        (intros [|]; [lia|done]).
    + exists c. do 6 (split; [done|]). done.
  - exists c. do 6 (split; [done|]). done.
Qed.

Section gc_pass.
Import GC.

Lemma gc_evict_cleaner h m i query :
  lastRateLimitCleaner (gc_evict h m i query) = lastRateLimitCleaner m.
Proof. reflexivity. Qed.

Lemma gc_loop_cleaner h mintime ids : forall m removed,
  lastRateLimitCleaner (gc_loop h mintime ids m removed).1
  = lastRateLimitCleaner m.
Proof.
  induction ids as [|i ids IH]; intros m removed; simpl; [done|].
  destruct (getQuery m (Z.of_nat i)) as [query|]; [|apply IH].
  destruct (q_timestamp query >? mintime); [done|].
  rewrite IH. apply gc_evict_cleaner.
Qed.

Lemma gc_compact_cleaner m removed :
  lastRateLimitCleaner (gc_compact m removed) = lastRateLimitCleaner m.
Proof.
  unfold gc_compact. destruct (removed >? 0); [|done].
  cbv zeta. destruct (getQuery _ _); done.
Qed.

Lemma runGC_flags h cfg now lastGCrun flush m :
  let r := runGC h cfg now lastGCrun flush m in
  lastRateLimitCleaner r.2 = lastRateLimitCleaner m /\
  doGC r.2 = false /\ DBdeleteoldqueries r.2 = true /\
  r.1 = match lastGCrun with
        | Some _ =>
          Some (now - GCdelay cfg - Z.rem (now - GCdelay cfg) (GCinterval cfg))
        | None => None
        end.
Proof.
  unfold runGC.
  pose proof (gc_loop_cleaner h (gc_mintime cfg now flush)
                (seq 0 (Z.to_nat (n_queries m))) m 0) as Hc.
  destruct (gc_loop h (gc_mintime cfg now flush)
              (seq 0 (Z.to_nat (n_queries m))) m 0) as [m1 removed].
  simpl in *. by rewrite gc_compact_cleaner.
Qed.


Lemma GC_thread_rate_limit_due cfg now m :
  rate_limit_due cfg now m = false -> GC_thread_rate_limit cfg now m = (m, []).
Proof. unfold GC_thread_rate_limit, rate_limit_due. by intros ->. Qed.

Lemma GC_thread_rate_limit_settles cfg now m :
  rate_limit_due cfg now (GC_thread_rate_limit cfg now m).1 = false.
Proof.
  unfold GC_thread_rate_limit.
  destruct ((rateLimit_interval cfg >? 0) &&
            (to_uint (now - lastRateLimitCleaner m) >=? rateLimit_interval cfg))
    eqn:Hdue.
  - destruct (reset_rate_limiting cfg (n_clients m) (clients m)) as [cs lg].
    unfold rate_limit_due. simpl. rewrite Z.sub_diag.
    apply andb_true_iff in Hdue as [Hpos _].
    apply andb_false_iff. right. unfold to_uint. rewrite Z.mod_0_l by lia.
    destruct (Z.geb_spec 0 (rateLimit_interval cfg)); [lia|done].
  - done.
Qed.

End gc_pass.

(** X13: a pass of the loop of [GC_thread] (reset of the rate limit and
    garbage collection) is idempotent at a given time: with [GCinterval >
    0], a second pass at the same [now] changes neither [lastGCrun] nor
    the shared memory and writes nothing to the log. *)
Theorem GC_thread_pass_idempotent (h : GC.helpers) (cfg : GC.gc_config)
  (now lastGCrun : Z) (m : GC.shm) :
  0 < GC.GCinterval cfg ->
  let r := GC.GC_thread_pass h cfg now lastGCrun m in
  GC.GC_thread_pass h cfg now r.1.1 r.1.2 = (r.1.1, r.1.2, []).
Proof.
  intros Hint r. subst r. unfold GC.GC_thread_pass.
  pose proof (GC_thread_rate_limit_settles cfg now m) as Hsettled.
  destruct (GC.GC_thread_rate_limit cfg now m) as [m1 lg]. simpl in Hsettled.
  destruct ((now - GC.GCdelay cfg - lastGCrun >=? GC.GCinterval cfg)
            || GC.doGC m1) eqn:Hrun.
  - destruct (runGC_flags h cfg now (Some lastGCrun) false m1)
      as (Hcl & HdoGC & _ & Hlast).
    destruct (GC.runGC h cfg now (Some lastGCrun) false m1) as [l m2].
    simpl in *. subst l. simpl.
    rewrite GC_thread_rate_limit_due.
    2:{ unfold rate_limit_due in *. by rewrite Hcl. }
    rewrite HdoGC.
    pose proof (Z.rem_bound_abs (now - GC.GCdelay cfg) (GC.GCinterval cfg)
                  ltac:(lia)) as Hrem.
    destruct (Z.geb_spec
                (now - GC.GCdelay cfg
                 - (now - GC.GCdelay cfg
                    - Z.rem (now - GC.GCdelay cfg) (GC.GCinterval cfg)))
                (GC.GCinterval cfg)) as [Hge|]; [lia|done].
  - simpl. rewrite GC_thread_rate_limit_due by done. by rewrite Hrun.
Qed.

Lemma GC_thread_pass_idempotent_witness :
  let r := GC.GC_thread_pass helpers_idle cfg_5_per_60 100000 0
                             shm_old_and_new in
  GC.GC_thread_pass helpers_idle cfg_5_per_60 100000 r.1.1 r.1.2
  = (r.1.1, r.1.2, []).
Proof.
  apply (GC_thread_pass_idempotent helpers_idle cfg_5_per_60 100000 0
           shm_old_and_new). reflexivity.
Defined.

Section gc_run.
Import GC.

Lemma runGC_queries h cfg now lastGCrun flush m :
  let loop := gc_loop h (gc_mintime cfg now flush)
                      (seq 0 (Z.to_nat (n_queries m))) m 0 in
  let r := (runGC h cfg now lastGCrun flush m).2 in
  queries r = queries (gc_compact loop.1 loop.2) /\
  n_queries r = n_queries (gc_compact loop.1 loop.2) /\
  cnt_status r = cnt_status loop.1 /\ cnt_reply r = cnt_reply loop.1 /\
  cnt_querytype r = cnt_querytype loop.1 /\ domains r = domains loop.1.
Proof.
  unfold runGC.
  destruct (gc_loop h (gc_mintime cfg now flush)
              (seq 0 (Z.to_nat (n_queries m))) m 0) as [m1 removed].
  simpl. unfold gc_compact. destruct (removed >? 0); [|done].
  cbv zeta. destruct (getQuery _ _); done.
Qed.

Lemma memmove_front_none src a : memmove_front src 0 a = a.
Proof.
  apply list_eq. intros j. rewrite lookup_memmove_front.
  by destruct (a !! j).
Qed.

Lemma memset_zero_all a : memset_zero 0 (length a) a
                          = replicate (length a) zero_query.
Proof.
  apply list_eq. intros j. rewrite lookup_memset_zero.
  destruct (a !! j) as [x|] eqn:Hj.
  - pose proof (lookup_lt_Some _ _ _ Hj) as Hlt.
    rewrite lookup_replicate_2 by lia. simpl.
    destruct (Nat.ltb_spec j (length a)); [done|lia].
  - apply lookup_ge_None in Hj. symmetry. apply lookup_replicate_None. lia.
Qed.

Lemma getQuery_first m :
  getQuery m 0
  = match queries m !! 0%nat with
    | Some q => if q_magic q then Some q else None
    | None => None
    end.
Proof. apply (getQuery_nat m 0). Qed.

(** The memory operations after the loop when all [n] queries were
    removed: the counter becomes zero and the whole array is zeroed. *)
Lemma gc_compact_all m1 (n : nat) :
  n_queries m1 = Z.of_nat n ->
  (0 < n)%nat ->
  (forall i, (i < n)%nat -> live_slot (queries m1) i) ->
  gc_compact m1 (Z.of_nat n)
  = set_queries 0 (replicate (length (queries m1)) zero_query) m1.
Proof.
  intros Hn Hpos Hlive. unfold gc_compact.
  destruct (Z.gtb_spec (Z.of_nat n) 0) as [_|?]; [|lia].
  replace (Z.of_nat n - 1) with (Z.of_nat (n - 1)) by lia.
  rewrite getQuery_first, (getQuery_nat m1 (n - 1)).
  destruct (Hlive 0%nat ltac:(lia)) as (q0 & Hq0 & Hm0). rewrite Hq0, Hm0.
  destruct (Hlive (n - 1)%nat ltac:(lia)) as (ql & Hql & Hml).
  rewrite Hql, Hml, Hn, Z.sub_diag.
  change (Z.to_nat 0) with 0%nat. rewrite memmove_front_none.
  cbn [n_queries set_queries]. rewrite getQuery_first.
  cbn [queries set_queries]. rewrite Hq0, Hm0.
  unfold queries_MAX. cbn [queries set_queries n_queries].
  rewrite Z.sub_0_r, Nat2Z.id. change (Z.to_nat 0) with 0%nat.
  by rewrite memset_zero_all.
Qed.

End gc_run.

(** X16: when all [counters->queries > 0] queries are in place and none is
    newer than the [mintime] the run computes (on a flush [mintime = now];
    else see [gc_mintime]), [runGC] removes them all: the number of
    queries becomes 0, the whole array of queries is zeroed, [doGC] is
    cleared and [DBdeleteoldqueries] is set. *)
Theorem runGC_evicts_everything (h : GC.helpers) (cfg : GC.gc_config)
  (now : Z) (lastGCrun : option Z) (flush : bool) (m : GC.shm) :
  0 < GC.n_queries m ->
  (forall i, (i < Z.to_nat (GC.n_queries m))%nat ->
     exists q, GC.queries m !! i = Some q /\ GC.q_magic q = true /\
               GC.q_timestamp q <= GC.gc_mintime cfg now flush) ->
  let m' := (GC.runGC h cfg now lastGCrun flush m).2 in
  GC.n_queries m' = 0 /\
  GC.queries m' = replicate (length (GC.queries m)) GC.zero_query /\
  GC.doGC m' = false /\ GC.DBdeleteoldqueries m' = true.
Proof.
  intros Hn Hall m'. subst m'.
  destruct (runGC_flags h cfg now lastGCrun flush m) as (_ & HdoGC & HDB & _).
  destruct (runGC_queries h cfg now lastGCrun flush m) as (Hq & Hnq & _).
  rewrite Hq, Hnq. clear Hq Hnq.
  set (mintime := GC.gc_mintime cfg now flush) in *.
  destruct (gc_loop_spec h mintime (Z.to_nat (GC.n_queries m)) 0 m 0)
    as (e & Hrem & Hle & Hnq & Hlen & Hev & Hoth & Hstop).
  { intros i Hi. destruct (Hall i ltac:(lia)) as (q & Hq & Hm & _).
    by exists q. }
  assert (He : e = Z.to_nat (GC.n_queries m)).
  { destruct (decide (e < Z.to_nat (GC.n_queries m))%nat) as [Hlt|]; [|lia].
    destruct (Hstop Hlt) as (q & Hq & Hnew). simpl in Hq.
    destruct (Hall e Hlt) as (q' & Hq' & _ & Hold).
    assert (q = q') by congruence. subst q'. lia. }
  destruct (GC.gc_loop h mintime (seq 0 (Z.to_nat (GC.n_queries m))) m 0)
    as [m1 r1]. cbn [fst snd] in *. subst r1.
  assert (Hlive1 : forall i, (i < Z.to_nat (GC.n_queries m))%nat ->
            live_slot (GC.queries m1) i).
  { intros i Hi. destruct (Hev i ltac:(lia)) as (q & _ & Hm & _ & Hq1).
    exists (GC.q_set_status GC.QUERY_UNKNOWN q). done. }
  rewrite Z.add_0_l, (gc_compact_all m1 e); [|lia|lia|].
  - cbn [GC.n_queries GC.queries GC.set_queries]. by rewrite Hlen.
  - intros i Hi. apply Hlive1. lia.
Qed.


Lemma runGC_evicts_everything_witness :
  let m' := (GC.runGC helpers_idle cfg_5_per_60 100000 None true
                      shm_old_and_new).2 in
  GC.n_queries m' = 0 /\
  GC.queries m' = replicate (length (GC.queries shm_old_and_new)) GC.zero_query /\
  GC.doGC m' = false /\ GC.DBdeleteoldqueries m' = true.
Proof.
  apply (runGC_evicts_everything helpers_idle cfg_5_per_60 100000 None true
           shm_old_and_new); [reflexivity|].
  intros [|[|i]] Hi; [| |vm_compute in Hi; lia].
  - exists gc_query_old. repeat split. vm_compute. discriminate.
  - exists gc_query_new. repeat split. vm_compute. discriminate.
Defined.

(** X15: when the first query in memory is newer than [mintime], [runGC]
    removes nothing: the queries, their number, the status, reply and type
    counters and the domains are as before. *)
Theorem runGC_keeps_recent (h : GC.helpers) (cfg : GC.gc_config)
  (now : Z) (lastGCrun : option Z) (flush : bool) (m : GC.shm)
  (q : GC.queriesData) :
  0 < GC.n_queries m ->
  GC.getQuery m 0 = Some q ->
  GC.gc_mintime cfg now flush < GC.q_timestamp q ->
  let m' := (GC.runGC h cfg now lastGCrun flush m).2 in
  GC.queries m' = GC.queries m /\ GC.n_queries m' = GC.n_queries m /\
  GC.cnt_status m' = GC.cnt_status m /\ GC.cnt_reply m' = GC.cnt_reply m /\
  GC.cnt_querytype m' = GC.cnt_querytype m /\ GC.domains m' = GC.domains m.
Proof.
  intros Hn Hq Hts m'. subst m'.
  destruct (runGC_queries h cfg now lastGCrun flush m)
    as (-> & -> & -> & -> & -> & ->).
  assert (Hloop : GC.gc_loop h (GC.gc_mintime cfg now flush)
                    (seq 0 (Z.to_nat (GC.n_queries m))) m 0 = (m, 0)).
  { destruct (Z.to_nat (GC.n_queries m)) as [|n] eqn:Hnat; [lia|].
    cbn [seq GC.gc_loop]. change (Z.of_nat 0) with 0. rewrite Hq.
    destruct (Z.gtb_spec (GC.q_timestamp q) (GC.gc_mintime cfg now flush));
      [done|lia]. }
  rewrite Hloop. done.
Qed.

Lemma runGC_keeps_recent_witness :
  let m' := (GC.runGC helpers_idle cfg_5_per_60 1000 None false
                      shm_old_and_new).2 in
  GC.queries m' = GC.queries shm_old_and_new /\
  GC.n_queries m' = GC.n_queries shm_old_and_new /\
  GC.cnt_status m' = GC.cnt_status shm_old_and_new /\
  GC.cnt_reply m' = GC.cnt_reply shm_old_and_new /\
  GC.cnt_querytype m' = GC.cnt_querytype shm_old_and_new /\
  GC.domains m' = GC.domains shm_old_and_new.
Proof.
  apply (runGC_keeps_recent helpers_idle cfg_5_per_60 1000 None false
           shm_old_and_new gc_query_old); reflexivity.
Defined.

(** X14: with [GCinterval > 0], [runGC] works with aligned times. The
    oldest timestamp a regular run keeps, [mintime], is a multiple of
    [GCinterval] and, when the horizon [now - (unsigned int)(GCdelay +
    maxHistory)] is not negative, the largest one that is at most the
    horizon.  The sum is one of [unsigned int]: the horizon is
    [now - (GCdelay + maxHistory)] when the sum is not negative (and below
    2^32), and 2^32 seconds before that when [maxHistory < -GCdelay].  The
    [lastGCrun] the run stores is a multiple of [GCinterval] too and, when
    [now - GCdelay >= 0], the largest one that is at most
    [now - GCdelay]. *)
Theorem runGC_times_aligned (h : GC.helpers) (cfg : GC.gc_config)
  (now lastGCrun : Z) (flush : bool) (m : GC.shm) :
  0 < GC.GCinterval cfg ->
  let mintime := GC.gc_mintime cfg now false in
  let history := GC.GCdelay cfg + GC.maxHistory cfg in
  let horizon := now - to_uint history in
  Z.rem mintime (GC.GCinterval cfg) = 0 /\
  (0 <= horizon -> horizon - GC.GCinterval cfg < mintime <= horizon) /\
  (0 <= history < 2 ^ 32 -> horizon = now - history) /\
  (- 2 ^ 32 <= history < 0 -> horizon = now - history - 2 ^ 32) /\
  exists lastGCrun',
    (GC.runGC h cfg now (Some lastGCrun) flush m).1 = Some lastGCrun' /\
    Z.rem lastGCrun' (GC.GCinterval cfg) = 0 /\
    (0 <= now - GC.GCdelay cfg ->
     now - GC.GCdelay cfg - GC.GCinterval cfg < lastGCrun'
     <= now - GC.GCdelay cfg).
Proof.
  intros Hint mintime history horizon.
  assert (Halign : forall x,
    Z.rem (x - Z.rem x (GC.GCinterval cfg)) (GC.GCinterval cfg) = 0 /\
    (0 <= x -> x - GC.GCinterval cfg < x - Z.rem x (GC.GCinterval cfg) <= x)).
  { intros x. split.
    - pose proof (Z.quot_rem' x (GC.GCinterval cfg)) as Hx.
      replace (x - Z.rem x (GC.GCinterval cfg))
        with (Z.quot x (GC.GCinterval cfg) * GC.GCinterval cfg) by lia.
      apply Z.rem_mul. lia.
    - intros Hx. pose proof (Z.rem_bound_pos x (GC.GCinterval cfg) Hx Hint).
      lia. }
  split; [apply Halign|]. split; [apply Halign|].
  split.
  { intros Hh. subst horizon. unfold to_uint.
    rewrite Z.mod_small by lia. reflexivity. }
  split.
  { intros Hh. subst horizon. unfold to_uint.
    replace history with (history + 2 ^ 32 + (-1) * 2 ^ 32) at 1 by lia.
    rewrite Z.mod_add by lia. rewrite Z.mod_small by lia. lia. }
  destruct (runGC_flags h cfg now (Some lastGCrun) flush m)
    as (_ & _ & _ & ->).
  eexists. split; [done|]. apply Halign.
Qed.

Lemma runGC_times_aligned_witness :
  0 < GC.GCinterval cfg_5_per_60 /\
  let mintime := GC.gc_mintime cfg_5_per_60 100000 false in
  let history := GC.GCdelay cfg_5_per_60 + GC.maxHistory cfg_5_per_60 in
  let horizon := 100000 - to_uint history in
  Z.rem mintime (GC.GCinterval cfg_5_per_60) = 0 /\
  (0 <= horizon ->
   horizon - GC.GCinterval cfg_5_per_60 < mintime <= horizon) /\
  (0 <= history < 2 ^ 32 -> horizon = 100000 - history) /\
  (- 2 ^ 32 <= history < 0 -> horizon = 100000 - history - 2 ^ 32) /\
  exists lastGCrun',
    (GC.runGC helpers_idle cfg_5_per_60 100000 (Some 0) false
              shm_old_and_new).1 = Some lastGCrun' /\
    Z.rem lastGCrun' (GC.GCinterval cfg_5_per_60) = 0 /\
    (0 <= 100000 - GC.GCdelay cfg_5_per_60 ->
     100000 - GC.GCdelay cfg_5_per_60 - GC.GCinterval cfg_5_per_60
     < lastGCrun' <= 100000 - GC.GCdelay cfg_5_per_60).
Proof.
  split; [reflexivity|].
  apply (runGC_times_aligned helpers_idle cfg_5_per_60 100000 0 false
           shm_old_and_new). reflexivity.
Defined.

Section gc_count.
Import GC.

Lemma filter_after {A : Type} (P : A -> bool) (l : list A) : forall e : nat,
  (forall (i : nat) x, l !! i = Some x -> (i < e)%nat -> P x = false) ->
  (forall (i : nat) x, l !! i = Some x -> (e <= i)%nat -> P x = true) ->
  length (List.filter P l) = (length l - e)%nat.
Proof.
  induction l as [|x l IH]; intros e Hlow Hhigh; simpl; [done|].
  destruct e as [|e].
  - rewrite (Hhigh 0%nat x eq_refl ltac:(lia)). simpl.
    rewrite (IH 0%nat); [lia| |].
    + intros i y _ Hi. lia.
    + intros i y Hy _. apply (Hhigh (S i)); [done|lia].
  - rewrite (Hlow 0%nat x eq_refl ltac:(lia)).
    apply (IH e).
    + intros i y Hy Hi. apply (Hlow (S i)); [done|lia].
    + intros i y Hy Hi. apply (Hhigh (S i)); [done|lia].
Qed.

End gc_count.

(** X17: for queries in place and ordered by time, the number of queries
    after [runGC] is the number of queries that are newer than the
    [mintime] the run computes ([gc_mintime], the sum of [GCdelay] and
    [maxHistory] being taken as an [unsigned int]). *)
Theorem runGC_counts_newer (h : GC.helpers) (cfg : GC.gc_config)
  (now : Z) (lastGCrun : option Z) (flush : bool) (m : GC.shm) :
  0 <= GC.n_queries m ->
  (forall i, (i < Z.to_nat (GC.n_queries m))%nat ->
     live_slot (GC.queries m) i) ->
  (forall i j qi qj, (i <= j < Z.to_nat (GC.n_queries m))%nat ->
     GC.queries m !! i = Some qi -> GC.queries m !! j = Some qj ->
     GC.q_timestamp qi <= GC.q_timestamp qj) ->
  GC.n_queries (GC.runGC h cfg now lastGCrun flush m).2
  = Z.of_nat (length (newer_than (GC.gc_mintime cfg now flush)
                        (take (Z.to_nat (GC.n_queries m)) (GC.queries m)))).
Proof.
  intros Hn Hlive Hsorted.
  destruct (runGC_queries h cfg now lastGCrun flush m) as (_ & -> & _).
  set (mintime := GC.gc_mintime cfg now flush).
  set (n := Z.to_nat (GC.n_queries m)) in *.
  destruct (gc_loop_spec h mintime n 0 m 0)
    as (e & Hrem & Hle & Hnq & Hlen & Hev & Hoth & Hstop).
  { intros i Hi. apply Hlive. lia. }
  assert (Hlenq : (n <= length (GC.queries m))%nat).
  { destruct n as [|n']; [lia|].
    destruct (Hlive n' ltac:(lia)) as (q & Hq & _).
    apply lookup_lt_Some in Hq. lia. }
  assert (Hcount : length (newer_than mintime (take n (GC.queries m)))
                   = (n - e)%nat).
  { unfold newer_than. rewrite (filter_after _ _ e).
    - rewrite length_take. lia.
    - intros i x Hx Hi. apply lookup_take_Some in Hx as [Hx _].
      destruct (Hev i ltac:(lia)) as (q & Hq & _ & Hts & _).
      assert (x = q) by congruence. subst x.
      destruct (Z.ltb_spec mintime (GC.q_timestamp q)); [lia|done].
    - intros i x Hx Hi. apply lookup_take_Some in Hx as [Hx Hin].
      destruct (Hstop ltac:(lia)) as (qe & Hqe & Hnew). simpl in Hqe.
      pose proof (Hsorted e i qe x ltac:(lia) Hqe Hx).
      destruct (Z.ltb_spec mintime (GC.q_timestamp x)); [done|lia]. }
  rewrite Hcount. clear Hcount.
  destruct (GC.gc_loop h mintime (seq 0 n) m 0) as [m1 r1].
  cbn [fst snd] in *. subst r1. rewrite Z.add_0_l.
  assert (Hlive1 : forall i, (i < n)%nat -> live_slot (GC.queries m1) i).
  { intros i Hi. destruct (decide (i < e)%nat) as [Hlt|Hge].
    - destruct (Hev i ltac:(lia)) as (q & _ & Hm & _ & Hq1).
      exists (GC.q_set_status GC.QUERY_UNKNOWN q). done.
    - unfold live_slot. rewrite Hoth by lia. by apply Hlive. }
  destruct (decide (e = 0%nat)) as [->|Hpos].
  { unfold GC.gc_compact. simpl. lia. }
  destruct (decide (e = n)) as [->|Hlt].
  { rewrite (gc_compact_all m1 n); [simpl; lia|lia|lia|done]. }
  destruct (gc_compact_spec m1 e n) as [-> _]; [lia|lia|done|done].
Qed.

Lemma runGC_counts_newer_witness :
  GC.n_queries (GC.runGC helpers_idle cfg_5_per_60 100000 None false
                         shm_old_and_new).2
  = Z.of_nat (length (newer_than (GC.gc_mintime cfg_5_per_60 100000 false)
                        (take (Z.to_nat (GC.n_queries shm_old_and_new))
                              (GC.queries shm_old_and_new)))).
Proof.
  apply (runGC_counts_newer helpers_idle cfg_5_per_60 100000 None false
           shm_old_and_new).
  - vm_compute. discriminate.
  - intros [|[|i]] Hi; [by eexists|by eexists|vm_compute in Hi; lia].
  - intros [|[|i]] [|[|j]] qi qj Hij Hi Hj;
      vm_compute in Hij; simpl in Hi, Hj; try lia;
      injection Hi as <-; injection Hj as <-; vm_compute; discriminate.
Defined.

(** ** api/queries.c *)

Section suggestions_limit.
Import Queries.

Lemma add_strings_loop_all max_count rows : forall counter array,
  max_count < 0 ->
  add_strings_loop max_count counter rows array = (array ++ rows, false).
Proof.
  induction rows as [|r rows IH]; intros counter array Hneg; simpl.
  - by rewrite app_nil_r.
  - destruct (Z.ltb_spec max_count 0); [|lia].
    rewrite IH by done. by rewrite <- app_assoc.
Qed.

Lemma add_strings_loop_limit max_count rows : forall counter array,
  0 <= max_count -> 0 <= counter ->
  add_strings_loop max_count counter rows array
  = (array ++ take (Z.to_nat (max_count - 1 - counter)) rows,
     Z.max 0 (max_count - 1 - counter) <? Z.of_nat (length rows)).
Proof.
  induction rows as [|r rows IH]; intros counter array Hmax Hc; simpl length.
  - simpl. rewrite take_nil, app_nil_r.
    destruct (Z.ltb_spec (Z.max 0 (max_count - 1 - counter)) (Z.of_nat 0));
      [lia|done].
  - cbn [add_strings_loop].
    destruct (Z.ltb_spec max_count 0); [lia|].
    destruct (Z.ltb_spec (counter + 1) max_count) as [Hlt|Hge].
    + rewrite IH by lia.
      replace (Z.to_nat (max_count - 1 - counter))
        with (S (Z.to_nat (max_count - 1 - (counter + 1)))) by lia.
      simpl. rewrite <- app_assoc. simpl. f_equal.
      destruct (Z.ltb_spec (Z.max 0 (max_count - 1 - (counter + 1)))
                           (Z.of_nat (length rows)));
        destruct (Z.ltb_spec (Z.max 0 (max_count - 1 - counter))
                             (Z.of_nat (S (length rows)))); try done; lia.
    + replace (Z.to_nat (max_count - 1 - counter)) with 0%nat by lia.
      simpl. rewrite app_nil_r.
      destruct (Z.ltb_spec (Z.max 0 (max_count - 1 - counter))
                           (Z.of_nat (S (length rows)))); [done|lia].
Qed.


Lemma add_strings_to_array_ok db array querystr max_count :
  memdb_ok db = true ->
  prepare_err db querystr = None ->
  step_err db querystr = None ->
  add_strings_to_array db array querystr max_count
  = inl (array ++ limited max_count (step_rows db querystr)).
Proof.
  intros Hdb Hprep Hstep. unfold add_strings_to_array, limited.
  rewrite Hdb, Hprep, Hstep. simpl.
  destruct (Z.ltb_spec max_count 0).
  - rewrite add_strings_loop_all by done. done.
  - rewrite add_strings_loop_limit by lia. rewrite Z.sub_0_r. simpl.
    by destruct (_ <? _).
Qed.

End suggestions_limit.

(** X20: [add_strings_to_array] with the database at hand and the
    statement prepared. A negative [max_count] adds every row, and
    [max_count >= 0] adds at most [max_count - 1] rows, since the loop
    counts the row it stops at. When the loop stops at the limit, the
    outcome of stepping further is never looked at; when the rows end
    before, a failure of [sqlite3_step] is answered with 500 "Could not
    step in-memory database". *)
Theorem add_strings_to_array_limit (db : Queries.memdb) (array : list string)
  (querystr : string) (max_count : Z) :
  Queries.memdb_ok db = true ->
  Queries.prepare_err db querystr = None ->
  let rows := Queries.step_rows db querystr in
  (Queries.step_err db querystr = None ->
   Queries.add_strings_to_array db array querystr max_count
   = inl (array ++ limited max_count rows)) /\
  (0 <= max_count -> Z.max 1 max_count <= Z.of_nat (length rows) ->
   Queries.add_strings_to_array db array querystr max_count
   = inl (array ++ take (Z.to_nat (max_count - 1)) rows)) /\
  (forall e, Queries.step_err db querystr = Some e ->
     max_count < 0 \/ Z.of_nat (length rows) < Z.max 1 max_count ->
     Queries.add_strings_to_array db array querystr max_count
     = inr (Queries.Json_error 500 "database_error"
              "Could not step in-memory database" (Some e))).
Proof.
  intros Hdb Hprep rows. subst rows. split; [|split].
  - intros Hstep. by apply add_strings_to_array_ok.
  - intros Hmax Hlen. unfold Queries.add_strings_to_array.
    rewrite Hdb, Hprep. simpl.
    rewrite add_strings_loop_limit by lia. rewrite Z.sub_0_r. simpl.
    destruct (Z.ltb_spec (Z.max 0 (max_count - 1))
                (Z.of_nat (length (Queries.step_rows db querystr))));
      [done|lia].
  - intros e Hstep Hcase. unfold Queries.add_strings_to_array.
    rewrite Hdb, Hprep, Hstep. simpl.
    destruct (Z.ltb_spec max_count 0).
    + rewrite add_strings_loop_all by done. done.
    + rewrite add_strings_loop_limit by lia. rewrite Z.sub_0_r. simpl.
      destruct (Z.ltb_spec (Z.max 0 (max_count - 1))
                  (Z.of_nat (length (Queries.step_rows db querystr))));
        [lia|done].
Qed.


Lemma add_strings_to_array_limit_witness :
  let rows := Queries.step_rows memdb_sample "SELECT domain FROM domain_by_id" in
  (Queries.step_err memdb_sample "SELECT domain FROM domain_by_id" = None ->
   Queries.add_strings_to_array memdb_sample []
     "SELECT domain FROM domain_by_id" 2
   = inl ([] ++ limited 2 rows)) /\
  (0 <= 2 -> Z.max 1 2 <= Z.of_nat (length rows) ->
   Queries.add_strings_to_array memdb_sample []
     "SELECT domain FROM domain_by_id" 2
   = inl ([] ++ take (Z.to_nat (2 - 1)) rows)) /\
  (forall e,
     Queries.step_err memdb_sample "SELECT domain FROM domain_by_id" = Some e ->
     2 < 0 \/ Z.of_nat (length rows) < Z.max 1 2 ->
     Queries.add_strings_to_array memdb_sample []
       "SELECT domain FROM domain_by_id" 2
     = inr (Queries.Json_error 500 "database_error"
              "Could not step in-memory database" (Some e))).
Proof.
  apply (add_strings_to_array_limit memdb_sample []
           "SELECT domain FROM domain_by_id" 2); reflexivity.
Defined.

(** X21: [api_queries_suggestions] for an authorized client and a database
    that answers: with [count] the parameter "count" (10 by default), the
    suggestions hold at most [count - 1] domains, at most [count/2 - 1]
    client addresses followed by at most [count/2 - 1] client names in one
    array, and at most [count - 1] upstream servers, each the first rows
    of its statement. *)
Theorem api_queries_suggestions_limits (db : Queries.memdb)
  (en : Queries.enum_names) (count_var : option Z) :
  Queries.memdb_ok db = true ->
  (forall q, Queries.prepare_err db q = None) ->
  (forall q, Queries.step_err db q = None) ->
  let count := default 10 count_var in
  let rows := Queries.step_rows db in
  exists sg,
    Queries.api_queries_suggestions db en true count_var = inl sg /\
    Queries.s_domain sg
    = limited count (rows "SELECT domain FROM domain_by_id") /\
    Queries.s_client sg
    = limited (Z.quot count 2) (rows "SELECT DISTINCT(ip) FROM client_by_id")
      ++ limited (Z.quot count 2)
                 (rows "SELECT DISTINCT(name) FROM client_by_id") /\
    Queries.s_upstream sg
    = limited count (rows "SELECT forward FROM forward_by_id") /\
    (0 <= count ->
     Z.of_nat (length (Queries.s_domain sg)) <= Z.max 0 (count - 1) /\
     Z.of_nat (length (Queries.s_client sg))
     <= 2 * Z.max 0 (Z.quot count 2 - 1) /\
     Z.of_nat (length (Queries.s_upstream sg)) <= Z.max 0 (count - 1)).
Proof.
  intros Hdb Hprep Hstep count rows. subst rows.
  unfold Queries.api_queries_suggestions. simpl. fold count.
  rewrite !add_strings_to_array_ok by done. simpl.
  eexists. split; [reflexivity|]. simpl.
  split; [done|]. split; [done|]. split; [done|].
  intros Hc.
  assert (Hlim : forall c rows, 0 <= c ->
            Z.of_nat (length (limited c rows)) <= Z.max 0 (c - 1)).
  { intros c rows Hc0. unfold limited.
    destruct (Z.ltb_spec c 0); [lia|]. rewrite length_take. lia. }
  assert (Hq : 0 <= Z.quot count 2) by (apply Z.quot_pos; lia).
  rewrite length_app.
  pose proof (Hlim count
    (Queries.step_rows db "SELECT domain FROM domain_by_id") Hc).
  pose proof (Hlim count
    (Queries.step_rows db "SELECT forward FROM forward_by_id") Hc).
  pose proof (Hlim (Z.quot count 2)
    (Queries.step_rows db "SELECT DISTINCT(ip) FROM client_by_id") Hq).
  pose proof (Hlim (Z.quot count 2)
    (Queries.step_rows db "SELECT DISTINCT(name) FROM client_by_id") Hq).
  lia.
Qed.

Lemma api_queries_suggestions_limits_witness :
  exists sg,
    Queries.api_queries_suggestions memdb_sample enum_names_sample true
      (Some 2) = inl sg /\
    Queries.s_domain sg = ["a.example"] /\
    Queries.s_client sg = [] /\
    Queries.s_upstream sg = ["10.0.0.1"].
Proof.
  destruct (api_queries_suggestions_limits memdb_sample enum_names_sample
              (Some 2) eq_refl (fun _ => eq_refl) (fun _ => eq_refl))
    as (sg & H1 & H2 & H3 & H4 & _).
  exists sg. split; [exact H1|]. split; [exact H2|]. split; [exact H3|exact H4].
Defined.

(** X18: paging of [api_queries]. For a request the database serves, with
    a valid cursor, a [length] from 1 to 2^31 - 1 (100 by default) and
    fewer than 2^32 rows, the answer holds the first [length] of the rows
    that are not above the cursor and not among the first [start] rows of
    the statement; [recordsTotal] is the number of queries of the database
    asked, [recordsFiltered] the number of all rows of the statement, and
    [draw] is echoed. *)
Theorem api_queries_page (db : Queries.database) (en : Queries.enum_names)
  (p : Queries.params) (bs : list Queries.binding)
  (cursor : Z) (cursor_set : bool) :
  served db en p bs ->
  Queries.check_cursor (Queries.largest_db_index db) (Queries.p_cursor p)
  = inl (cursor, cursor_set) ->
  let len := default 100 (Queries.p_length p) in
  let rows := Queries.rows_of db (statement_of p) bs in
  0 < len < 2 ^ 31 ->
  Z.of_nat (length rows) < 2 ^ 32 ->
  exists c,
    Queries.api_queries db en false true (Some p)
    = Queries.Json_queries
        (take (Z.to_nat len)
              (select cursor (default 0 (Queries.p_start p)) 0 rows))
        c
        (if default false (Queries.p_disk p)
         then Queries.disk_dbnum db else Queries.mem_dbnum db)
        (Z.of_nat (length rows))
        (default 0 (Queries.p_draw p)).
Proof.
  intros Hserved Hcursor len rows Hlen Hrows.
  rewrite (api_queries_served db en p bs cursor cursor_set Hserved Hcursor).
  fold len rows. unfold Queries.run_loop.
  destruct (loop_with_length cursor (default 0 (Queries.p_start p)) len rows
              Queries.loop_init) as [Ho Hr]; simpl; try lia.
  rewrite Ho, Hr. simpl. rewrite Z.sub_0_r. by eexists.
Qed.

Lemma api_queries_page_witness :
  exists c,
    Queries.api_queries db_three_rows enum_names_sample false true
      (Some (Queries.mkParams None None None None None None None (Some 2)
               None Queries.Cursor_absent None None None None))
    = Queries.Json_queries [Queries.mkRow 10 []; Queries.mkRow 9 []] c 3 3 0.
Proof.
  apply (api_queries_page db_three_rows enum_names_sample
           (Queries.mkParams None None None None None None None (Some 2)
              None Queries.Cursor_absent None None None None) [] 10 false).
  - repeat split; try reflexivity; discriminate.
  - reflexivity.
  - vm_compute. split; reflexivity.
  - vm_compute. reflexivity.
Defined.

Section query_rows.
Import Queries.

Lemma loop_step_out cursor start len ls r :
  out (loop_step cursor start len ls r) = out ls \/
  out (loop_step cursor start len ls r) = out ls ++ [r].
Proof.
  unfold loop_step.
  destruct (to_ulong (r_id r) >? cursor); [by left|].
  destruct ((start >? 0) && _); [by left|].
  destruct ((len >? 0) && _); [by left|by right].
Qed.

Lemma loop_out_sublist cursor start len rows : forall ls,
  exists l',
    out (fold_left (loop_step cursor start len) rows ls) = out ls ++ l' /\
    l' `sublist_of` rows.
Proof.
  induction rows as [|r rows IH]; intros ls; simpl.
  - exists []. by rewrite app_nil_r.
  - destruct (IH (loop_step cursor start len ls r)) as (l' & -> & Hsub).
    destruct (loop_step_out cursor start len ls r) as [-> | ->].
    + exists l'. split; [done|by apply sublist_cons].
    + exists (r :: l'). rewrite <- app_assoc. split; [done|].
      by apply sublist_skip.
Qed.

Lemma loop_records cursor start len rows : forall ls,
  0 <= records ls ->
  records ls + Z.of_nat (List.length rows) < 2 ^ 32 ->
  records (fold_left (loop_step cursor start len) rows ls)
  = records ls + Z.of_nat (List.length rows).
Proof.
  induction rows as [|r rows IH]; intros ls Hrec Hbound; simpl.
  - lia.
  - simpl in Hbound.
    assert (Hr : records (loop_step cursor start len ls r) = records ls + 1).
    { unfold loop_step. rewrite to_uint_small by lia.
      repeat match goal with
             | |- context [if ?b then _ else _] => destruct b
             end; done. }
    rewrite IH; lia.
Qed.

End query_rows.

(** X19: whatever [start] and [length], the rows [api_queries] answers
    with are rows of the statement in their order (a sublist), all with an
    id up to the cursor; [recordsTotal] is the number of queries of the
    database asked, and [recordsFiltered] counts every row of the
    statement (fewer than 2^32 of them), also those left out of the
    answer. *)
Theorem api_queries_emits_sublist (db : Queries.database)
  (en : Queries.enum_names) (p : Queries.params) (bs : list Queries.binding)
  (cursor : Z) (cursor_set : bool) :
  served db en p bs ->
  Queries.check_cursor (Queries.largest_db_index db) (Queries.p_cursor p)
  = inl (cursor, cursor_set) ->
  let rows := Queries.rows_of db (statement_of p) bs in
  exists qs c recordsFiltered,
    Queries.api_queries db en false true (Some p)
    = Queries.Json_queries qs c
        (if default false (Queries.p_disk p)
         then Queries.disk_dbnum db else Queries.mem_dbnum db)
        recordsFiltered (default 0 (Queries.p_draw p)) /\
    qs `sublist_of` rows /\
    Forall (fun r => to_ulong (Queries.r_id r) <= cursor) qs /\
    (Z.of_nat (length rows) < 2 ^ 32 ->
     recordsFiltered = Z.of_nat (length rows)).
Proof.
  intros Hserved Hcursor rows.
  rewrite (api_queries_served db en p bs cursor cursor_set Hserved Hcursor).
  fold rows. unfold Queries.run_loop.
  destruct (loop_out_sublist cursor (default 0 (Queries.p_start p))
              (default 100 (Queries.p_length p)) rows Queries.loop_init)
    as (l' & Hout & Hsub).
  eexists _, _, _. split; [reflexivity|]. split; [|split].
  - by rewrite Hout.
  - apply loop_out_below_cursor. simpl. constructor.
  - intros Hlen. rewrite loop_records; simpl; lia.
Qed.

Lemma api_queries_emits_sublist_witness :
  exists qs c recordsFiltered,
    Queries.api_queries db_three_rows enum_names_sample false true
      (Some (set_cursor (Queries.Cursor_value 9) no_params))
    = Queries.Json_queries qs c 3 recordsFiltered 0 /\
    qs `sublist_of` [Queries.mkRow 10 []; Queries.mkRow 9 []; Queries.mkRow 8 []] /\
    Forall (fun r => to_ulong (Queries.r_id r) <= 9) qs /\
    (Z.of_nat 3 < 2 ^ 32 -> recordsFiltered = Z.of_nat 3).
Proof.
  apply (api_queries_emits_sublist db_three_rows enum_names_sample
           (set_cursor (Queries.Cursor_value 9) no_params) [] 9 true).
  - repeat split; try reflexivity; discriminate.
  - reflexivity.
Defined.

(** ** parser.c *)


Section parser_tables.
Import Parser.

Lemma find_index_Some {A : Type} (name_of : A -> string) name a :
  forall n i k,
    find_index name_of name n i a = Some k ->
    exists (j : nat) x,
      k = (i + j)%nat /\ (j < n)%nat /\ a !! j = Some x /\ name_of x = name.
Proof.
  induction a as [|x a IH]; intros [|n] i k H; simpl in H; try done.
  destruct (bool_decide (name_of x = name)) eqn:Hx.
  - apply bool_decide_eq_true in Hx. injection H as <-.
    exists 0%nat, x. split; [lia|]. split; [lia|]. done.
  - destruct (IH _ _ _ H) as (j & y & -> & Hj & Hy & Hn).
    exists (S j), y. split; [lia|]. split; [lia|]. done.
Qed.

Lemma find_index_None {A : Type} (name_of : A -> string) name a :
  forall n i,
    find_index name_of name n i a = None ->
    forall (j : nat) x, (j < n)%nat -> a !! j = Some x -> name_of x <> name.
Proof.
  induction a as [|x a IH]; intros [|n] i H j y Hj Hy; simpl in *;
    try done; try lia.
  destruct (bool_decide (name_of x = name)) eqn:Hx; [done|].
  apply bool_decide_eq_false in Hx.
  destruct j as [|j]; simpl in Hy.
  - by injection Hy as <-.
  - apply (IH n (S i) H j); [lia|done].
Qed.

Lemma map_alter_same {A B : Type} (f : A -> B) (g : A -> A) (i : nat) l :
  (forall x, f (g x) = f x) -> map f (alter g i l) = map f l.
Proof.
  intros Hfg. revert i. induction l as [|x l IH]; intros [|i]; simpl;
    try done.
  - by rewrite Hfg.
  - f_equal. apply IH.
Qed.

Lemma sumZ_alter {A : Type} (f : A -> Z) (g : A -> A) (i : nat) l x :
  l !! i = Some x ->
  sumZ (map f (alter g i l)) = sumZ (map f l) + (f (g x) - f x).
Proof.
  revert i. induction l as [|y l IH]; intros [|i] H; simpl in *; try done.
  - injection H as ->. lia.
  - rewrite <- Z.add_assoc, <- (IH i H). reflexivity.
Qed.

Lemma sumZ_snoc {A : Type} (f : A -> Z) l x :
  sumZ (map f (l ++ [x])) = sumZ (map f l) + f x.
Proof. rewrite map_app, sumZ_app. simpl. lia. Qed.

Lemma NoDup_snoc_fresh {A : Type} (f : A -> string) l x :
  NoDup (map f l) ->
  (forall (j : nat) y, l !! j = Some y -> f y <> f x) ->
  NoDup (map f (l ++ [x])).
Proof.
  intros Hnd Hfresh. rewrite map_app. apply NoDup_app. split; [done|].
  split; [|apply NoDup_singleton].
  intros n Hn Hx. apply list_elem_of_singleton in Hx. subst n.
  apply list_elem_of_fmap in Hn as (y & Hy & Hin).
  apply list_elem_of_lookup in Hin as (j & Hj). by apply (Hfresh j y).
Qed.

(** The "look up or append" step on a table of [n] entries: the index of
    the entry, the table and the number of entries. *)
Lemma table_step {A : Type} (name_of : A -> string)
      (bumped : A -> A) (dflt new : A) name n (a : list A) :
  Z.of_nat (length a) = n ->
  name_of new = name ->
  (forall x, name_of (bumped x) = name_of x) ->
  let r := match find_index name_of name (Z.to_nat n) 0 a with
           | Some i => (i, alter bumped i a, n)
           | None => (Z.to_nat n, store dflt (Z.to_nat n) new a, n + 1)
           end in
  Z.of_nat (length r.1.2) = r.2 /\
  n <= r.2 /\
  (r.1.1 < length r.1.2)%nat /\
  (NoDup (map name_of a) -> NoDup (map name_of r.1.2)) /\
  (forall (f : A -> Z) d, (forall x, f (bumped x) = f x + d) -> f new = d ->
     sumZ (map f r.1.2) = sumZ (map f a) + d).
Proof.
  intros Hlen Hnew Hname.
  destruct (find_index name_of name (Z.to_nat n) 0 a) as [i|] eqn:Hfind;
    simpl.
  - apply find_index_Some in Hfind as (j & x & -> & Hj & Hx & Hnx).
    simpl. rewrite length_alter. split; [done|]. split; [lia|].
    split; [by eapply lookup_lt_Some|]. split.
    + by rewrite map_alter_same.
    + intros f d Hd _. rewrite (sumZ_alter f bumped j a x Hx), Hd. lia.
  - replace (Z.to_nat n) with (length a) in * by lia.
    rewrite store_at_end, length_app. simpl.
    split; [lia|]. split; [lia|]. split; [lia|]. split.
    + intros Hnd. apply NoDup_snoc_fresh; [done|].
      intros j y Hy. rewrite Hnew.
      apply (find_index_None name_of name a _ _ Hfind j y); [|done].
      by eapply lookup_lt_Some.
    + intros f d _ Hd. rewrite sumZ_snoc, Hd. done.
Qed.

End parser_tables.

Section parser_invariants.
Import Parser.

Lemma process_query_line_tables lc readbuffer following m :
  well_formed m ->
  well_formed (process_query_line lc readbuffer following m) /\
  (names_distinct m ->
   names_distinct (process_query_line lc readbuffer following m)) /\
  (counts_balanced m ->
   counts_balanced (process_query_line lc readbuffer following m)) /\
  (references_valid m ->
   references_valid (process_query_line lc readbuffer following m)).
Proof.
  intros (Hq & Hd & Hc & Hf). unfold process_query_line.
  destruct (strptime_hour_min lc (String.substring 0 15 readbuffer))
    as [tm_hour tm_min].
  cbv zeta.
  destruct (split_query_line readbuffer) as [[domain client]|].
  2:{ unfold well_formed, names_distinct, counts_balanced, references_valid.
      simpl. done. }
  pose proof (find_status_range domain (take 200 following)) as Hstatus.
  generalize dependent (find_status domain (take 200 following)).
  intros status Hstatus.
  pose proof (table_step d_domain bump_domain_count (mkDomainData "" 0 0)
                (mkDomainData domain 1 0) domain (c_domains (counters m))
                (domains m) Hd eq_refl (fun _ => eq_refl)) as Hdom.
  pose proof (table_step cl_ip bump_client_count (mkClientData "" "" 0)
                (mkClientData client (default "" (gethostbyaddr lc client)) 1)
                client (c_clients (counters m))
                (clients m) Hc eq_refl (fun _ => eq_refl)) as Hcli.
  cbv zeta in Hdom, Hcli.
  destruct (match find_index d_domain domain
                    (Z.to_nat (c_domains (counters m))) 0 (domains m) with
            | Some i => _ | None => _ end) as [[domainID domains1] ndomains].
  destruct (match find_index cl_ip client
                    (Z.to_nat (c_clients (counters m))) 0 (clients m) with
            | Some i => _ | None => _ end) as [[clientID clients1] nclients].
  simpl in Hdom, Hcli.
  destruct Hdom as (Hdlen & Hdn & Hdid & Hdnd & Hdsum).
  destruct Hcli as (Hclen & Hcn & Hcid & Hcnd & Hcsum).
  set (domains2 := if status =? 1
                   then alter bump_domain_blocked domainID domains1
                   else domains1).
  assert (Hd2len : length domains2 = length domains1).
  { unfold domains2. destruct (status =? 1); [apply length_alter|done]. }
  assert (Hd2names : map d_domain domains2 = map d_domain domains1).
  { unfold domains2. destruct (status =? 1); [|done].
    by apply map_alter_same. }
  assert (Hd2count : map d_count domains2 = map d_count domains1).
  { unfold domains2. destruct (status =? 1); [|done].
    by apply map_alter_same. }
  assert (Hd2blocked : sumZ (map d_blockedcount domains2)
            = sumZ (map d_blockedcount domains1)
              + (if status =? 1 then 1 else 0)).
  { unfold domains2. destruct (status =? 1); [|lia].
    destruct (lookup_lt_is_Some_2 domains1 domainID Hdid) as [x Hx].
    rewrite (sumZ_alter d_blockedcount bump_domain_blocked _ _ x Hx).
    simpl. lia. }
  clearbody domains2.
  unfold well_formed, names_distinct, counts_balanced, references_valid.
  cbn [counters queries domains clients forwarded overTime
       c_queries c_domains c_clients c_forwarded c_blocked].
  replace (Z.to_nat (c_queries (counters m))) with (length (queries m)) by lia.
  rewrite store_at_end, length_app. simpl length.
  split; [|split; [|split]].
  - split; [lia|]. split; [lia|]. split; [lia|done].
  - intros (Hn1 & Hn2 & Hn3). rewrite Hd2names. auto.
  - intros (Hs1 & Hs2 & Hs3). rewrite Hd2count, Hd2blocked.
    rewrite (Hdsum d_count 1) by done.
    rewrite (Hdsum d_blockedcount 0) by (intros; simpl; lia || done).
    rewrite (Hcsum cl_count 1) by done.
    split; [lia|]. split; [lia|]. destruct (status =? 1); lia.
  - intros Hrefs. apply Forall_app. split.
    + eapply Forall_impl; [exact Hrefs|].
      intros q (? & ? & ? & ?). simpl. lia.
    + apply Forall_singleton. simpl.
      split; [lia|]. split; [lia|]. split; [lia|].
      destruct (contains readbuffer "query[A]"); [lia|].
      destruct (contains readbuffer "query[AAAA]"); lia.
Qed.

End parser_invariants.

Section parser_invariants_log.
Import Parser.


Lemma tables_preserved_refl m : well_formed m -> tables_preserved m m.
Proof. intros Hwf. split; [done|]. split; [done|]. split; done. Qed.

Lemma tables_preserved_counters c m :
  c_queries c = c_queries (counters m) ->
  c_domains c = c_domains (counters m) ->
  c_clients c = c_clients (counters m) ->
  c_forwarded c = c_forwarded (counters m) ->
  c_blocked c = c_blocked (counters m) ->
  well_formed m -> tables_preserved m (set_counters c m).
Proof.
  intros H1 H2 H3 H4 H5 Hwf.
  unfold tables_preserved, well_formed, names_distinct, counts_balanced,
    references_valid in *. simpl. rewrite H1, H2, H3, H4, H5.
  split; [done|]. split; [done|]. split; done.
Qed.

Lemma process_forwarded_line_tables lc readbuffer m :
  well_formed m -> tables_preserved m (process_forwarded_line lc readbuffer m).
Proof.
  intros Hwf. pose proof Hwf as (Hq & Hd & Hc & Hf).
  unfold process_forwarded_line.
  destruct (String.index 0 " to " readbuffer) as [forwardstart|];
    [|by apply tables_preserved_refl].
  destruct (String.index (forwardstart + 4) newline readbuffer)
    as [forwardend|]; [|by apply tables_preserved_refl].
  cbv zeta.
  set (forward := String.substring (forwardstart + 4)
                    (forwardend - (forwardstart + 4)) readbuffer).
  destruct (find_index f_ip forward (Z.to_nat (c_forwarded (counters m))) 0
              (forwarded m)) as [i|] eqn:Hfind.
  - unfold tables_preserved, well_formed, names_distinct, counts_balanced,
      references_valid. simpl. rewrite length_alter.
    split; [done|]. split; [|split; done].
    intros (Hn1 & Hn2 & Hn3). by rewrite map_alter_same.
  - unfold tables_preserved, well_formed, names_distinct, counts_balanced,
      references_valid. simpl.
    replace (Z.to_nat (c_forwarded (counters m)))
      with (length (forwarded m)) in * by lia.
    rewrite store_at_end, length_app. simpl.
    split; [repeat split; lia|]. split; [|split; done].
    intros (Hn1 & Hn2 & Hn3). split; [done|]. split; [done|].
    apply NoDup_snoc_fresh; [done|]. intros j y Hy. simpl.
    apply (find_index_None f_ip forward (forwarded m) _ _ Hfind j y); [|done].
    by eapply lookup_lt_Some.
Qed.

Lemma process_line_tables lc initialscan readbuffer following m :
  well_formed m ->
  tables_preserved m (process_line lc initialscan readbuffer following m).
Proof.
  intros Hwf. unfold process_line.
  destruct (contains readbuffer "]: query[A").
  { by apply process_query_line_tables. }
  destruct (contains readbuffer ": forwarded").
  { by apply process_forwarded_line_tables. }
  destruct (_ && negb initialscan); [by apply tables_preserved_refl|].
  cbv zeta.
  destruct (contains readbuffer "query[PTR]");
    [by apply tables_preserved_counters|].
  destruct (contains readbuffer "query[SRV]");
    [by apply tables_preserved_counters|by apply tables_preserved_refl].
Qed.

Lemma process_pihole_log_tables lc initialscan lines : forall m,
  well_formed m ->
  tables_preserved m (process_pihole_log lc initialscan lines m).
Proof.
  induction lines as [|readbuffer following IH]; intros m Hwf; simpl.
  - by apply tables_preserved_refl.
  - destruct (process_line_tables lc initialscan readbuffer following m Hwf)
      as (Hwf1 & Hn1 & Hc1 & Hr1).
    destruct (IH _ Hwf1) as (Hwf2 & Hn2 & Hc2 & Hr2).
    split; [done|]. split; [auto|]. split; auto.
Qed.

End parser_invariants_log.

(** X22: [process_pihole_log] keeps the tables consistent: when the arrays
    of queries, domains, clients and forward destinations hold as many
    entries as the counters say, and no domain, client address or forward
    destination is stored twice, the same holds after any lines have been
    processed. *)
Theorem process_pihole_log_names_distinct (lc : Parser.libc)
  (initialscan : bool) (lines : list string) (m : Parser.ftl) :
  well_formed m -> names_distinct m ->
  well_formed (Parser.process_pihole_log lc initialscan lines m) /\
  names_distinct (Parser.process_pihole_log lc initialscan lines m).
Proof.
  intros Hwf Hn.
  destruct (process_pihole_log_tables lc initialscan lines m Hwf)
    as (Hwf' & Hn' & _). auto.
Qed.

(** X23: [process_pihole_log] keeps the counts balanced: when the counts
    of the domains and the counts of the clients each add up to
    [counters.queries], and the blocked counts of the domains to
    [counters.blocked], they still do after any lines have been processed. *)
Theorem process_pihole_log_counts_balanced (lc : Parser.libc)
  (initialscan : bool) (lines : list string) (m : Parser.ftl) :
  well_formed m -> counts_balanced m ->
  counts_balanced (Parser.process_pihole_log lc initialscan lines m).
Proof.
  intros Hwf Hc.
  destruct (process_pihole_log_tables lc initialscan lines m Hwf)
    as (_ & _ & Hc' & _). auto.
Qed.

(** X24: [process_pihole_log] keeps the references valid: when every
    stored query names a domain and a client within their tables and has a
    status from 0 to 4 and a type from 0 to 2, this is so after any lines
    have been processed. *)
Theorem process_pihole_log_references_valid (lc : Parser.libc)
  (initialscan : bool) (lines : list string) (m : Parser.ftl) :
  well_formed m -> references_valid m ->
  references_valid (Parser.process_pihole_log lc initialscan lines m).
Proof.
  intros Hwf Hr.
  destruct (process_pihole_log_tables lc initialscan lines m Hwf)
    as (_ & _ & _ & Hr'). auto.
Qed.

Lemma process_pihole_log_names_distinct_witness :
  well_formed (Parser.process_pihole_log libc_sample false log_two_forwarded
                                         Parser.flushed) /\
  names_distinct (Parser.process_pihole_log libc_sample false
                                            log_two_forwarded Parser.flushed).
Proof.
  apply (process_pihole_log_names_distinct libc_sample false log_two_forwarded
           Parser.flushed).
  - repeat split.
  - repeat split; apply NoDup_nil_2.
Defined.

Lemma process_pihole_log_counts_balanced_witness :
  counts_balanced (Parser.process_pihole_log libc_sample false
                                             log_two_forwarded Parser.flushed).
Proof.
  apply (process_pihole_log_counts_balanced libc_sample false
           log_two_forwarded Parser.flushed); repeat split.
Defined.

Lemma process_pihole_log_references_valid_witness :
  references_valid (Parser.process_pihole_log libc_sample false
                                              log_two_forwarded Parser.flushed).
Proof.
  apply (process_pihole_log_references_valid libc_sample false
           log_two_forwarded Parser.flushed); [repeat split|].
  apply Forall_nil_2.
Defined.

(** ** config/config.c *)


Section config_path_lemmas.
Import Config.
Variable MAX : nat.

Lemma pad_path_length elems :
  (length elems <= MAX)%nat -> length (pad_path MAX elems) = MAX.
Proof.
  intros H. unfold pad_path. rewrite length_app, length_map, length_replicate.
  lia.
Qed.

Lemma pad_path_lookup elems (i : nat) :
  (i < MAX)%nat -> (length elems <= MAX)%nat ->
  pad_path MAX elems !! i = Some (elems !! i).
Proof.
  intros Hi Hlen. unfold pad_path.
  destruct (decide (i < length elems)%nat) as [Hlt|Hge].
  - rewrite lookup_app_l by (by rewrite length_map).
    rewrite list_lookup_fmap.
    destruct (lookup_lt_is_Some_2 elems i Hlt) as [x Hx]. by rewrite Hx.
  - rewrite lookup_app_r by (rewrite length_map; lia).
    rewrite lookup_replicate_2 by (rewrite length_map; lia).
    by rewrite lookup_ge_None_2 by lia.
Qed.

Lemma path_elem_pad elems (i : nat) :
  (i < MAX)%nat -> (length elems <= MAX)%nat ->
  path_elem (pad_path MAX elems) i = elems !! i.
Proof. intros Hi Hlen. unfold path_elem. by rewrite pad_path_lookup. Qed.

Lemma pad_path_store done elem :
  (length done < MAX)%nat ->
  <[length done := Some elem]> (pad_path MAX done)
  = pad_path MAX (done ++ [elem]).
Proof.
  intros Hlt. unfold pad_path.
  rewrite insert_app_r_alt by (by rewrite length_map).
  rewrite length_map, Nat.sub_diag, map_app, <- app_assoc, length_app.
  simpl. f_equal.
  replace (MAX - length done)%nat with (S (MAX - (length done + 1)))%nat by lia.
  done.
Qed.

(** The loops of [gen_config_path] never leave the array, and fill it
    from the front. *)
Lemma gen_config_path_loop_padded delim path : forall elem done,
  (length done < MAX)%nat ->
  exists done',
    gen_config_path_loop MAX delim path elem (length done) (pad_path MAX done)
    = pad_path MAX done' /\
    (length done < length done' <= MAX)%nat.
Proof.
  induction path as [|c rest IH]; intros elem done Hlt; simpl.
  - exists (done ++ [elem]). rewrite pad_path_store by done.
    rewrite length_app. simpl. split; [done|lia].
  - destruct (bool_decide (c = delim)).
    + rewrite pad_path_store by done.
      destruct (Nat.ltb_spec (MAX - 1) (S (length done))).
      * exists (done ++ [elem]). rewrite length_app. simpl. split; [done|lia].
      * destruct rest as [|c' rest'].
        -- exists (done ++ [elem]). rewrite length_app. simpl.
           split; [done|lia].
        -- destruct (IH "" (done ++ [elem])) as (done' & Heq & Hlen).
           { rewrite length_app. simpl. lia. }
           rewrite length_app in Heq, Hlen. simpl in Heq, Hlen.
           replace (length done + 1)%nat with (S (length done)) in Heq by lia.
           exists done'. split; [done|lia].
    + destruct (IH (elem +:+ String c "") done Hlt) as (done' & Heq & Hlen).
      by exists done'.
Qed.

Lemma config_path_depth_loop_pad elems : forall n i,
  (i + n = MAX)%nat -> (length elems <= MAX)%nat -> (i <= length elems)%nat ->
  config_path_depth_loop MAX (pad_path MAX elems) (seq i n) = length elems.
Proof.
  induction n as [|n IH]; intros i Hin Hlen Hi; simpl.
  - lia.
  - rewrite path_elem_pad by lia.
    destruct (elems !! i) as [x|] eqn:Hx; simpl.
    + apply IH; [lia|done|]. apply lookup_lt_Some in Hx. lia.
    + apply lookup_ge_None in Hx. lia.
Qed.

End config_path_lemmas.

(** X25: with [MAX_CONFIG_PATH_DEPTH > 0], [gen_config_path] returns an
    array of [MAX_CONFIG_PATH_DEPTH] entries: at most that many elements,
    then NULL pointers only, whatever the string (a path that is too deep
    is cut); [config_path_depth] of the array is the number of elements; a
    NULL pointer and the empty string give no element. *)
Theorem gen_config_path_shape (MAX_CONFIG_PATH_DEPTH : nat)
  (pathin : option string) (delim : ascii) :
  (0 < MAX_CONFIG_PATH_DEPTH)%nat ->
  let paths := Config.gen_config_path MAX_CONFIG_PATH_DEPTH pathin delim in
  exists elems,
    paths = pad_path MAX_CONFIG_PATH_DEPTH elems /\
    (length elems <= MAX_CONFIG_PATH_DEPTH)%nat /\
    length paths = MAX_CONFIG_PATH_DEPTH /\
    Config.config_path_depth MAX_CONFIG_PATH_DEPTH paths = length elems /\
    (pathin = None \/ pathin = Some "" -> elems = []).
Proof.
  intros Hpos paths. subst paths. unfold Config.gen_config_path.
  assert (Hnil : replicate MAX_CONFIG_PATH_DEPTH None
                 = pad_path MAX_CONFIG_PATH_DEPTH []).
  { unfold pad_path. simpl. by rewrite Nat.sub_0_r. }
  assert (Hempty : exists elems,
    replicate MAX_CONFIG_PATH_DEPTH None = pad_path MAX_CONFIG_PATH_DEPTH elems /\
    (length elems <= MAX_CONFIG_PATH_DEPTH)%nat /\
    length (replicate (A:=option string) MAX_CONFIG_PATH_DEPTH None)
    = MAX_CONFIG_PATH_DEPTH /\
    Config.config_path_depth MAX_CONFIG_PATH_DEPTH
      (replicate MAX_CONFIG_PATH_DEPTH None) = length elems /\
    elems = []).
  { exists []. split; [done|]. split; [simpl; lia|].
    split; [by rewrite length_replicate|]. split; [|done].
    rewrite Hnil. unfold Config.config_path_depth.
    apply config_path_depth_loop_pad; simpl; lia. }
  destruct pathin as [[|c rest]|].
  - destruct Hempty as (elems & H1 & H2 & H3 & H4 & H5).
    exists elems. auto.
  - rewrite Hnil.
    destruct (gen_config_path_loop_padded MAX_CONFIG_PATH_DEPTH delim
                (String c rest) "" [] Hpos) as (done' & Heq & Hlen).
    simpl length in Heq. rewrite Heq. exists done'.
    split; [done|]. split; [lia|].
    split; [apply pad_path_length; lia|]. split.
    + unfold Config.config_path_depth.
      apply config_path_depth_loop_pad; lia.
    + intros [|]; discriminate.
  - destruct Hempty as (elems & H1 & H2 & H3 & H4 & H5).
    exists elems. auto.
Qed.

Lemma gen_config_path_shape_witness :
  (0 < 4)%nat /\
  let paths := Config.gen_config_path 4 (Some "dns..upstreams.") "." in
  exists elems,
    paths = pad_path 4 elems /\
    (length elems <= 4)%nat /\
    length paths = 4%nat /\
    Config.config_path_depth 4 paths = length elems /\
    (Some "dns..upstreams." = None \/ Some "dns..upstreams." = Some "" ->
     elems = []).
Proof.
  split; [lia|].
  apply (gen_config_path_shape 4 (Some "dns..upstreams.") "."). lia.
Defined.

Section config_round_trip.
Import Config.
Variable MAX : nat.

Lemma join_path_cons delim e e2 rest :
  join_path delim (e :: e2 :: rest)
  = e +:+ String delim (join_path delim (e2 :: rest)).
Proof. reflexivity. Qed.

Lemma join_path_nonempty delim elems :
  elems <> [] -> last elems <> Some "" -> join_path delim elems <> "".
Proof.
  destruct elems as [|e [|e2 rest]]; [done| |].
  - simpl. intros _ H Heq. apply H. by rewrite Heq.
  - intros _ _. rewrite join_path_cons. by destruct e.
Qed.

Lemma append_assoc_char elem c e :
  (elem +:+ String c "") +:+ e = elem +:+ String c e.
Proof.
  induction elem as [|a elem IH]; [done|]. by rewrite !append_cons, IH.
Qed.

Lemma append_empty_r s : s +:+ "" = s.
Proof. induction s as [|a s IH]; [done|]. by rewrite append_cons, IH. Qed.

Lemma gen_config_path_loop_join delim : forall rest e elem done,
  Forall (free_of delim) (e :: rest) ->
  (length done + length (e :: rest) <= MAX)%nat ->
  (rest <> [] -> last rest <> Some "") ->
  gen_config_path_loop MAX delim (join_path delim (e :: rest)) elem
                       (length done) (pad_path MAX done)
  = pad_path MAX (done ++ (elem +:+ e) :: rest).
Proof.
  induction rest as [|e2 rest IHrest]; intros e.
  - induction e as [|c e IHe]; intros elem done Hfree Hlen _; simpl in *.
    + rewrite pad_path_store by lia. by rewrite append_empty_r.
    + apply Forall_singleton in Hfree as [Hc Hfree].
      rewrite bool_decide_eq_false_2 by done.
      rewrite (IHe (elem +:+ String c "") done); [|by apply Forall_singleton|lia|done].
      by rewrite append_assoc_char.
  - induction e as [|c e IHe]; intros elem done Hfree Hlen Hlast.
    + rewrite join_path_cons. simpl in Hlen.
      change ("" +:+ String delim (join_path delim (e2 :: rest)))
        with (String delim (join_path delim (e2 :: rest))).
      cbn [gen_config_path_loop].
      rewrite bool_decide_eq_true_2 by done.
      destruct (Nat.ltb_spec (MAX - 1) (S (length done))); [lia|].
      rewrite pad_path_store by lia.
      assert (Hne : join_path delim (e2 :: rest) <> "").
      { apply join_path_nonempty; [done|]. by apply Hlast. }
      destruct (join_path delim (e2 :: rest)) as [|c' s'] eqn:Hj; [done|].
      rewrite <- Hj.
      replace (S (length done)) with (length (done ++ [elem]))
        by (rewrite length_app; simpl; lia).
      rewrite IHrest.
      * rewrite <- app_assoc. simpl. by rewrite append_empty_r.
      * by apply Forall_cons in Hfree as [_ Hfree].
      * rewrite length_app. simpl in *. lia.
      * intros Hr. specialize (Hlast ltac:(done)).
        destruct rest; [done|]. exact Hlast.
    + rewrite join_path_cons.
      change (String c e +:+ String delim (join_path delim (e2 :: rest)))
        with (String c (e +:+ String delim (join_path delim (e2 :: rest)))).
      rewrite <- join_path_cons.
      apply Forall_cons in Hfree as [[Hc Hfe] Hfree].
      cbn [gen_config_path_loop].
      rewrite bool_decide_eq_false_2 by done.
      rewrite (IHe (elem +:+ String c "") done);
        [|by apply Forall_cons|done|done].
      by rewrite append_assoc_char.
Qed.

End config_round_trip.

(** X26: [gen_config_path] splits what was joined: for a non-empty list of
    at most [MAX_CONFIG_PATH_DEPTH] elements without the delimiter, the
    last of them not empty, the path of the elements joined by the
    delimiter is the array of these elements followed by NULL pointers,
    and its depth is their number. *)
Theorem gen_config_path_join (MAX_CONFIG_PATH_DEPTH : nat) (delim : ascii)
  (elems : list string) :
  elems <> [] ->
  (length elems <= MAX_CONFIG_PATH_DEPTH)%nat ->
  Forall (free_of delim) elems ->
  last elems <> Some "" ->
  Config.gen_config_path MAX_CONFIG_PATH_DEPTH
    (Some (join_path delim elems)) delim
  = pad_path MAX_CONFIG_PATH_DEPTH elems /\
  Config.config_path_depth MAX_CONFIG_PATH_DEPTH
    (Config.gen_config_path MAX_CONFIG_PATH_DEPTH
       (Some (join_path delim elems)) delim)
  = length elems.
Proof.
  intros Hne Hlen Hfree Hlast.
  assert (Hgen : Config.gen_config_path MAX_CONFIG_PATH_DEPTH
                   (Some (join_path delim elems)) delim
                 = pad_path MAX_CONFIG_PATH_DEPTH elems).
  { unfold Config.gen_config_path.
    pose proof (join_path_nonempty delim elems Hne Hlast) as Hj.
    destruct (join_path delim elems) as [|c s] eqn:Hjoin; [done|].
    rewrite <- Hjoin. destruct elems as [|e rest]; [done|].
    replace (replicate MAX_CONFIG_PATH_DEPTH None)
      with (pad_path MAX_CONFIG_PATH_DEPTH [])
      by (unfold pad_path; simpl; by rewrite Nat.sub_0_r).
    change 0%nat with (length (@nil string)) at 1.
    rewrite gen_config_path_loop_join; [done|done|simpl in *; lia|].
    intros Hr. destruct rest; [done|]. exact Hlast. }
  split; [done|]. rewrite Hgen. unfold Config.config_path_depth.
  apply config_path_depth_loop_pad; lia.
Qed.

Lemma gen_config_path_join_witness :
  Config.gen_config_path 4 (Some "dns.rateLimit.count") "." 
  = [Some "dns"; Some "rateLimit"; Some "count"; None] /\
  Config.config_path_depth 4
    (Config.gen_config_path 4 (Some "dns.rateLimit.count") ".") = 3%nat.
Proof.
  apply (gen_config_path_join 4 "." ["dns"; "rateLimit"; "count"]).
  - discriminate.
  - simpl; lia.
  - repeat constructor; discriminate.
  - discriminate.
Defined.

Section config_paths_equal.
Import Config.
Variable MAX : nat.

Lemma check_paths_loop_spec p q max_level : forall n i,
  (0 < i)%nat -> (i + n = MAX)%nat ->
  (length p <= MAX)%nat -> (length q <= MAX)%nat ->
  check_paths_loop (pad_path MAX p) (pad_path MAX q) max_level (seq i n) = true
  <-> take (S max_level - i) (drop i p) = take (S max_level - i) (drop i q).
Proof.
  induction n as [|n IH]; intros i Hi Hin Hp Hq; simpl.
  - rewrite !drop_ge by lia. done.
  - rewrite !path_elem_pad by lia.
    destruct (Nat.ltb_spec 0 i); [|lia]. simpl.
    destruct (p !! i) as [a|] eqn:Ha; destruct (q !! i) as [b|] eqn:Hb; simpl.
    + destruct (Nat.ltb_spec max_level i) as [Hlvl|Hlvl].
      { replace (S max_level - i)%nat with 0%nat by lia. done. }
      rewrite (drop_S p a i Ha), (drop_S q b i Hb).
      replace (S max_level - i)%nat with (S (max_level - i)) by lia.
      pose proof (IH (S i) ltac:(lia) ltac:(lia) Hp Hq) as IH'.
      simpl in IH'. simpl. destruct (bool_decide (a = b)) eqn:Hab.
      * apply bool_decide_eq_true in Hab. subst b.
        rewrite IH'. split; [by intros ->|by intros [= ->]].
      * apply bool_decide_eq_false in Hab. split; [done|]. by intros [= -> _].
    + destruct (Nat.ltb_spec max_level i) as [Hlvl|Hlvl].
      { replace (S max_level - i)%nat with 0%nat by lia. done. }
      rewrite (drop_S p a i Ha). apply lookup_ge_None in Hb.
      rewrite (drop_ge q) by done.
      replace (S max_level - i)%nat with (S (max_level - i)) by lia.
      done.
    + destruct (Nat.ltb_spec max_level i) as [Hlvl|Hlvl].
      { replace (S max_level - i)%nat with 0%nat by lia. done. }
      rewrite (drop_S q b i Hb). apply lookup_ge_None in Ha.
      rewrite (drop_ge p) by done.
      replace (S max_level - i)%nat with (S (max_level - i)) by lia.
      done.
    + apply lookup_ge_None in Ha, Hb. rewrite !drop_ge by done. done.
Qed.

End config_paths_equal.

(** X27: [check_paths_equal] on two path arrays (elements, then NULL
    pointers) holds exactly when the first path is not empty and the two
    paths agree on their first [max_level + 1] elements, being the same
    path when they are shorter; two empty paths are not equal, and a NULL
    array is equal to none. *)
Theorem check_paths_equal_prefix (MAX_CONFIG_PATH_DEPTH : nat)
  (p q : list string) (max_level : nat) :
  (0 < MAX_CONFIG_PATH_DEPTH)%nat ->
  (length p <= MAX_CONFIG_PATH_DEPTH)%nat ->
  (length q <= MAX_CONFIG_PATH_DEPTH)%nat ->
  (Config.check_paths_equal MAX_CONFIG_PATH_DEPTH
     (Some (pad_path MAX_CONFIG_PATH_DEPTH p))
     (Some (pad_path MAX_CONFIG_PATH_DEPTH q)) max_level = true
   <-> p <> [] /\ take (S max_level) p = take (S max_level) q) /\
  (forall paths,
     Config.check_paths_equal MAX_CONFIG_PATH_DEPTH None paths max_level
     = false /\
     Config.check_paths_equal MAX_CONFIG_PATH_DEPTH paths None max_level
     = false).
Proof.
  intros Hmax Hp Hq. split.
  2:{ intros paths. unfold Config.check_paths_equal. by destruct paths. }
  unfold Config.check_paths_equal.
  destruct MAX_CONFIG_PATH_DEPTH as [|n] eqn:HM; [lia|]. rewrite <- HM in *.
  assert (Hseq : seq 0 MAX_CONFIG_PATH_DEPTH = 0%nat :: seq 1 n)
    by (by rewrite HM).
  rewrite Hseq. cbn [Config.check_paths_loop].
  rewrite !path_elem_pad by lia. simpl. 
  destruct p as [|a p']; destruct q as [|b q']; simpl.
  - split; [done|]. by intros [? _].
  - split; [done|]. by intros [? _].
  - split; [done|]. by intros [_ ?].
  - destruct (bool_decide (a = b)) eqn:Hab.
    + apply bool_decide_eq_true in Hab. subst b.
      rewrite (check_paths_loop_spec MAX_CONFIG_PATH_DEPTH (a :: p') (a :: q')
                 max_level n 1) by (simpl in *; lia).
      simpl. rewrite Nat.sub_0_r, !drop_0. split.
      * intros ->. done.
      * intros [_ [= ->]]. done.
    + apply bool_decide_eq_false in Hab. split; [done|].
      intros [_ [= -> _]]. done.
Qed.

Lemma check_paths_equal_prefix_witness :
  (Config.check_paths_equal 4
     (Some (pad_path 4 ["dns"; "rateLimit"; "count"]))
     (Some (pad_path 4 ["dns"; "rateLimit"; "interval"])) 1 = true
   <-> ["dns"; "rateLimit"; "count"] <> [] /\
       take 2 ["dns"; "rateLimit"; "count"]
       = take 2 ["dns"; "rateLimit"; "interval"]) /\
  (forall paths,
     Config.check_paths_equal 4 None paths 1 = false /\
     Config.check_paths_equal 4 paths None 1 = false).
Proof.
  apply (check_paths_equal_prefix 4 ["dns"; "rateLimit"; "count"]
           ["dns"; "rateLimit"; "interval"] 1); simpl; lia.
Defined.

(** ** webserver/webserver.c *)

Section host_header.
Import Webserver.

Lemma substring_none s : String.substring 0 0 s = "".
Proof. by destruct s. Qed.

Lemma prefix_empty s : String.prefix "" s = true.
Proof. by destruct s. Qed.

Lemma strncmp_eq_prefix n : forall h d,
  (n <= String.length h)%nat ->
  strncmp_eq h d n = true <-> String.prefix (String.substring 0 n h) d = true.
Proof.
  unfold strncmp_eq. setoid_rewrite bool_decide_eq_true.
  induction n as [|n IH]; intros h d Hn.
  - rewrite !substring_none, prefix_empty. done.
  - destruct h as [|a h]; [simpl in Hn; lia|]. simpl in Hn.
    destruct d as [|b d]; simpl; [done|].
    destruct (ascii_dec a b) as [->|Hne].
    + rewrite <- IH by lia. split; [by intros [= ->]|by intros ->].
    + split; [by intros [= ? _]|done].
Qed.

Lemma index_char_bound (c : ascii) h : forall pos,
  String.index 0 (String c "") h = Some pos -> (pos < String.length h)%nat.
Proof.
  induction h as [|b h IH]; intros pos H; simpl in H; [done|].
  destruct (ascii_dec c b).
  - rewrite prefix_empty in H. injection H as <-. simpl. lia.
  - destruct (String.index 0 (String c "") h) as [k|]; [|done].
    injection H as <-. simpl. specialize (IH k eq_refl). lia.
Qed.

Lemma host_length_bound h n :
  host_length h = Some n -> (n <= String.length h)%nat.
Proof.
  unfold host_length. intros H.
  assert (Hplain : match String.index 0 ":" h with
                   | Some pos => Some pos
                   | None => Some (String.length h)
                   end = Some n -> (n <= String.length h)%nat).
  { destruct (String.index 0 ":" h) as [pos|] eqn:Hi; intros [= <-]; [|done].
    apply index_char_bound in Hi. lia. }
  destruct h as [|c h']; [by apply Hplain|].
  destruct (bool_decide (c = "["%char)) eqn:Hc.
  - apply bool_decide_eq_true in Hc. subst c.
    destruct (String.index 0 "]" (String "[" h')) as [pos|] eqn:Hi; [|done].
    injection H as <-. apply index_char_bound in Hi. lia.
  - apply bool_decide_eq_false in Hc. apply Hplain.
    destruct c as [[] [] [] [] [] [] [] []]; try exact H. done.
Qed.

End host_header.

(** X28: [redirect_root_handler] either redirects to [webhome] with code
    308 and returns 1, or sends nothing and returns 0. It redirects
    exactly when the URI is "/" and there is a Host header whose host name
    (up to the port, or up to the closing bracket of an IPv6 address) is a
    prefix of the configured domain: [strncmp] compares only as many
    characters as the host name has. *)
Theorem redirect_root_handler_spec (cfg : Webserver.web_config)
  (host : option string) (uri : string) :
  let r := Webserver.redirect_root_handler cfg host uri in
  (r.1 = (1, Webserver.Http_redirect (Webserver.webhome cfg) 308) \/
   r.1 = (0, Webserver.No_answer)) /\
  (r.1.1 = 1 <->
   uri = "/" /\
   exists h n,
     host = Some h /\ Webserver.host_length h = Some n /\
     String.prefix (String.substring 0 n h) (Webserver.domain cfg) = true).
Proof.
  intros r. subst r. unfold Webserver.redirect_root_handler.
  destruct host as [h|].
  - destruct (Webserver.host_length h) as [n|] eqn:Hn.
    + pose proof (strncmp_eq_prefix n h (Webserver.domain cfg)
                    (host_length_bound h n Hn)) as Hcmp.
      destruct (Webserver.strncmp_eq h (Webserver.domain cfg) n) eqn:Hs; simpl.
      * destruct (bool_decide (uri = "/")) eqn:Hu; simpl.
        -- apply bool_decide_eq_true in Hu. split; [by left|].
           split; [|done]. intros _. split; [done|].
           exists h, n. split; [done|]. split; [done|]. by apply Hcmp.
        -- apply bool_decide_eq_false in Hu. split; [by right|].
           split; [done|]. by intros [? _].
      * split; [by right|]. split; [done|].
        intros (_ & h' & n' & [= <-] & Hn' & Hp).
        rewrite Hn in Hn'. injection Hn' as <-.
        apply Hcmp in Hp. congruence.
    + simpl. split; [by right|]. split; [done|].
      intros (_ & h' & n' & [= <-] & Hn' & _). congruence.
  - simpl. split; [by right|]. split; [done|].
    intros (_ & h' & n' & Hh & _). discriminate.
Qed.

Section host_port.
Import Webserver.

Lemma host_length_plain h :
  String.get 0 h <> Some "["%char ->
  host_length h = match String.index 0 ":" h with
                  | Some pos => Some pos
                  | None => Some (String.length h)
                  end.
Proof.
  intros Hb. unfold host_length. destruct h as [|c h']; [done|].
  simpl in Hb.
  destruct c as [[] [] [] [] [] [] [] []]; try reflexivity. done.
Qed.

Lemma index_free (c : ascii) name :
  free_of c name -> String.index 0 (String c "") name = None.
Proof.
  induction name as [|a name IH]; simpl; [done|].
  intros [Hne Hfree]. destruct (ascii_dec c a) as [->|_]; [done|].
  by rewrite IH.
Qed.

Lemma index_after_free (c : ascii) name rest :
  free_of c name ->
  String.index 0 (String c "") (name +:+ String c rest)
  = Some (String.length name).
Proof.
  induction name as [|a name IH]; intros Hfree.
  - rewrite append_nil. simpl. destruct (ascii_dec c c); [|done].
    by rewrite prefix_empty.
  - destruct Hfree as [Hne Hfree]. rewrite append_cons. simpl.
    destruct (ascii_dec c a) as [->|_]; [done|]. by rewrite IH.
Qed.

Lemma substring_append_l name rest :
  String.substring 0 (String.length name) (name +:+ rest) = name.
Proof.
  induction name as [|a name IH]; [apply substring_none|].
  rewrite append_cons. simpl. by rewrite IH.
Qed.

End host_port.

(** X29: the port does not matter to [redirect_root_handler]: for a host
    name without colon that does not start with a bracket, a request for
    "/" gets the same answer with ":port" after the name as without, and
    it is redirected exactly when the name is a prefix of the configured
    domain. *)
Theorem redirect_root_handler_port (cfg : Webserver.web_config)
  (name port : string) :
  free_of ":" name ->
  String.get 0 name <> Some "["%char ->
  let with_port :=
    Webserver.redirect_root_handler cfg (Some (name +:+ String ":" port)) "/" in
  let without :=
    Webserver.redirect_root_handler cfg (Some name) "/" in
  with_port.1 = without.1 /\
  (without.1.1 = 1 <-> String.prefix name (Webserver.domain cfg) = true).
Proof.
  intros Hfree Hbracket with_port without. subst with_port without.
  assert (Hlen1 : Webserver.host_length (name +:+ String ":" port)
                  = Some (String.length name)).
  { rewrite host_length_plain.
    - by rewrite index_after_free.
    - destruct name as [|c name]; [by rewrite append_nil|].
      by rewrite append_cons. }
  assert (Hlen2 : Webserver.host_length name = Some (String.length name)).
  { rewrite host_length_plain by done. by rewrite index_free. }
  assert (Hcmp : Webserver.strncmp_eq (name +:+ String ":" port)
                   (Webserver.domain cfg) (String.length name)
                 = Webserver.strncmp_eq name (Webserver.domain cfg)
                     (String.length name)).
  { unfold Webserver.strncmp_eq.
    by rewrite substring_append_l, substring_all. }
  split.
  - unfold Webserver.redirect_root_handler. rewrite Hlen1, Hlen2, Hcmp.
    by destruct (_ && _).
  - unfold Webserver.redirect_root_handler. rewrite Hlen2.
    pose proof (strncmp_eq_prefix (String.length name) name
                  (Webserver.domain cfg) ltac:(lia)) as Hp.
    rewrite substring_all in Hp. rewrite <- Hp.
    destruct (Webserver.strncmp_eq name (Webserver.domain cfg)
                (String.length name)); simpl; [done|].
    split; [lia|done].
Qed.

Lemma redirect_root_handler_port_witness :
  let with_port :=
    Webserver.redirect_root_handler cfg_pi_hole
      (Some ("pi.hole" +:+ String ":" "8080")) "/" in
  let without :=
    Webserver.redirect_root_handler cfg_pi_hole (Some "pi.hole") "/" in
  with_port.1 = without.1 /\
  (without.1.1 = 1 <-> String.prefix "pi.hole" (Webserver.domain cfg_pi_hole)
                       = true).
Proof.
  apply (redirect_root_handler_port cfg_pi_hole "pi.hole" "8080").
  - simpl. repeat split; discriminate.
  - simpl. discriminate.
Defined.


(** ** The models at work *)

(** The sixth query of a client, one second into a window of 60 seconds
    with 5 queries allowed, is turned around in 59 seconds. *)
Example turnaround_sixth_query :
  GC.get_rate_limit_turnaround cfg_5_per_60 1000 1001 6 = Some 59.
Proof. reflexivity. Qed.

(** With no history kept and a [GCdelay] of -60, the sum of the two wraps
    as an [unsigned int]: the oldest timestamp to keep lies 2^32 seconds
    back, and a regular run removes no query. *)
Example mintime_wraps :
  GC.gc_mintime (GC.mkGcConfig 5 60 0 600 (-60)) 100000 false = -4294867200 /\
  GC.n_queries (GC.runGC helpers_idle (GC.mkGcConfig 5 60 0 600 (-60)) 100000
                         None false shm_old_and_new).2
  = GC.n_queries shm_old_and_new.
Proof. split; reflexivity. Qed.

(** A reset ends the rate limitation of a client that stayed within the
    limit, and says so. *)
Example reset_ends_limitation :
  GC.reset_rate_limiting cfg_5_per_60 1 [GC.mkClient true 7 9 0 [] 4 true]
  = ([GC.mkClient true 7 9 0 [] 0 false], [GC.Ending_rate_limitation 7]).
Proof. reflexivity. Qed.

(** An expired session does not authenticate. *)
Example expired_session_is_unauthorized :
  (Auth.check_client_auth cfg_password 1301 request_with_header true
                          one_session).1 = Auth.API_AUTH_UNAUTHORIZED.
Proof. reflexivity. Qed.

(** Another address does not authenticate with the SID. *)
Example other_address_is_unauthorized :
  (Auth.check_client_auth cfg_password 1200
     (Auth.mkConn "192.168.0.3" false Auth.HTTP_GET None false None None None
                  (Some sid_A) None None None None None)
     true one_session).1 = Auth.API_AUTH_UNAUTHORIZED.
Proof. reflexivity. Qed.

(** A login with the right password, once the only session has expired,
    takes over slot 0: HTTP 200, a valid session with the fresh SID and
    CSRF token, valid for the session timeout. *)
Example login_issues_session :
  let '(code, body, st) :=
    Auth.api_auth env_hunter2 cfg_password 1400 (Some sid_A) (Some csrf_B)
                  (login_request "hunter2" request_base) one_session in
  code = 200 /\
  body = Auth.Session_body true false (Some sid_A) (Some csrf_B) 300 /\
  Auth.pi_hole_extra_headers st = Auth.Set_cookie sid_A 300 /\
  Auth.log st = [password_line (Some "hunter2")].
Proof. vm_compute. repeat split. Qed.

(** A login with a wrong password is answered with HTTP 401, and the
    password is in the log all the same. *)
Example failed_login_is_logged :
  let '(code, body, st) :=
    Auth.api_auth env_hunter2 cfg_password 1400 None None
                  (login_request "guess" request_base) one_session in
  code = 401 /\ Auth.log st = [password_line (Some "guess")].
Proof. vm_compute. repeat split. Qed.

(** The first page of two rows, and the same page asked for again with
    the cursor of the answer. *)
Example first_page :
  Queries.api_queries db_three_rows enum_names_sample false true
    (Some (Queries.mkParams None None None None None None None (Some 2)
             None Queries.Cursor_absent None None None None))
  = Queries.Json_queries [Queries.mkRow 10 []; Queries.mkRow 9 []] 10 3 3 0.
Proof. reflexivity. Qed.

(** An unknown status name is a bad request. *)
Example unknown_status_name :
  Queries.api_queries db_three_rows enum_names_sample false true
    (Some (Queries.mkParams None None None None None None None None
             None Queries.Cursor_absent None (Some "nonsense") None None))
  = Queries.Json_error 400 "bad_request" "Requested status is invalid"
                       (Some "nonsense").
Proof. reflexivity. Qed.

(** A query answered from gravity.list is counted as blocked, for its
    domain and for its ten minutes of the day as well. *)
Example blocked_query_is_counted :
  let m := Parser.process_pihole_log libc_sample false log_blocked
                                     Parser.flushed in
  Parser.c_queries (Parser.counters m) = 1 /\
  Parser.c_blocked (Parser.counters m) = 1 /\
  Parser.queries m = [Parser.mkQueryData 37201 1 1 0 0] /\
  Parser.domains m = [Parser.mkDomainData "ad.example" 1 1] /\
  Parser.clients m = [Parser.mkClientData "10.0.0.1" "" 1] /\
  Parser.overTime m !! 62%nat = Some (Parser.mkOverTimeData 1 1).
Proof. vm_compute. repeat split. Qed.
